(** * Brush sculpting of a loaded mesh (SimpleViewer.tsx)

    A shallow embedding of the mesh-deformation code of the viewer:
    [sculptMesh], [resetMesh], [processLoadedModel] and the pointer
    handlers of [EditableScene], and [validateAndProcessModel] of the
    uploader.

    Conventions.
    - JavaScript numbers are modelled as real numbers: rounding (also the
      rounding of a Float32Array store), NaN and infinities are outside
      the model.
    - A position attribute (a Float32Array read and written three
      components at a time through [fromBufferAttribute] / [setXYZ]) is a
      list of [Vector3], one entry per vertex; [count] is its length.
    - The methods of the 3D engine that the code calls are written out
      after the engine's definitions ([Vector3], [Matrix4]); the normal
      recomputation of a geometry is a parameter of the development.
    - A render of a function component binds its props and state values
      once; the closures it creates ([sculptMesh], the pointer handlers)
      keep these values. State setters act on the component's state,
      which the next render reads. *)

From Stdlib Require Import Reals Lra Lia List Ascii String.
From stdpp Require Import base list gmap.
Import ListNotations.

Open Scope R_scope.

(** ** Engine vectors *)

Record Vector2 := mkVector2 { x2 : R; y2 : R }.

Record Vector3 := mkVector3 { vx : R; vy : R; vz : R }.

Module Vector3.

Definition zero : Vector3 := mkVector3 0 0 0.

(** [a.sub(b)] *)
Definition sub (a b : Vector3) : Vector3 :=
  mkVector3 (vx a - vx b) (vy a - vy b) (vz a - vz b).

(** [a.addScaledVector(v, s)]: [a.x += v.x * s], ... *)
Definition addScaledVector (a v : Vector3) (s : R) : Vector3 :=
  mkVector3 (vx a + vx v * s) (vy a + vy v * s) (vz a + vz v * s).

(** [a.lerp(v, alpha)]: [a.x += (v.x - a.x) * alpha], ...; the factor
    is used as given. *)
Definition lerp (a v : Vector3) (alpha : R) : Vector3 :=
  mkVector3 (vx a + (vx v - vx a) * alpha)
            (vy a + (vy v - vy a) * alpha)
            (vz a + (vz v - vz a) * alpha).

Definition lengthSq (a : Vector3) : R :=
  vx a * vx a + vy a * vy a + vz a * vz a.

Definition length (a : Vector3) : R := sqrt (lengthSq a).

Definition distanceToSquared (a v : Vector3) : R :=
  let dx := vx a - vx v in
  let dy := vy a - vy v in
  let dz := vz a - vz v in
  dx * dx + dy * dy + dz * dz.

(** [a.distanceTo(v)] *)
Definition distanceTo (a v : Vector3) : R := sqrt (distanceToSquared a v).

(** [a.multiplyScalar(s)] *)
Definition multiplyScalar (a : Vector3) (s : R) : Vector3 :=
  mkVector3 (vx a * s) (vy a * s) (vz a * s).

(** [a.divideScalar(s)] is [a.multiplyScalar(1 / s)]. *)
Definition divideScalar (a : Vector3) (s : R) : Vector3 :=
  multiplyScalar a (1 / s).

(** [a.normalize()] is [a.divideScalar(a.length() || 1)]: a vector of
    length 0 is divided by 1. *)
Definition normalize (a : Vector3) : Vector3 :=
  divideScalar a (if Req_dec_T (length a) 0 then 1 else length a).

End Vector3.

(** ** Engine matrices: sixteen elements in column-major order *)

Record Matrix4 := mkMatrix4 {
  e0 : R; e1 : R; e2 : R; e3 : R;
  e4 : R; e5 : R; e6 : R; e7 : R;
  e8 : R; e9 : R; e10 : R; e11 : R;
  e12 : R; e13 : R; e14 : R; e15 : R
}.

Module Matrix4.

Definition identity : Matrix4 :=
  mkMatrix4 1 0 0 0  0 1 0 0  0 0 1 0  0 0 0 1.

Definition zero : Matrix4 :=
  mkMatrix4 0 0 0 0  0 0 0 0  0 0 0 0  0 0 0 0.

Definition t11 (m : Matrix4) : R :=
  e9 m * e14 m * e7 m - e13 m * e10 m * e7 m + e13 m * e6 m * e11 m
  - e5 m * e14 m * e11 m - e9 m * e6 m * e15 m + e5 m * e10 m * e15 m.

Definition t12 (m : Matrix4) : R :=
  e12 m * e10 m * e7 m - e8 m * e14 m * e7 m - e12 m * e6 m * e11 m
  + e4 m * e14 m * e11 m + e8 m * e6 m * e15 m - e4 m * e10 m * e15 m.

Definition t13 (m : Matrix4) : R :=
  e8 m * e13 m * e7 m - e12 m * e9 m * e7 m + e12 m * e5 m * e11 m
  - e4 m * e13 m * e11 m - e8 m * e5 m * e15 m + e4 m * e9 m * e15 m.

Definition t14 (m : Matrix4) : R :=
  e12 m * e9 m * e6 m - e8 m * e13 m * e6 m - e12 m * e5 m * e10 m
  + e4 m * e13 m * e10 m + e8 m * e5 m * e14 m - e4 m * e9 m * e14 m.

Definition determinant (m : Matrix4) : R :=
  e0 m * t11 m + e1 m * t12 m + e2 m * t13 m + e3 m * t14 m.

(** [m.invert()]: the adjugate divided by the determinant; a matrix of
    determinant 0 is replaced by the zero matrix. *)
Definition invert (m : Matrix4) : Matrix4 :=
  let n11 := e0 m in let n21 := e1 m in let n31 := e2 m in let n41 := e3 m in
  let n12 := e4 m in let n22 := e5 m in let n32 := e6 m in let n42 := e7 m in
  let n13 := e8 m in let n23 := e9 m in let n33 := e10 m in let n43 := e11 m in
  let n14 := e12 m in let n24 := e13 m in let n34 := e14 m in let n44 := e15 m in
  let det := determinant m in
  if Req_dec_T det 0 then zero else
  let detInv := 1 / det in
  mkMatrix4
    (t11 m * detInv)
    ((n24 * n33 * n41 - n23 * n34 * n41 - n24 * n31 * n43
      + n21 * n34 * n43 + n23 * n31 * n44 - n21 * n33 * n44) * detInv)
    ((n22 * n34 * n41 - n24 * n32 * n41 + n24 * n31 * n42
      - n21 * n34 * n42 - n22 * n31 * n44 + n21 * n32 * n44) * detInv)
    ((n23 * n32 * n41 - n22 * n33 * n41 - n23 * n31 * n42
      + n21 * n33 * n42 + n22 * n31 * n43 - n21 * n32 * n43) * detInv)
    (t12 m * detInv)
    ((n13 * n34 * n41 - n14 * n33 * n41 + n14 * n31 * n43
      - n11 * n34 * n43 - n13 * n31 * n44 + n11 * n33 * n44) * detInv)
    ((n14 * n32 * n41 - n12 * n34 * n41 - n14 * n31 * n42
      + n11 * n34 * n42 + n12 * n31 * n44 - n11 * n32 * n44) * detInv)
    ((n12 * n33 * n41 - n13 * n32 * n41 + n13 * n31 * n42
      - n11 * n33 * n42 - n12 * n31 * n43 + n11 * n32 * n43) * detInv)
    (t13 m * detInv)
    ((n14 * n23 * n41 - n13 * n24 * n41 - n14 * n21 * n43
      + n11 * n24 * n43 + n13 * n21 * n44 - n11 * n23 * n44) * detInv)
    ((n12 * n24 * n41 - n14 * n22 * n41 + n14 * n21 * n42
      - n11 * n24 * n42 - n12 * n21 * n44 + n11 * n22 * n44) * detInv)
    ((n13 * n22 * n41 - n12 * n23 * n41 - n13 * n21 * n42
      + n11 * n23 * n42 + n12 * n21 * n43 - n11 * n22 * n43) * detInv)
    (t14 m * detInv)
    ((n13 * n24 * n31 - n14 * n23 * n31 + n14 * n21 * n33
      - n11 * n24 * n33 - n13 * n21 * n34 + n11 * n23 * n34) * detInv)
    ((n14 * n22 * n31 - n12 * n24 * n31 - n14 * n21 * n32
      + n11 * n24 * n32 + n12 * n21 * n34 - n11 * n22 * n34) * detInv)
    ((n12 * n23 * n31 - n13 * n22 * n31 + n13 * n21 * n32
      - n11 * n23 * n32 - n12 * n21 * n33 + n11 * n22 * n33) * detInv).

(** [m.setPosition(x, y, z)] replaces the translation component. *)
Definition setPosition (m : Matrix4) (x y z : R) : Matrix4 :=
mkMatrix4 (e0 m) (e1 m) (e2 m) (e3 m) (e4 m) (e5 m) (e6 m) (e7 m)
  (e8 m) (e9 m) (e10 m) (e11 m) x y z (e15 m).

(** [a.multiply(b)], needed only to state what [invert] computes. *)
Definition multiply (a b : Matrix4) : Matrix4 :=
  mkMatrix4
    (e0 a * e0 b + e4 a * e1 b + e8 a * e2 b + e12 a * e3 b)
    (e1 a * e0 b + e5 a * e1 b + e9 a * e2 b + e13 a * e3 b)
    (e2 a * e0 b + e6 a * e1 b + e10 a * e2 b + e14 a * e3 b)
    (e3 a * e0 b + e7 a * e1 b + e11 a * e2 b + e15 a * e3 b)
    (e0 a * e4 b + e4 a * e5 b + e8 a * e6 b + e12 a * e7 b)
    (e1 a * e4 b + e5 a * e5 b + e9 a * e6 b + e13 a * e7 b)
    (e2 a * e4 b + e6 a * e5 b + e10 a * e6 b + e14 a * e7 b)
    (e3 a * e4 b + e7 a * e5 b + e11 a * e6 b + e15 a * e7 b)
    (e0 a * e8 b + e4 a * e9 b + e8 a * e10 b + e12 a * e11 b)
    (e1 a * e8 b + e5 a * e9 b + e9 a * e10 b + e13 a * e11 b)
    (e2 a * e8 b + e6 a * e9 b + e10 a * e10 b + e14 a * e11 b)
    (e3 a * e8 b + e7 a * e9 b + e11 a * e10 b + e15 a * e11 b)
    (e0 a * e12 b + e4 a * e13 b + e8 a * e14 b + e12 a * e15 b)
    (e1 a * e12 b + e5 a * e13 b + e9 a * e14 b + e13 a * e15 b)
    (e2 a * e12 b + e6 a * e13 b + e10 a * e14 b + e14 a * e15 b)
    (e3 a * e12 b + e7 a * e13 b + e11 a * e14 b + e15 a * e15 b).

End Matrix4.

(** [v.applyMatrix4(m)]: the point [v] through [m], with the perspective
    divide. *)
Definition applyMatrix4 (v : Vector3) (m : Matrix4) : Vector3 :=
  let w := 1 / (e3 m * vx v + e7 m * vy v + e11 m * vz v + e15 m) in
  mkVector3 ((e0 m * vx v + e4 m * vy v + e8 m * vz v + e12 m) * w)
            ((e1 m * vx v + e5 m * vy v + e9 m * vz v + e13 m) * w)
            ((e2 m * vx v + e6 m * vy v + e10 m * vz v + e14 m) * w).

(** [v.transformDirection(m)]: the upper-left 3x3 block of [m] applied to
    [v], then [normalize]. *)
Definition transformDirection (v : Vector3) (m : Matrix4) : Vector3 :=
  Vector3.normalize
    (mkVector3 (e0 m * vx v + e4 m * vy v + e8 m * vz v)
               (e1 m * vx v + e5 m * vy v + e9 m * vz v)
               (e2 m * vx v + e6 m * vy v + e10 m * vz v)).

(** ** Sculpting tools and modes *)

Inductive Tool := MOVE | SCULPT | SMOOTH | PINCH.

(** The brush settings a scene receives as props. *)
Record Brush := mkBrush {
  brushSize : R;
  brushStrength : R;
  activeTool : Tool
}.

Definition Tool_eq_dec (a b : Tool) : {a = b} + {a <> b}.
Proof. decide equality. Defined.

Definition Brush_eq_dec (a b : Brush) : {a = b} + {a <> b}.
Proof. decide equality; [apply Tool_eq_dec | apply Req_dec_T | apply Req_dec_T]. Defined.

(** ** Geometry, meshes and loaded objects *)

Record BufferGeometry := mkGeometry {
  position : list Vector3;      (* attributes.position *)
  normals : list Vector3;       (* attributes.normal *)
  index : option (list nat)     (* triangle connectivity, when indexed *)
}.

Record Mesh := mkMesh {
  geometry : option BufferGeometry;
  matrixWorld : Matrix4
}.

#[local] Set Warnings "-register-all".

(** A loaded object: a node that may be a mesh, with its children.
    Materials and the node's own position and scale are not part of the
    mesh data and are left out. *)
Inductive Object3D := Object3D_node (isMesh : option Mesh) (children : list Object3D).

Definition children_of (o : Object3D) : list Object3D :=
  match o with Object3D_node _ cs => cs end.

(** [o.traverse(callback)] visits the node, then its children in order:
    the list of visited nodes, as meshes or not. *)
Fixpoint traverse (o : Object3D) : list (option Mesh) :=
  match o with
  | Object3D_node m cs => m :: concat (map traverse cs)
  end.

(** ** The sculpting loop *)

(** The [switch (activeTool)] of [sculptMesh]: the new [tempVector] of a
    vertex within the brush. [lastMousePosition] is the value the
    enclosing render bound; [mouse] is the shared pointer object. *)
Definition toolEffect (b : Brush) (falloff : R) (localPoint : Vector3)
    (inverseMatrix : Matrix4) (normal : option Vector3)
    (mouse lastMousePosition : Vector2) (tempVector : Vector3) : Vector3 :=
  match activeTool b with
  | SCULPT =>
      match normal with
      | Some n =>
          let tempNormal := transformDirection n inverseMatrix in
          Vector3.addScaledVector tempVector tempNormal
            (brushStrength b * falloff * 0.01)
      | None => tempVector
      end
  | SMOOTH =>
      let smoothFactor := brushStrength b * falloff * 0.01 in
      Vector3.lerp tempVector localPoint smoothFactor
  | PINCH =>
      let dir := Vector3.sub localPoint tempVector in
      Vector3.addScaledVector tempVector dir (brushStrength b * falloff * 0.01)
  | MOVE =>
      let mouseDelta :=
        mkVector2 (x2 mouse - x2 lastMousePosition)
                  (y2 mouse - y2 lastMousePosition) in
      let moveFactor := brushStrength b * falloff * 0.02 in
      mkVector3 (vx tempVector + x2 mouseDelta * moveFactor)
                (vy tempVector - y2 mouseDelta * moveFactor)
                (vz tempVector)
  end.

(** One iteration of the [for] loop, at vertex [i] of the attribute. *)
Definition sculptStep (b : Brush) (localPoint : Vector3)
    (inverseMatrix : Matrix4) (normal : option Vector3)
    (mouse lastMousePosition : Vector2)
    (posAttr : list Vector3) (i : nat) : list Vector3 :=
  match posAttr !! i with
  | None => posAttr
  | Some tempVector =>
      let dist := Vector3.distanceTo tempVector localPoint in
      if Rlt_dec dist (brushSize b) then
        let falloff := 1 - dist / brushSize b in
        <[ i := toolEffect b falloff localPoint inverseMatrix normal
                  mouse lastMousePosition tempVector ]> posAttr
      else posAttr
  end.

(** [for (let i = 0; i < posAttr.count; i++) { ... }], updating the
    attribute in place. *)
Definition sculptLoop (b : Brush) (localPoint : Vector3)
    (inverseMatrix : Matrix4) (normal : option Vector3)
    (mouse lastMousePosition : Vector2)
    (posAttr : list Vector3) : list Vector3 :=
  fold_left
    (sculptStep b localPoint inverseMatrix normal mouse lastMousePosition)
    (seq 0 (length posAttr)) posAttr.

(** What the loop does to a single vertex. *)
Definition sculptVertex (b : Brush) (localPoint : Vector3)
    (inverseMatrix : Matrix4) (normal : option Vector3)
    (mouse lastMousePosition : Vector2) (p : Vector3) : Vector3 :=
  let dist := Vector3.distanceTo p localPoint in
  if Rlt_dec dist (brushSize b) then
    toolEffect b (1 - dist / brushSize b) localPoint inverseMatrix normal
      mouse lastMousePosition p
  else p.

(** ** The scene component *)

(** The state of an [EditableScene]: its hooks, and [mouse], the pointer
    object shared with the renderer. An [originalVertices] snapshot is an
    array of its own: later writes to the position attribute do not
    reach it. *)
Record EditableScene := mkScene {
  meshRef : option Mesh;
  brushPosition : Vector3;
  isModifying : bool;
  lastMousePosition : Vector2;
  originalVertices : option (list Vector3);
  isLoading : bool;
  mouse : Vector2
}.

Definition with_mesh (st : EditableScene) (m : option Mesh) : EditableScene :=
  mkScene m (brushPosition st) (isModifying st) (lastMousePosition st)
    (originalVertices st) (isLoading st) (mouse st).

Definition with_lastMousePosition (st : EditableScene) (p : Vector2) : EditableScene :=
  mkScene (meshRef st) (brushPosition st) (isModifying st) p
    (originalVertices st) (isLoading st) (mouse st).

(** [target.set(source)] on typed arrays: the source overwrites the
    front of the target; a source longer than the target is a
    RangeError ([None]). *)
Definition typedArraySet (target source : list Vector3) : option (list Vector3) :=
  if decide (length source <= length target)%nat
  then Some (source ++ drop (length source) target)
  else None.

Section Scene.

(** [geometry.computeVertexNormals()], as a function of the triangle
    connectivity and the current positions. *)
Variable computeVertexNormals : option (list nat) -> list Vector3 -> list Vector3.

Definition recompute (g : BufferGeometry) : BufferGeometry :=
  mkGeometry (position g) (computeVertexNormals (index g) (position g)) (index g).

(** The body of [sculptMesh] on the geometry of the mesh: the loop over
    the position attribute, then [computeVertexNormals]. *)
Definition sculptGeometry (b : Brush) (lastMousePosition mouse : Vector2)
    (worldMatrix : Matrix4) (point : Vector3) (normal : option Vector3)
    (g : BufferGeometry) : BufferGeometry :=
  let inverseMatrix := Matrix4.invert worldMatrix in
  let localPoint := applyMatrix4 point inverseMatrix in
  recompute
    (mkGeometry
       (sculptLoop b localPoint inverseMatrix normal mouse
          lastMousePosition (position g))
       (normals g) (index g)).

(** [sculptMesh(point, normal)] as created by a render with brush [b]
    and state value [last] for [lastMousePosition]; [st] is the scene
    when it is called. It ends with
    [setLastMousePosition(new Vector2(mouse.x, mouse.y))]. *)
Definition sculptMesh (b : Brush) (last : Vector2) (st : EditableScene)
    (point : Vector3) (normal : option Vector3) : EditableScene :=
  match meshRef st with
  | None => st
  | Some mesh =>
      match geometry mesh with
      | None => st
      | Some g =>
          let g' := sculptGeometry b last (mouse st) (matrixWorld mesh)
                      point normal g in
          with_lastMousePosition
            (with_mesh st (Some (mkMesh (Some g') (matrixWorld mesh))))
            (mouse st)
      end
  end.

(** [resetMesh()]; [None] is the RangeError of [set]. *)
Definition resetMesh (st : EditableScene) : option EditableScene :=
  match meshRef st, originalVertices st with
  | Some mesh, Some original =>
      match geometry mesh with
      | None => Some st
      | Some g =>
          match typedArraySet (position g) original with
          | None => None
          | Some arr =>
              let g' := recompute (mkGeometry arr (normals g) (index g)) in
              Some (with_mesh st (Some (mkMesh (Some g') (matrixWorld mesh))))
          end
      end
  | _, _ => Some st
  end.

(** The first mesh met by the traversal ([if (!mainMesh) mainMesh = mesh]). *)
Fixpoint firstMesh (visited : list (option Mesh)) : option Mesh :=
  match visited with
  | [] => None
  | Some m :: _ => Some m
  | None :: rest => firstMesh rest
  end.

(** [processLoadedModel(loadedObject)]: the first mesh becomes the
    sculpted mesh; when it has a geometry its normals are computed and
    a copy of its position array is kept in [originalVertices]. *)
Definition processLoadedModel (st : EditableScene) (loadedObject : Object3D)
    : EditableScene :=
  match firstMesh (traverse loadedObject) with
  | None =>
      mkScene (meshRef st) (brushPosition st) (isModifying st)
        (lastMousePosition st) (originalVertices st) false (mouse st)
  | Some mainMesh =>
      match geometry mainMesh with
      | Some g =>
          let g' := recompute g in
          mkScene (Some (mkMesh (Some g') (matrixWorld mainMesh)))
            (brushPosition st) (isModifying st) (lastMousePosition st)
            (Some (position g')) false (mouse st)
      | None =>
          mkScene (Some mainMesh) (brushPosition st) (isModifying st)
            (lastMousePosition st) (originalVertices st) false (mouse st)
      end
  end.

End Scene.

(** ** Pointer handling *)

Record DOMRect := mkRect { left : R; top : R; width : R; height : R }.

(** A ray-cast hit: its world-space point and [face?.normal]. *)
Record Intersection := mkIntersection {
  point : Vector3;
  face_normal : option Vector3
}.

Inductive PointerEvent :=
| pointermove (clientX clientY : R) (rect : DOMRect) (intersects : list Intersection)
| pointerdown (button : nat)
| pointerup
| pointerleave.

(** The values a render of the component binds and its closures see:
    the props and the state values read by the handlers and by
    [sculptMesh]. *)
Record Render := mkRender {
  r_brush : Brush;
  r_isModifying : bool;
  r_lastMousePosition : Vector2
}.

Definition render (b : Brush) (st : EditableScene) : Render :=
  mkRender b (isModifying st) (lastMousePosition st).

Section Handlers.

Variable computeVertexNormals : option (list nat) -> list Vector3 -> list Vector3.

Definition handlePointerMove (r : Render) (st : EditableScene)
    (clientX clientY : R) (rect : DOMRect) (intersects : list Intersection)
    : EditableScene :=
  let mouse' :=
    mkVector2 (((clientX - left rect) / width rect) * 2 - 1)
              (- ((clientY - top rect) / height rect) * 2 + 1) in
  let st1 :=
    mkScene (meshRef st) (brushPosition st) (isModifying st)
      (lastMousePosition st) (originalVertices st) (isLoading st) mouse' in
  match intersects with
  | [] => st1
  | intersection :: _ =>
      let st2 :=
        mkScene (meshRef st1) (point intersection) (isModifying st1)
          (lastMousePosition st1) (originalVertices st1) (isLoading st1)
          (mouse st1) in
      if r_isModifying r then
        sculptMesh computeVertexNormals (r_brush r) (r_lastMousePosition r)
          st2 (point intersection) (face_normal intersection)
      else st2
  end.

Definition handlePointerDown (st : EditableScene) (button : nat) : EditableScene :=
  match button with
  | O =>
      mkScene (meshRef st) (brushPosition st) true (mouse st)
        (originalVertices st) (isLoading st) (mouse st)
  | _ => st
  end.

Definition handlePointerUp (st : EditableScene) : EditableScene :=
  mkScene (meshRef st) (brushPosition st) false (lastMousePosition st)
    (originalVertices st) (isLoading st) (mouse st).

(** A mounted scene: its state and the render whose effect registered
    the pointer listeners now on the canvas (none without a mesh). *)
Record Viewer := mkViewer {
  scene : EditableScene;
  listeners : option Render
}.

Definition mount (b : Brush) (st : EditableScene) : Viewer :=
  mkViewer st (match meshRef st with Some _ => Some (render b st) | None => None end).

(** One pointer event on the canvas, received while the props are [b].
    The listeners in place are those of the last render whose effect
    ran: the effect runs again, and registers the listeners of the
    current render, only when one of its dependencies
    [[camera, raycaster, mouse, gl, isModifying, activeTool, brushSize,
    brushStrength, meshRef]] has changed. So a change of the props
    before the event has replaced the listeners; the event's own state
    updates replace them only if they change [isModifying]
    ([lastMousePosition] is not a dependency, and pointer events do not
    change [meshRef]). *)
Definition dispatch (v : Viewer) (step : Brush * PointerEvent) : Viewer :=
  let (b, ev) := step in
  match listeners v with
  | None => v
  | Some r0 =>
      let r := if Brush_eq_dec b (r_brush r0) then r0 else render b (scene v) in
      let st' :=
        match ev with
        | pointermove cx cy rect hits => handlePointerMove r (scene v) cx cy rect hits
        | pointerdown button => handlePointerDown (scene v) button
        | pointerup | pointerleave => handlePointerUp (scene v)
        end in
      mkViewer st'
        (if Bool.eqb (isModifying st') (r_isModifying r)
         then Some r else Some (render b st'))
  end.

Definition run (v : Viewer) (steps : list (Brush * PointerEvent)) : Viewer :=
  fold_left dispatch steps v.

End Handlers.

(** ** The uploader's validation *)

Inductive UploadResult :=
| onModelLoaded (model : Object3D)
| onError (message : String.string).

Definition isValidGeometry (child : option Mesh) : bool :=
  match child with
  | Some m => match geometry m with Some _ => true | None => false end
  | None => false
  end.

(** [validateAndProcessModel(model)]; the centring and scaling of the
    model touch only its own position and scale. *)
Definition validateAndProcessModel (model : Object3D) : UploadResult :=
  match children_of model with
  | [] => onError "Error processing model: Model contains no meshes"
  | _ :: _ =>
      if existsb isValidGeometry (traverse model)
      then onModelLoaded model
      else onError "Error processing model: Model contains no valid geometry"
  end.

(** ** Observations on a scene *)

Definition sceneGeometry (st : EditableScene) : option BufferGeometry :=
  match meshRef st with
  | Some mesh => geometry mesh
  | None => None
  end.

(** The vertex positions of the sculpted mesh (none without a mesh). *)
Definition scenePositions (st : EditableScene) : list Vector3 :=
  match sceneGeometry st with
  | Some g => position g
  | None => []
  end.

(** [inverseMatrix] and [localPoint] as [sculptMesh] computes them. *)
Definition inverseMatrixOf (st : EditableScene) : Matrix4 :=
  match meshRef st with
  | Some mesh => Matrix4.invert (matrixWorld mesh)
  | None => Matrix4.identity
  end.

Definition localPointOf (st : EditableScene) (point : Vector3) : Vector3 :=
  applyMatrix4 point (inverseMatrixOf st).

(** [q] lies on the segment from [p] to [c]: a vertex that went from [p]
    to [q] moved toward [c] without passing it. *)
Definition notPast (p c q : Vector3) : Prop :=
  exists t : R, 0 <= t <= 1 /\ q = Vector3.lerp p c t.

(** The displacement magnitude of vertex [i] between two position
    arrays: the distance from its old to its new position. *)
Definition displacement (before after : list Vector3) (i : nat) : R :=
  match before !! i, after !! i with
  | Some p, Some q => Vector3.distanceTo q p
  | _, _ => 0
  end.

(** The scene holds a mesh loaded with geometry [g]: its snapshot is the
    position array of [g], and its current geometry has as many vertices
    and the same connectivity. *)
Definition tracks (g : BufferGeometry) (st : EditableScene) : Prop :=
  originalVertices st = Some (position g)
  /\ exists (mesh : Mesh) (current : BufferGeometry),
       meshRef st = Some mesh
       /\ geometry mesh = Some current
       /\ length (position current) = length (position g)
       /\ index current = index g.

(** ** A small scene to run the code on *)

Module Example.

(** The normal recomputation for non-indexed geometry: the three
    vertices of each triangle receive its normalised face normal. *)
Fixpoint soupNormals (ps : list Vector3) : list Vector3 :=
  match ps with
  | pA :: pB :: pC :: rest =>
      let cb := Vector3.sub pC pB in
      let ab := Vector3.sub pA pB in
      let n := Vector3.normalize
                 (mkVector3 (vy cb * vz ab - vz cb * vy ab)
                            (vz cb * vx ab - vx cb * vz ab)
                            (vx cb * vy ab - vy cb * vx ab)) in
      n :: n :: n :: soupNormals rest
  | _ => map (fun _ => Vector3.zero) ps
  end.

Definition computeVertexNormals (index : option (list nat)) (ps : list Vector3)
    : list Vector3 := soupNormals ps.

(** One triangle in the plane z = 0, with vertices at distances 0, 1
    and 3 from the origin. *)
Definition triangle : list Vector3 :=
  [mkVector3 0 0 0; mkVector3 1 0 0; mkVector3 0 3 0].

Definition mesh0 : Mesh :=
  mkMesh (Some (mkGeometry triangle [] None)) Matrix4.identity.

Definition scene0 : EditableScene :=
  mkScene (Some mesh0) Vector3.zero false (mkVector2 0 0) (Some triangle)
    false (mkVector2 0 0).

(** A scene before any model is loaded. *)
Definition emptyScene : EditableScene :=
  mkScene None Vector3.zero false (mkVector2 0 0) None true (mkVector2 0 0).

(** A model whose only mesh has no vertex and a triangle with indices
    7, 8, 9. *)
Definition badGeometry : BufferGeometry := mkGeometry [] [] (Some [7; 8; 9]%nat).

Definition badMesh : Mesh := mkMesh (Some badGeometry) Matrix4.identity.

Definition badModel : Object3D :=
  Object3D_node None [Object3D_node (Some badMesh) []].

(** The model made of the example triangle. *)
Definition triangleModel : Object3D :=
  Object3D_node None [Object3D_node (Some mesh0) []].

(** A stroke with the Move tool (radius 0.5, strength 50) on a canvas
    of size 2 by 2: the button goes down with the cursor at (0, 0), the
    cursor moves to (0.1, 0) over the vertex at the origin, then to
    (0.2, 0) over the place that vertex has reached. *)
Definition moveBrush : Brush := mkBrush 0.5 50 MOVE.

Definition canvas : DOMRect := mkRect 0 0 2 2.

Definition moveStroke : list (Brush * PointerEvent) :=
  [ (moveBrush, pointerdown 0);
    (moveBrush, pointermove 1.1 1 canvas [mkIntersection (mkVector3 0 0 0) None]);
    (moveBrush, pointermove 1.2 1 canvas [mkIntersection (mkVector3 0.1 0 0) None]) ].

End Example.

(** ** Further observations and auxiliary notions *)

(** The triangle connectivity and the world matrix of the sculpted mesh. *)
Definition sceneIndex (st : EditableScene) : option (list nat) :=
  match sceneGeometry st with
  | Some g => index g
  | None => None
  end.

Definition sceneMatrix (st : EditableScene) : option Matrix4 :=
  match meshRef st with
  | Some mesh => Some (matrixWorld mesh)
  | None => None
  end.

(** The world matrix of an unrotated object with uniform scale [s] at
    position [t]. *)
Definition scaleTranslation (s : R) (t : Vector3) : Matrix4 :=
  mkMatrix4 s 0 0 0  0 s 0 0  0 0 s 0  (vx t) (vy t) (vz t) 1.

(** The largest distance one call can move a vertex, by tool, for a
    cursor delta of length [delta]. *)
Definition stepBound (b : Brush) (delta : R) : R :=
  match activeTool b with
  | SCULPT => Rabs (brushStrength b) * 0.01
  | SMOOTH | PINCH => Rabs (brushStrength b) * 0.01 * (brushSize b / 4)
  | MOVE => Rabs (brushStrength b) * 0.02 * delta
  end.

(** The length of a cursor delta. *)
Definition length2 (dx dy : R) : R := sqrt (dx * dx + dy * dy).

(** ** Notions about pointer sessions *)

(** The registered listeners agree with the scene on the stroke flag. *)
Definition synced (v : Viewer) : Prop :=
  forall r : Render, listeners v = Some r -> r_isModifying r = isModifying (scene v).

(** A step that is not a press of the left button. *)
Definition notLeftPress (step : Brush * PointerEvent) : Prop :=
  snd step <> pointerdown 0.

(** A pointer move received while the props are [b]. *)
Definition isMoveWith (b : Brush) (step : Brush * PointerEvent) : Prop :=
  fst step = b
  /\ exists (cx cy : R) (rect : DOMRect) (hits : list Intersection),
       snd step = pointermove cx cy rect hits.

(** ** File names and URLs

    File names and URLs are strings of ASCII characters. *)

(** [c.toLowerCase()] for one character. *)
Definition toLowerAscii (c : Ascii.ascii) : Ascii.ascii :=
  let n := Ascii.nat_of_ascii c in
  if ((65 <=? n) && (n <=? 90))%nat then Ascii.ascii_of_nat (n + 32) else c.

Fixpoint toLowerCase (s : String.string) : String.string :=
  match s with
  | EmptyString => EmptyString
  | String c rest => String (toLowerAscii c) (toLowerCase rest)
  end.

(** [s.split(sep)] for a one-character separator: the pieces between the
    separators, in order; never the empty array. *)
Fixpoint split (sep : Ascii.ascii) (s : String.string) : list String.string :=
  match s with
  | EmptyString => [EmptyString]
  | String c rest =>
      if Ascii.eqb c sep then EmptyString :: split sep rest
      else
        match split sep rest with
        | seg :: segs => String c seg :: segs
        | [] => [String c EmptyString]
        end
  end.

(** [array.pop()]: the last element, [None] (undefined) on the empty
    array. *)
Fixpoint pop (l : list String.string) : option String.string :=
  match l with
  | [] => None
  | [x] => Some x
  | _ :: rest => pop rest
  end.

(** Whether the character [c] occurs in [s]. *)
Fixpoint contains (c : Ascii.ascii) (s : String.string) : bool :=
  match s with
  | EmptyString => false
  | String c' rest => Ascii.eqb c' c || contains c rest
  end.

(** [array.join(sep)] for a one-character separator. *)
Fixpoint join (sep : Ascii.ascii) (l : list String.string) : String.string :=
  match l with
  | [] => EmptyString
  | [x] => x
  | x :: rest => String.append x (String sep (join sep rest))
  end.

(** [name.split('.').pop()?.toLowerCase()] *)
Definition fileExtension (name : String.string) : option String.string :=
  option_map toLowerCase (pop (split "."%char name)).

(** The uploader's table of formats and [Object.values(...).flat()]. *)
Definition SUPPORTED_FORMATS : list (String.string * list String.string) :=
  [ ("model/obj"%string, [".obj"%string]);
    ("application/octet-stream"%string, [".obj"%string]) ].

Definition supportedExtensions : list String.string :=
  concat (map snd SUPPORTED_FORMATS).

(** The two messages of [validateFile]: "Invalid file. Could not
    determine file extension." and "Unsupported file format ...", which
    quotes the extension. *)
Inductive FileError :=
| InvalidFile
| UnsupportedFormat (extension : String.string).

(** [validateFile(file)] on the file's name; [None] is the [null] of an
    accepted file. *)
Definition validateFile (name : String.string) : option FileError :=
  match fileExtension name with
  | None => Some InvalidFile
  | Some extension =>
      if String.eqb extension EmptyString then Some InvalidFile
      else if existsb (String.eqb (String "."%char extension)) supportedExtensions
           then None
           else Some (UnsupportedFormat extension)
  end.

(** The loader the scene's effect picks for a model URL. *)
Inductive LoaderKind := OBJLoader | GLTFLoader.

Definition loaderFor (modelUrl : String.string) : LoaderKind :=
  match fileExtension modelUrl with
  | Some extension =>
      if String.eqb extension "obj"%string then OBJLoader else GLTFLoader
  | None => GLTFLoader
  end.

(** ** The scene's loading effect *)

(** What the loader reports: the loaded object, or an error. *)
Inductive LoadOutcome :=
| loadSucceeded (loadedObject : Object3D)
| loadFailed.

(** The synchronous part of the effect for a non-empty [modelUrl], on the
    component's state: [setIsLoading(true)] and, when there is a mesh,
    [setMeshRef(null)] and [setOriginalVertices(null)]. The call
    [scene.remove(meshRef)] acts on the engine's scene graph, which is
    not part of this state (it is given the mesh, where [scene.add] was
    given the loaded root). *)
Definition beginLoad (st : EditableScene) : EditableScene :=
  match meshRef st with
  | Some _ =>
      mkScene None (brushPosition st) (isModifying st) (lastMousePosition st)
        None true (mouse st)
  | None =>
      mkScene None (brushPosition st) (isModifying st) (lastMousePosition st)
        (originalVertices st) true (mouse st)
  end.

Section Loading.

Variable computeVertexNormals : option (list nat) -> list Vector3 -> list Vector3.

(** The effect on [modelUrl] run to the end of the load: nothing for a
    missing or empty URL; otherwise [beginLoad], then
    [processLoadedModel] on success and [setIsLoading(false)] on error. *)
Definition modelUrlEffect (modelUrl : option String.string)
    (outcome : LoadOutcome) (st : EditableScene) : EditableScene :=
  match modelUrl with
  | None => st
  | Some url =>
      if String.eqb url EmptyString then st
      else
        match outcome with
        | loadSucceeded loadedObject =>
            processLoadedModel computeVertexNormals (beginLoad st) loadedObject
        | loadFailed =>
            let st1 := beginLoad st in
            mkScene (meshRef st1) (brushPosition st1) (isModifying st1)
              (lastMousePosition st1) (originalVertices st1) false (mouse st1)
        end
  end.

End Loading.

(** ** Centring and scaling a loaded model *)

(** An axis-aligned box, as [Box3]. *)
Record Box3 := mkBox3 { boxMin : Vector3; boxMax : Vector3 }.

Module Box3.

(** [box.isEmpty()]: the maximum is below the minimum on some axis. *)
Definition isEmpty (box : Box3) : bool :=
  if Rlt_dec (vx (boxMax box)) (vx (boxMin box)) then true
  else if Rlt_dec (vy (boxMax box)) (vy (boxMin box)) then true
  else if Rlt_dec (vz (boxMax box)) (vz (boxMin box)) then true
  else false.

(** [box.getCenter(target)] *)
Definition getCenter (box : Box3) : Vector3 :=
  if isEmpty box then Vector3.zero
  else Vector3.multiplyScalar
         (mkVector3 (vx (boxMin box) + vx (boxMax box))
                    (vy (boxMin box) + vy (boxMax box))
                    (vz (boxMin box) + vz (boxMax box))) 0.5.

(** [box.getSize(target)] *)
Definition getSize (box : Box3) : Vector3 :=
  if isEmpty box then Vector3.zero
  else Vector3.sub (boxMax box) (boxMin box).

End Box3.

(** [Math.max(size.x, size.y, size.z)] *)
Definition maxDimension (size : Vector3) : R :=
  Rmax (Rmax (vx size) (vy size)) (vz size).

(** The position and the scale of an object that is not rotated. *)
Record Placement := mkPlacement { placePosition : Vector3; placeScale : Vector3 }.

Definition unplaced : Placement :=
  mkPlacement Vector3.zero (mkVector3 1 1 1).

(** Where an unrotated object puts a point of its own space: the point
    scaled, then moved by the position. *)
Definition place (o : Placement) (p : Vector3) : Vector3 :=
  mkVector3 (vx (placePosition o) + vx (placeScale o) * vx p)
            (vy (placePosition o) + vy (placeScale o) * vy p)
            (vz (placePosition o) + vz (placeScale o) * vz p).

(** The box spanned by the images of the two corners. *)
Definition placeBox (f : Vector3 -> Vector3) (box : Box3) : Box3 :=
  mkBox3 (f (boxMin box)) (f (boxMax box)).

(** The scene's [processLoadedModel]:
    [loadedObject.position.sub(center)], then
    [loadedObject.scale.set(scale, scale, scale)] with
    [scale = 2 / maxDimension]. *)
Definition centerAndScale (box : Box3) (loadedObject : Placement) : Placement :=
  let center := Box3.getCenter box in
  let size := Box3.getSize box in
  let position' := Vector3.sub (placePosition loadedObject) center in
  let scale := 2 / maxDimension size in
  mkPlacement position' (mkVector3 scale scale scale).

(** The uploader's [validateAndProcessModel]: [model.position.sub(center)]
    and [model.scale.multiplyScalar(scale)]. *)
Definition uploaderCenterAndScale (box : Box3) (model : Placement) : Placement :=
  let center := Box3.getCenter box in
  let size := Box3.getSize box in
  let scale := 2 / maxDimension size in
  mkPlacement (Vector3.sub (placePosition model) center)
    (Vector3.multiplyScalar (placeScale model) scale).

(** The second viewer's [processLoadedModel]:
    [scene.scale.set(scale, scale, scale)] with
    [scale = 1.5 / maxDimension], the position reset to the origin and
    then [scene.position.y -= center.y * scale]. *)
Definition scaleAndLowerBy (box : Box3) (scene : Placement) : Placement :=
  let center := Box3.getCenter box in
  let size := Box3.getSize box in
  let scale := 1.5 / maxDimension size in
  mkPlacement (mkVector3 0 (0 - vy center * scale) 0)
    (mkVector3 scale scale scale).

(** The model viewer's effect: the clone is moved by
    [position.set(-center.x, -center.y, -center.z)] and the group that
    holds it is scaled by [scale.setScalar(2 / maxDimension)]. The result
    is the placement of the clone and that of the group. *)
Definition cloneAndGroup (box : Box3) (modelClone group : Placement)
    : Placement * Placement :=
  let center := Box3.getCenter box in
  let size := Box3.getSize box in
  let scale := 2 / maxDimension size in
  (mkPlacement (mkVector3 (- vx center) (- vy center) (- vz center))
     (placeScale modelClone),
   mkPlacement (placePosition group) (mkVector3 scale scale scale)).

(** A box with its minimum below its maximum on every axis. *)
Definition boxOrdered (box : Box3) : Prop :=
  vx (boxMin box) <= vx (boxMax box)
  /\ vy (boxMin box) <= vy (boxMax box)
  /\ vz (boxMin box) <= vz (boxMax box).

(** ** The second editor's page state *)

Definition DEFAULT_MODEL_URL : String.string :=
  "https://vazxmixjsiawhamofees.supabase.co/storage/v1/object/public/models/nose/model.gltf"%string.

(** The state hooks of [NoseEditor]. *)
Record NoseEditor := mkNoseEditor {
  fileUrl : option String.string;
  tool : Tool;
  editorBrushSize : R;
  editorBrushStrength : R;
  editorIsLoading : bool
}.

Definition noseEditorInitial : NoseEditor :=
  mkNoseEditor None SCULPT 0.2 5 false.

(** What the user can do on the page. An upload carries the object URL
    made for the chosen file, if a file was chosen. *)
Inductive UserAction :=
| upload (objectUrl : option String.string)
| loadDefault
| selectTool (t : Tool)
| slideBrushSize (x : R)
| slideBrushStrength (x : R)
| newModel
| exportModel.

(** [handleUpload], [handleLoadDefault] and the inline handlers of the
    buttons and sliders. *)
Definition userAction (a : UserAction) (st : NoseEditor) : NoseEditor :=
  match a with
  | upload None => st
  | upload (Some url) =>
      mkNoseEditor (Some url) (tool st) (editorBrushSize st)
        (editorBrushStrength st) true
  | loadDefault =>
      mkNoseEditor (Some DEFAULT_MODEL_URL) (tool st) (editorBrushSize st)
        (editorBrushStrength st) true
  | selectTool t =>
      mkNoseEditor (fileUrl st) t (editorBrushSize st) (editorBrushStrength st)
        (editorIsLoading st)
  | slideBrushSize x =>
      mkNoseEditor (fileUrl st) (tool st) x (editorBrushStrength st)
        (editorIsLoading st)
  | slideBrushStrength x =>
      mkNoseEditor (fileUrl st) (tool st) (editorBrushSize st) x
        (editorIsLoading st)
  | newModel =>
      mkNoseEditor None (tool st) (editorBrushSize st) (editorBrushStrength st)
        (editorIsLoading st)
  | exportModel => st
  end.

(** [handleModelLoaded], the [onLoaded] callback given to the model. *)
Definition handleModelLoaded (st : NoseEditor) : NoseEditor :=
  mkNoseEditor (fileUrl st) (tool st) (editorBrushSize st)
    (editorBrushStrength st) false.

(** Whether the page renders the sculptable model: the branch
    [fileUrl ? ... : ...] with a truthy URL, and inside the canvas the
    branch [isLoading ? placeholder : <SculptableModel/>] with
    [isLoading] false. *)
Definition rendersModel (st : NoseEditor) : bool :=
  match fileUrl st with
  | Some url => negb (String.eqb url EmptyString) && negb (editorIsLoading st)
  | None => false
  end.

(** The page together with the fact that a sculptable model has been
    mounted at some time (only such a model can call [onLoaded]). *)
Record NosePage := mkNosePage {
  editor : NoseEditor;
  modelMounted : bool
}.

Definition nosePageInitial : NosePage :=
  mkNosePage noseEditorInitial (rendersModel noseEditorInitial).

Inductive pageStep : NosePage -> NosePage -> Prop :=
| step_user (a : UserAction) (page : NosePage) :
    pageStep page
      (mkNosePage (userAction a (editor page))
         (modelMounted page || rendersModel (userAction a (editor page))))
| step_loaded (page : NosePage) :
    modelMounted page = true ->
    pageStep page
      (mkNosePage (handleModelLoaded (editor page))
         (modelMounted page || rendersModel (handleModelLoaded (editor page)))).

Inductive pageReachable : NosePage -> Prop :=
| reach_initial : pageReachable nosePageInitial
| reach_step (page page' : NosePage) :
    pageReachable page -> pageStep page page' -> pageReachable page'.

(** ** The second viewer: every mesh of the loaded scene *)

(** The state of a [SculptableModel] that the load, the sculpting and the
    reset use: the nodes of the loaded scene in the order of [traverse]
    (a node that is no mesh is [None]), the [originalVertices] map from
    meshes to snapshots, a mesh being named by its place in that order,
    and the mesh [pointerMesh] refers to. *)
Record SculptableModel := mkSculptable {
  loadedScene : option (list (option Mesh));
  snapshots : gmap nat (list Vector3);
  pointerMesh : option nat
}.

Definition sculptableInitial : SculptableModel :=
  mkSculptable None ∅ None.

Section SecondViewer.

Variable computeVertexNormals : option (list nat) -> list Vector3 -> list Vector3.

(** The second traversal of the second viewer's [processLoadedModel],
    from the node of rank [i] on: each mesh gets its normals computed and
    a copy of its position array stored in the map, and becomes the
    pointer mesh. A mesh without geometry makes [computeBoundingBox]
    raise a TypeError ([None]). *)
Fixpoint storeMeshes (i : nat) (nodes : list (option Mesh))
    (snap : gmap nat (list Vector3)) (pointer : option nat)
    : option (list (option Mesh) * gmap nat (list Vector3) * option nat) :=
  match nodes with
  | [] => Some ([], snap, pointer)
  | None :: rest =>
      match storeMeshes (S i) rest snap pointer with
      | Some (nodes', snap', pointer') => Some (None :: nodes', snap', pointer')
      | None => None
      end
  | Some mesh :: rest =>
      match geometry mesh with
      | None => None
      | Some g =>
          let g' := recompute computeVertexNormals g in
          match storeMeshes (S i) rest (<[ i := position g' ]> snap) (Some i) with
          | Some (nodes', snap', pointer') =>
              Some (Some (mkMesh (Some g') (matrixWorld mesh)) :: nodes',
                    snap', pointer')
          | None => None
          end
      end
  end.

(** The second viewer's [processLoadedModel(scene)], ending with
    [setLoadedScene(scene)]. *)
Definition processLoadedScene (st : SculptableModel) (scene : Object3D)
    : option SculptableModel :=
  match storeMeshes 0 (traverse scene) (snapshots st) (pointerMesh st) with
  | Some (nodes, snap, pointer) => Some (mkSculptable (Some nodes) snap pointer)
  | None => None
  end.

(** The arguments of one call [sculptMesh(mesh, point, normal)] of the
    second viewer: the props and cursor values its render bound, the rank
    of the mesh that was hit, the hit point and the face normal. *)
Record SculptCall := mkSculptCall {
  callBrush : Brush;
  callLast : Vector2;
  callMouse : Vector2;
  callMesh : nat;
  callPoint : Vector3;
  callNormal : option Vector3
}.

(** [sculptMesh(mesh, point, normal)] on the mesh of rank [callMesh]. *)
Definition sculptMeshOf (st : SculptableModel) (call : SculptCall) : SculptableModel :=
  match loadedScene st with
  | None => st
  | Some nodes =>
      match nodes !! callMesh call with
      | Some (Some mesh) =>
          match geometry mesh with
          | Some g =>
              let g' := sculptGeometry computeVertexNormals (callBrush call)
                          (callLast call) (callMouse call) (matrixWorld mesh)
                          (callPoint call) (callNormal call) g in
              mkSculptable
                (Some (<[ callMesh call := Some (mkMesh (Some g') (matrixWorld mesh)) ]>
                         nodes))
                (snapshots st) (pointerMesh st)
          | None => st
          end
      | _ => st
      end
  end.

(** The traversal of [resetModel], from the node of rank [i] on; [None]
    is an exception (the RangeError of [set], or a mesh without
    geometry). *)
Fixpoint resetNodes (i : nat) (nodes : list (option Mesh))
    (snap : gmap nat (list Vector3)) : option (list (option Mesh)) :=
  match nodes with
  | [] => Some []
  | None :: rest =>
      match resetNodes (S i) rest snap with
      | Some rest' => Some (None :: rest')
      | None => None
      end
  | Some mesh :: rest =>
      match snap !! i with
      | None =>
          match resetNodes (S i) rest snap with
          | Some rest' => Some (Some mesh :: rest')
          | None => None
          end
      | Some original =>
          match geometry mesh with
          | None => None
          | Some g =>
              match typedArraySet (position g) original with
              | None => None
              | Some arr =>
                  let g' := recompute computeVertexNormals
                              (mkGeometry arr (normals g) (index g)) in
                  match resetNodes (S i) rest snap with
                  | Some rest' =>
                      Some (Some (mkMesh (Some g') (matrixWorld mesh)) :: rest')
                  | None => None
                  end
              end
          end
      end
  end.

(** [resetModel()] *)
Definition resetModel (st : SculptableModel) : option SculptableModel :=
  match loadedScene st with
  | None => Some st
  | Some nodes =>
      match resetNodes 0 nodes (snapshots st) with
      | Some nodes' => Some (mkSculptable (Some nodes') (snapshots st) (pointerMesh st))
      | None => None
      end
  end.

End SecondViewer.

(** A node after sculpting, compared with the node as loaded: still no
    mesh, or a mesh with the same world matrix and connectivity and as
    many vertices. *)
Definition sameShape (loaded current : option Mesh) : Prop :=
  match loaded, current with
  | None, None => True
  | Some m0, Some m =>
      matrixWorld m = matrixWorld m0
      /\ exists g0 g : BufferGeometry,
           geometry m0 = Some g0 /\ geometry m = Some g
           /\ index g = index g0
           /\ length (position g) = length (position g0)
  | _, _ => False
  end.

(** A node as the load leaves it: a mesh has its geometry, fresh normals
    and, under its rank [i], a snapshot equal to its positions. *)
Definition loadedNode
    (computeVertexNormals : option (list nat) -> list Vector3 -> list Vector3)
    (snap : gmap nat (list Vector3)) (i : nat) (node : option Mesh) : Prop :=
  match node with
  | None => True
  | Some m0 =>
      exists g0 : BufferGeometry,
        geometry m0 = Some g0
        /\ normals g0 = computeVertexNormals (index g0) (position g0)
        /\ snap !! i = Some (position g0)
  end.

(** ** Loading, on what a loader can deliver *)

(** A geometry as a loader delivers it: [attributes.position] is
    undefined when the file carries no vertex data. *)
Record LoadedGeometry := mkLoadedGeometry {
  attributes_position : option (list Vector3);
  attributes_normal : list Vector3;
  loadedIndex : option (list nat)
}.

Record LoadedMesh := mkLoadedMesh {
  loadedGeometry : option LoadedGeometry;
  loadedMatrixWorld : Matrix4
}.

Inductive LoadedObject3D :=
  LoadedObject3D_node (isMesh : option LoadedMesh) (children : list LoadedObject3D).

(** How a call ends: it returns, or it throws a TypeError; in both cases
    with the component's state as the call leaves it. *)
Inductive Completion :=
| Returns (st : EditableScene)
| ThrowsTypeError (st : EditableScene).

Module Loaded.

Fixpoint traverse (o : LoadedObject3D) : list (option LoadedMesh) :=
  match o with
  | LoadedObject3D_node m cs => m :: concat (map traverse cs)
  end.

(** [if (!mainMesh) mainMesh = mesh] *)
Fixpoint firstMesh (visited : list (option LoadedMesh)) : option LoadedMesh :=
  match visited with
  | [] => None
  | Some m :: _ => Some m
  | None :: rest => firstMesh rest
  end.

Section Load.

Variable computeVertexNormals : option (list nat) -> list Vector3 -> list Vector3.

(** [processLoadedModel(loadedObject)] of the scene. For a geometry
    without position attribute, [computeVertexNormals()] does nothing
    and [mainMesh.geometry.attributes.position.array] reads a property
    of [undefined]: a TypeError, raised before [setOriginalVertices],
    [setMeshRef] and [setIsLoading(false)]. *)
Definition processLoadedModel (st : EditableScene) (loadedObject : LoadedObject3D)
    : Completion :=
  match firstMesh (traverse loadedObject) with
  | None =>
      Returns (mkScene (meshRef st) (brushPosition st) (isModifying st)
                 (lastMousePosition st) (originalVertices st) false (mouse st))
  | Some mainMesh =>
      match loadedGeometry mainMesh with
      | Some g =>
          match attributes_position g with
          | None => ThrowsTypeError st
          | Some positions =>
              let g' := recompute computeVertexNormals
                          (mkGeometry positions (attributes_normal g) (loadedIndex g)) in
              Returns (mkScene (Some (mkMesh (Some g') (loadedMatrixWorld mainMesh)))
                         (brushPosition st) (isModifying st) (lastMousePosition st)
                         (Some (position g')) false (mouse st))
          end
      | None =>
          Returns (mkScene (Some (mkMesh None (loadedMatrixWorld mainMesh)))
                     (brushPosition st) (isModifying st) (lastMousePosition st)
                     (originalVertices st) false (mouse st))
      end
  end.

End Load.

(** A loaded object all of whose geometries have a position attribute,
    as a delivered object. *)
Definition ofMesh (m : Mesh) : LoadedMesh :=
  mkLoadedMesh
    (option_map (fun g => mkLoadedGeometry (Some (position g)) (normals g) (index g))
       (geometry m))
    (matrixWorld m).

Fixpoint ofObject3D (o : Object3D) : LoadedObject3D :=
  match o with
  | Object3D_node m cs => LoadedObject3D_node (option_map ofMesh m) (map ofObject3D cs)
  end.

End Loaded.

(** ** More scenes to run the code on *)

Module Samples.

(** The example triangle on a mesh with scale 2 placed at (1, 0, 0). *)
Definition scaledMesh : Mesh :=
  mkMesh (Some (mkGeometry Example.triangle [] None))
    (scaleTranslation 2 (mkVector3 1 0 0)).

Definition scaledScene : EditableScene :=
  mkScene (Some scaledMesh) Vector3.zero false (mkVector2 0 0)
    (Some Example.triangle) false (mkVector2 0 0).

(** A triangle with two vertices at distance 1 from the origin. *)
Definition twins : list Vector3 :=
  [mkVector3 1 0 0; mkVector3 0 1 0; mkVector3 0 0 3].

Definition twinScene : EditableScene :=
  mkScene (Some (mkMesh (Some (mkGeometry twins [] None)) Matrix4.identity))
    Vector3.zero false (mkVector2 0 0) (Some twins) false (mkVector2 0 0).

(** A delivered model with two meshes under a root that is no mesh: the
    example triangle, inside a group, and after it a mesh with a single
    vertex. *)
Definition triangleMesh : LoadedMesh :=
  mkLoadedMesh (Some (mkLoadedGeometry (Some Example.triangle) [] None))
    Matrix4.identity.

Definition pointMesh : LoadedMesh :=
  mkLoadedMesh (Some (mkLoadedGeometry (Some [mkVector3 5 5 5]) [] None))
    Matrix4.identity.

Definition pairModel : LoadedObject3D :=
  LoadedObject3D_node None
    [ LoadedObject3D_node None [LoadedObject3D_node (Some triangleMesh) []];
      LoadedObject3D_node (Some pointMesh) [] ].

(** A model whose first mesh has a geometry without position attribute. *)
Definition bareModel : LoadedObject3D :=
  LoadedObject3D_node None
    [ LoadedObject3D_node
        (Some (mkLoadedMesh (Some (mkLoadedGeometry None [] None)) Matrix4.identity))
        [];
      LoadedObject3D_node (Some triangleMesh) [] ].

(** A Smooth stroke (radius 2, strength 5): the button goes down, then
    the cursor moves over the origin. *)
Definition smoothBrush : Brush := mkBrush 2 5 SMOOTH.

Definition smoothStroke : list (Brush * PointerEvent) :=
  [ (smoothBrush, pointerdown 0);
    (smoothBrush,
     pointermove 1 1 (mkRect 0 0 2 2) [mkIntersection Vector3.zero None]) ].

End Samples.

(** * Properties *)

(** ** The inverse of a world matrix *)

Lemma invert_left (m : Matrix4) :
  Matrix4.determinant m <> 0 ->
  Matrix4.multiply (Matrix4.invert m) m = Matrix4.identity.
Proof.
  intros Hdet. unfold Matrix4.invert.
  destruct (Req_dec_T (Matrix4.determinant m) 0) as [E|_]; [contradiction|].
  destruct m; unfold Matrix4.multiply, Matrix4.identity; cbn [e0 e1 e2 e3 e4 e5 e6 e7 e8 e9 e10 e11 e12 e13 e14 e15].
  unfold Matrix4.determinant, Matrix4.t11, Matrix4.t12, Matrix4.t13, Matrix4.t14 in *;
    cbn [e0 e1 e2 e3 e4 e5 e6 e7 e8 e9 e10 e11 e12 e13 e14 e15] in *.
  f_equal; field; exact Hdet.
Qed.

(** ** The loop, vertex by vertex *)

Section Loop.

Variables (b : Brush) (localPoint : Vector3) (inverseMatrix : Matrix4)
          (normal : option Vector3) (mouse last : Vector2).

Let step := sculptStep b localPoint inverseMatrix normal mouse last.
Let f := sculptVertex b localPoint inverseMatrix normal mouse last.

Lemma sculptStep_at (done todo : list Vector3) (p : Vector3) :
  step (map f done ++ p :: todo) (length done) = map f (done ++ [p]) ++ todo.
Proof.
  unfold step, sculptStep.
  assert (Hlen : length (map f done) = length done) by apply length_map.
  rewrite lookup_app_r by (rewrite Hlen; lia).
  rewrite Hlen, Nat.sub_diag. cbn [lookup list_lookup].
  rewrite map_app. cbn [map]. rewrite <- app_assoc. cbn [app].
  assert (Hf : f p = sculptVertex b localPoint inverseMatrix normal mouse last p)
    by reflexivity.
  rewrite Hf. unfold sculptVertex.
  destruct (Rlt_dec _ _); [|reflexivity].
  rewrite insert_app_r_alt by (rewrite Hlen; lia).
  rewrite Hlen, Nat.sub_diag. reflexivity.
Qed.

Lemma sculptLoop_from (todo done : list Vector3) :
  fold_left step (seq (length done) (length todo)) (map f done ++ todo)
  = map f (done ++ todo).
Proof.
  revert done. induction todo as [|p todo IH]; intros done.
  - cbn [length seq fold_left]. now rewrite !app_nil_r.
  - cbn [length seq fold_left]. rewrite sculptStep_at.
    specialize (IH (done ++ [p])).
    rewrite length_app in IH. cbn [length] in IH.
    replace (length done + 1)%nat with (S (length done)) in IH by lia.
    rewrite IH, <- app_assoc. reflexivity.
Qed.

(** The in-place loop computes [sculptVertex] at every vertex. *)
Lemma sculptLoop_map (posAttr : list Vector3) :
  sculptLoop b localPoint inverseMatrix normal mouse last posAttr
  = map f posAttr.
Proof. exact (sculptLoop_from posAttr []). Qed.

End Loop.

(** ** Arithmetic of the engine's vectors *)

Lemma distanceToSquared_nonneg (a v : Vector3) :
  0 <= Vector3.distanceToSquared a v.
Proof.
  unfold Vector3.distanceToSquared. cbv zeta.
  generalize (vx a - vx v) (vy a - vy v) (vz a - vz v). intros dx dy dz.
  pose proof (Rle_0_sqr dx). pose proof (Rle_0_sqr dy). pose proof (Rle_0_sqr dz).
  unfold Rsqr in *. lra.
Qed.

Lemma distanceTo_nonneg (a v : Vector3) : 0 <= Vector3.distanceTo a v.
Proof. apply sqrt_pos. Qed.

Lemma distanceTo_self (a : Vector3) : Vector3.distanceTo a a = 0.
Proof.
  unfold Vector3.distanceTo, Vector3.distanceToSquared. cbv zeta.
  replace (_ + _ + _) with 0 by ring. apply sqrt_0.
Qed.

Lemma invert_identity : Matrix4.invert Matrix4.identity = Matrix4.identity.
Proof.
  unfold Matrix4.invert.
  assert (Hdet : Matrix4.determinant Matrix4.identity = 1).
  { unfold Matrix4.determinant, Matrix4.t11, Matrix4.t12, Matrix4.t13,
      Matrix4.t14, Matrix4.identity. cbn [e0 e1 e2 e3 e4 e5 e6 e7 e8 e9 e10
      e11 e12 e13 e14 e15]. ring. }
  cbv zeta. rewrite Hdet.
  destruct (Req_dec_T 1 0) as [E|_]; [lra|].
  unfold Matrix4.identity, Matrix4.t11, Matrix4.t12, Matrix4.t13, Matrix4.t14.
  cbn [e0 e1 e2 e3 e4 e5 e6 e7 e8 e9 e10 e11 e12 e13 e14 e15].
  f_equal; field.
Qed.

Lemma applyMatrix4_identity (v : Vector3) : applyMatrix4 v Matrix4.identity = v.
Proof.
  destruct v as [x y z]. unfold applyMatrix4, Matrix4.identity.
  cbn [e0 e1 e2 e3 e4 e5 e6 e7 e8 e9 e10 e11 e12 e13 e14 e15 vx vy vz].
  f_equal; field.
Qed.

(** ** [sculptMesh] on the positions *)

Lemma lookup_map {A B : Type} (f : A -> B) (l : list A) (i : nat) :
  map f l !! i = option_map f (l !! i).
Proof.
  revert i. induction l as [|a l IH]; intros [|i]; cbn; auto.
Qed.

Section SculptFacts.

Variable computeVertexNormals : option (list nat) -> list Vector3 -> list Vector3.

Lemma sculptMesh_positions b last st point normal :
  scenePositions (sculptMesh computeVertexNormals b last st point normal)
  = map (sculptVertex b (localPointOf st point) (inverseMatrixOf st) normal
           (mouse st) last)
        (scenePositions st).
Proof.
  unfold sculptMesh, scenePositions, sceneGeometry, localPointOf, inverseMatrixOf.
  destruct (meshRef st) as [mesh|] eqn:Hm; [|now rewrite Hm].
  destruct (geometry mesh) as [g|] eqn:Hg; [|now rewrite Hm, Hg].
  cbn. now rewrite sculptLoop_map.
Qed.

Lemma sculptMesh_lookup b last st point normal i :
  scenePositions (sculptMesh computeVertexNormals b last st point normal) !! i
  = option_map
      (sculptVertex b (localPointOf st point) (inverseMatrixOf st) normal
         (mouse st) last)
      (scenePositions st !! i).
Proof. rewrite sculptMesh_positions. apply lookup_map. Qed.

Lemma sculptMesh_length b last st point normal :
  length (scenePositions (sculptMesh computeVertexNormals b last st point normal))
  = length (scenePositions st).
Proof. rewrite sculptMesh_positions. apply length_map. Qed.

End SculptFacts.

Lemma distanceTo_eq (a v : Vector3) (d : R) :
  0 <= d -> Vector3.distanceToSquared a v = d * d -> Vector3.distanceTo a v = d.
Proof.
  intros Hd Hsq. unfold Vector3.distanceTo. rewrite Hsq. now apply sqrt_square.
Qed.

Lemma invert_scaleTranslation (s : R) (t : Vector3) :
  s <> 0 ->
  Matrix4.invert (scaleTranslation s t)
  = scaleTranslation (/ s)
      (mkVector3 (- vx t / s) (- vy t / s) (- vz t / s)).
Proof.
  intros Hs. unfold Matrix4.invert.
  assert (Hdet : Matrix4.determinant (scaleTranslation s t) = s * s * s).
  { unfold Matrix4.determinant, Matrix4.t11, Matrix4.t12, Matrix4.t13,
      Matrix4.t14, scaleTranslation.
    cbn [e0 e1 e2 e3 e4 e5 e6 e7 e8 e9 e10 e11 e12 e13 e14 e15]. ring. }
  cbv zeta. rewrite Hdet.
  assert (Hs3 : s * s * s <> 0) by (repeat apply Rmult_integral_contrapositive_currified; exact Hs).
  destruct (Req_dec_T (s * s * s) 0) as [E|_]; [contradiction|].
  unfold scaleTranslation, Matrix4.t11, Matrix4.t12, Matrix4.t13, Matrix4.t14.
  cbn [e0 e1 e2 e3 e4 e5 e6 e7 e8 e9 e10 e11 e12 e13 e14 e15 vx vy vz].
  f_equal; field; exact Hs.
Qed.

(** ** Facts about the example scenes *)

Lemma scaled_inverse :
  inverseMatrixOf Samples.scaledScene
  = scaleTranslation (/ 2) (mkVector3 (- 1 / 2) (- 0 / 2) (- 0 / 2)).
Proof. apply (invert_scaleTranslation 2 (mkVector3 1 0 0)). lra. Qed.

Lemma scaled_local :
  localPointOf Samples.scaledScene (mkVector3 1 0 0) = Vector3.zero.
Proof.
  unfold localPointOf. rewrite scaled_inverse.
  unfold applyMatrix4, scaleTranslation, Vector3.zero.
  cbn [e0 e1 e2 e3 e4 e5 e6 e7 e8 e9 e10 e11 e12 e13 e14 e15 vx vy vz].
  f_equal; field.
Qed.

Lemma example_inverse : inverseMatrixOf Example.scene0 = Matrix4.identity.
Proof. exact invert_identity. Defined.

Lemma example_local (point : Vector3) : localPointOf Example.scene0 point = point.
Proof.
  unfold localPointOf. rewrite example_inverse. apply applyMatrix4_identity.
Defined.

Lemma example_dist0 : Vector3.distanceTo (mkVector3 0 0 0) Vector3.zero = 0.
Proof. apply distanceTo_self. Defined.

Lemma example_dist1 : Vector3.distanceTo (mkVector3 1 0 0) Vector3.zero = 1.
Proof.
  apply distanceTo_eq; [lra|].
  unfold Vector3.distanceToSquared, Vector3.zero. cbn [vx vy vz]. ring.
Defined.

Lemma example_dist3 : Vector3.distanceTo (mkVector3 0 3 0) Vector3.zero = 3.
Proof.
  apply distanceTo_eq; [lra|].
  unfold Vector3.distanceToSquared, Vector3.zero. cbn [vx vy vz]. ring.
Defined.

(** ** Locality *)

Lemma sculptMesh_keeps
    (computeVertexNormals : option (list nat) -> list Vector3 -> list Vector3)
    b last st point normal i p :
  scenePositions st !! i = Some p ->
  brushSize b <= Vector3.distanceTo p (localPointOf st point) ->
  scenePositions (sculptMesh computeVertexNormals b last st point normal) !! i
  = Some p.
Proof.
  intros Hp Hfar. rewrite sculptMesh_lookup, Hp. cbn [option_map].
  unfold sculptVertex. destruct (Rlt_dec _ _) as [Hlt|_]; [lra|reflexivity].
Qed.

(** C2. Whatever the tool, a call of [sculptMesh] leaves unchanged every
    vertex whose distance to the local contact point is greater than or
    equal to the brush radius. *)
Theorem sculptMesh_local
    (computeVertexNormals : option (list nat) -> list Vector3 -> list Vector3)
    (b : Brush) (last : Vector2) (st : EditableScene)
    (point : Vector3) (normal : option Vector3) (i : nat) (p : Vector3) :
  scenePositions st !! i = Some p ->
  brushSize b <= Vector3.distanceTo p (localPointOf st point) ->
  scenePositions (sculptMesh computeVertexNormals b last st point normal) !! i
  = Some p.
Proof.
  intros Hp Hfar.
  rewrite sculptMesh_positions, lookup_map, Hp. cbn [option_map]. f_equal.
  unfold sculptVertex.
  destruct (Rlt_dec (Vector3.distanceTo p (localPointOf st point)) (brushSize b))
    as [Hlt|_]; [|reflexivity].
  exfalso. exact (Rlt_not_le _ _ Hlt Hfar).
Qed.

Lemma sculptMesh_local_witness :
  scenePositions
    (sculptMesh Example.computeVertexNormals (mkBrush 2 5 SCULPT) (mkVector2 0 0)
       Example.scene0 Vector3.zero (Some (mkVector3 0 0 1))) !! 2%nat
  = Some (mkVector3 0 3 0).
Proof.
  apply sculptMesh_local.
  - reflexivity.
  - rewrite example_local, example_dist3. cbn [brushSize]. lra.
Defined.

(** ** Sculpt *)

Lemma lengthSq_nonneg (v : Vector3) : 0 <= Vector3.lengthSq v.
Proof.
  unfold Vector3.lengthSq.
  pose proof (Rle_0_sqr (vx v)). pose proof (Rle_0_sqr (vy v)).
  pose proof (Rle_0_sqr (vz v)). unfold Rsqr in *. lra.
Qed.

Lemma length_zero_inv (v : Vector3) : Vector3.length v = 0 -> v = Vector3.zero.
Proof.
  intros H. apply sqrt_eq_0 in H; [|apply lengthSq_nonneg].
  destruct v as [x y z]. unfold Vector3.lengthSq in H. cbn [vx vy vz] in H.
  unfold Vector3.zero.
  pose proof (Rle_0_sqr x). pose proof (Rle_0_sqr y). pose proof (Rle_0_sqr z).
  unfold Rsqr in *.
  assert (x * x = 0) by lra. assert (y * y = 0) by lra. assert (z * z = 0) by lra.
  f_equal; nra.
Qed.

Lemma normalize_length (v : Vector3) :
  Vector3.length v <> 0 -> Vector3.length (Vector3.normalize v) = 1.
Proof.
  intros Hnz. unfold Vector3.normalize.
  destruct (Req_dec_T (Vector3.length v) 0) as [E|_]; [contradiction|].
  set (L := Vector3.length v) in *.
  assert (HL : L * L = Vector3.lengthSq v)
    by (apply sqrt_sqrt, lengthSq_nonneg).
  unfold Vector3.length at 1.
  replace (Vector3.lengthSq (Vector3.divideScalar v L)) with 1; [apply sqrt_1|].
  unfold Vector3.divideScalar, Vector3.multiplyScalar, Vector3.lengthSq in *.
  cbn [vx vy vz].
  transitivity ((vx v * vx v + vy v * vy v + vz v * vz v) * (1 / L) * (1 / L));
    [|ring].
  rewrite <- HL. field. exact Hnz.
Qed.

Lemma normalize_unit_or_zero (v : Vector3) :
  Vector3.length (Vector3.normalize v) = 1 \/ Vector3.normalize v = Vector3.zero.
Proof.
  destruct (Req_dec_T (Vector3.length v) 0) as [E|Hnz].
  - right. apply length_zero_inv in E. subst v.
    unfold Vector3.normalize, Vector3.divideScalar, Vector3.multiplyScalar,
      Vector3.zero. cbn [vx vy vz]. f_equal; ring.
  - left. now apply normalize_length.
Qed.

Lemma transformDirection_coords (n : Vector3) (m : Matrix4) :
  let lx := e0 m * vx n + e4 m * vy n + e8 m * vz n in
  let ly := e1 m * vx n + e5 m * vy n + e9 m * vz n in
  let lz := e2 m * vx n + e6 m * vy n + e10 m * vz n in
  let len := sqrt (lx * lx + ly * ly + lz * lz) in
  (len <> 0 ->
     transformDirection n m = mkVector3 (lx / len) (ly / len) (lz / len)
     /\ lx / len * (lx / len) + ly / len * (ly / len) + lz / len * (lz / len) = 1)
  /\ (len = 0 -> transformDirection n m = Vector3.zero).
Proof.
  intros lx ly lz len.
  assert (Hlen : Vector3.length (mkVector3 lx ly lz) = len) by reflexivity.
  split.
  - intros Hnz. split.
    + unfold transformDirection. fold lx ly lz. unfold Vector3.normalize.
      rewrite Hlen. destruct (Req_dec_T len 0) as [E|_]; [contradiction|].
      unfold Vector3.divideScalar, Vector3.multiplyScalar. cbn [vx vy vz].
      f_equal; field; exact Hnz.
    + assert (Hsq : len * len = lx * lx + ly * ly + lz * lz).
      { apply sqrt_sqrt. exact (lengthSq_nonneg (mkVector3 lx ly lz)). }
      transitivity ((lx * lx + ly * ly + lz * lz) / (len * len));
        [field; exact Hnz|].
      rewrite <- Hsq. field. exact Hnz.
  - intros Hz. unfold transformDirection. fold lx ly lz.
    rewrite <- Hlen in Hz. apply length_zero_inv in Hz. rewrite Hz.
    unfold Vector3.normalize, Vector3.divideScalar, Vector3.multiplyScalar,
      Vector3.zero. cbn [vx vy vz]. f_equal; ring.
Qed.

(** C1. With the Sculpt tool and a normal [n], [sculptMesh] moves every
    vertex within the brush radius along one and the same direction: the
    upper-left 3x3 block of the inverse world matrix applied to [n] (the
    translation elements 12, 13 and 14 of the matrix take no part),
    divided by its Euclidean length, so that its squared components add
    up to 1. Each coordinate of the vertex grows by that direction's
    coordinate times [brushStrength * falloff * 0.01], where the falloff
    is [1 - dist / brushSize]; the direction is the same for every
    vertex, only the falloff differs. A normal that the 3x3 block sends
    to the zero vector leaves the vertex where it is. *)
Theorem sculpt_displacement
    (computeVertexNormals : option (list nat) -> list Vector3 -> list Vector3)
    (b : Brush) (last : Vector2) (st : EditableScene) (point n : Vector3)
    (i : nat) (p : Vector3) :
  activeTool b = SCULPT ->
  scenePositions st !! i = Some p ->
  Vector3.distanceTo p (localPointOf st point) < brushSize b ->
  let m := inverseMatrixOf st in
  let lx := e0 m * vx n + e4 m * vy n + e8 m * vz n in
  let ly := e1 m * vx n + e5 m * vy n + e9 m * vz n in
  let lz := e2 m * vx n + e6 m * vy n + e10 m * vz n in
  let len := sqrt (lx * lx + ly * ly + lz * lz) in
  let falloff := 1 - Vector3.distanceTo p (localPointOf st point) / brushSize b in
  let k := brushStrength b * falloff * 0.01 in
  let after :=
    scenePositions (sculptMesh computeVertexNormals b last st point (Some n)) in
  (len <> 0 ->
     after !! i = Some (mkVector3 (vx p + lx / len * k)
                                  (vy p + ly / len * k)
                                  (vz p + lz / len * k))
     /\ lx / len * (lx / len) + ly / len * (ly / len) + lz / len * (lz / len) = 1)
  /\ (len = 0 -> after !! i = Some p).
Proof.
  intros Htool Hp Hnear m lx ly lz len falloff k after.
  assert (Hafter : after !! i
                   = Some (Vector3.addScaledVector p (transformDirection n m) k)).
  { unfold after. rewrite sculptMesh_lookup, Hp. cbn [option_map].
    unfold sculptVertex.
    destruct (Rlt_dec _ _) as [_|Hge]; [|contradiction].
    unfold toolEffect. rewrite Htool. reflexivity. }
  destruct (transformDirection_coords n m) as [Hnz Hz].
  fold lx ly lz len in Hnz, Hz. split.
  - intros Hlen. destruct (Hnz Hlen) as [Hdir Hunit]. split; [|exact Hunit].
    rewrite Hafter, Hdir. reflexivity.
  - intros Hlen. rewrite Hafter, (Hz Hlen).
    unfold Vector3.addScaledVector, Vector3.zero. cbn [vx vy vz].
    destruct p as [px py pz]. cbn [vx vy vz]. do 2 f_equal; ring.
Qed.

Lemma sculpt_displacement_witness :
  scenePositions
    (sculptMesh Example.computeVertexNormals (mkBrush 2 5 SCULPT) (mkVector2 0 0)
       Samples.scaledScene (mkVector3 1 0 0) (Some (mkVector3 0 0 1))) !! 1%nat
  = Some (mkVector3 1 0 0.025).
Proof.
  destruct (sculpt_displacement Example.computeVertexNormals (mkBrush 2 5 SCULPT)
              (mkVector2 0 0) Samples.scaledScene (mkVector3 1 0 0)
              (mkVector3 0 0 1) 1 (mkVector3 1 0 0)) as [Hmoved _].
  - reflexivity.
  - reflexivity.
  - rewrite scaled_local, example_dist1. cbn [brushSize]. lra.
  - revert Hmoved. rewrite scaled_inverse, scaled_local, example_dist1.
    cbn [scaleTranslation e0 e1 e2 e4 e5 e6 e8 e9 e10 vx vy vz
         brushSize brushStrength].
    replace (/ 2 * 0 + 0 * 0 + 0 * 1) with 0 by ring.
    replace (0 * 0 + / 2 * 0 + 0 * 1) with 0 by ring.
    replace (0 * 0 + 0 * 0 + / 2 * 1) with (/ 2) by ring.
    replace (0 * 0 + 0 * 0 + / 2 * / 2) with (/ 2 * / 2) by ring.
    rewrite sqrt_square by lra. intros Hmoved.
    destruct Hmoved as [Hmoved _]; [lra|].
    rewrite Hmoved. unfold Rdiv. rewrite Rinv_inv. do 2 f_equal; lra.
Defined.

(** ** Evaluating the loop at a vertex of known distance *)

Lemma sculptVertex_inside b c m normal mouse last p d :
  Vector3.distanceTo p c = d -> d < brushSize b ->
  sculptVertex b c m normal mouse last p
  = toolEffect b (1 - d / brushSize b) c m normal mouse last p.
Proof.
  intros Hd Hlt. unfold sculptVertex. rewrite Hd.
  destruct (Rlt_dec d (brushSize b)); [reflexivity|contradiction].
Qed.

Lemma sculptVertex_outside b c m normal mouse last p :
  brushSize b <= Vector3.distanceTo p c ->
  sculptVertex b c m normal mouse last p = p.
Proof.
  intros Hge. unfold sculptVertex.
  destruct (Rlt_dec _ _); [lra|reflexivity].
Qed.

(** ** Pinch and Smooth *)

Lemma sculptLoop_pinch_smooth size strength c m normal mouse last posAttr :
  sculptLoop (mkBrush size strength PINCH) c m normal mouse last posAttr
  = sculptLoop (mkBrush size strength SMOOTH) c m normal mouse last posAttr.
Proof.
  rewrite !sculptLoop_map. apply map_ext. intros p. reflexivity.
Qed.

(** C10. One call of [sculptMesh] with the Pinch tool and one with the
    Smooth tool, on the same scene with the same parameters, give the
    same scene; a vertex within the brush radius goes, in both, to its
    position plus the fraction [strength * falloff * 0.01] of its offset
    to the local contact point. *)
Theorem pinch_equals_smooth
    (computeVertexNormals : option (list nat) -> list Vector3 -> list Vector3)
    (size strength : R) (last : Vector2) (st : EditableScene)
    (point : Vector3) (normal : option Vector3) (i : nat) (p : Vector3) :
  scenePositions st !! i = Some p ->
  Vector3.distanceTo p (localPointOf st point) < size ->
  let c := localPointOf st point in
  let falloff := 1 - Vector3.distanceTo p c / size in
  let moved := Vector3.addScaledVector p (Vector3.sub c p) (strength * falloff * 0.01) in
  sculptMesh computeVertexNormals (mkBrush size strength PINCH) last st point normal
  = sculptMesh computeVertexNormals (mkBrush size strength SMOOTH) last st point normal
  /\ scenePositions
       (sculptMesh computeVertexNormals (mkBrush size strength PINCH) last st
          point normal) !! i = Some moved
  /\ scenePositions
       (sculptMesh computeVertexNormals (mkBrush size strength SMOOTH) last st
          point normal) !! i = Some moved.
Proof.
  intros Hp Hnear c falloff moved.
  assert (Heq : sculptMesh computeVertexNormals (mkBrush size strength PINCH)
                  last st point normal
                = sculptMesh computeVertexNormals (mkBrush size strength SMOOTH)
                    last st point normal).
  { unfold sculptMesh. destruct (meshRef st) as [mesh|]; [|reflexivity].
    destruct (geometry mesh) as [g|]; [|reflexivity].
    unfold sculptGeometry. cbv zeta. now rewrite sculptLoop_pinch_smooth. }
  split; [exact Heq|]. rewrite <- Heq.
  assert (Hmoved :
    scenePositions
      (sculptMesh computeVertexNormals (mkBrush size strength PINCH) last st
         point normal) !! i = Some moved).
  { rewrite sculptMesh_lookup, Hp. cbn [option_map].
    rewrite (sculptVertex_inside _ _ _ _ _ _ _ _ eq_refl) by exact Hnear.
    reflexivity. }
  split; exact Hmoved.
Qed.

Lemma pinch_equals_smooth_witness :
  sculptMesh Example.computeVertexNormals (mkBrush 2 5 PINCH) (mkVector2 0 0)
    Example.scene0 Vector3.zero None
  = sculptMesh Example.computeVertexNormals (mkBrush 2 5 SMOOTH) (mkVector2 0 0)
      Example.scene0 Vector3.zero None.
Proof.
  apply (pinch_equals_smooth Example.computeVertexNormals 2 5 (mkVector2 0 0)
           Example.scene0 Vector3.zero None 1 (mkVector3 1 0 0)).
  - reflexivity.
  - rewrite example_local, example_dist1. lra.
Defined.

(** ** Normals after a call *)

(** C8. After a call of [sculptMesh] on a scene whose mesh has a
    geometry, the normal attribute of the geometry is the one recomputed
    from the triangle connectivity and the positions the call has just
    written, whatever the normals were before. *)
Theorem sculptMesh_normals_fresh
    (computeVertexNormals : option (list nat) -> list Vector3 -> list Vector3)
    (b : Brush) (last : Vector2) (st : EditableScene) (point : Vector3)
    (normal : option Vector3) (mesh : Mesh) (g : BufferGeometry) :
  meshRef st = Some mesh ->
  geometry mesh = Some g ->
  exists g' : BufferGeometry,
    sceneGeometry (sculptMesh computeVertexNormals b last st point normal) = Some g'
    /\ position g'
       = scenePositions (sculptMesh computeVertexNormals b last st point normal)
    /\ index g' = index g
    /\ normals g' = computeVertexNormals (index g) (position g').
Proof.
  intros Hm Hg. unfold scenePositions, sceneGeometry, sculptMesh.
  rewrite Hm, Hg. cbn. eexists. repeat split.
Qed.

Lemma sculptMesh_normals_fresh_witness :
  exists g' : BufferGeometry,
    sceneGeometry
      (sculptMesh Example.computeVertexNormals (mkBrush 2 5 SMOOTH)
         (mkVector2 0 0) Example.scene0 Vector3.zero None) = Some g'
    /\ position g'
       = scenePositions
           (sculptMesh Example.computeVertexNormals (mkBrush 2 5 SMOOTH)
              (mkVector2 0 0) Example.scene0 Vector3.zero None)
    /\ index g' = None
    /\ normals g' = Example.computeVertexNormals None (position g').
Proof.
  apply (sculptMesh_normals_fresh Example.computeVertexNormals (mkBrush 2 5 SMOOTH)
           (mkVector2 0 0) Example.scene0 Vector3.zero None Example.mesh0
           (mkGeometry Example.triangle [] None)); reflexivity.
Defined.

(** ** Calls that move nothing *)

Lemma addScaledVector_0 (p v : Vector3) (s : R) :
  s = 0 -> Vector3.addScaledVector p v s = p.
Proof.
  intros ->. destruct p as [x y z]. unfold Vector3.addScaledVector.
  cbn [vx vy vz]. f_equal; ring.
Qed.

Lemma toolEffect_strength_0 b falloff c m normal mouse last p :
  brushStrength b = 0 -> toolEffect b falloff c m normal mouse last p = p.
Proof.
  intros H0. unfold toolEffect. rewrite H0.
  destruct (activeTool b).
  - destruct p as [x y z]. cbn [vx vy vz x2 y2]. f_equal; ring.
  - destruct normal; [|reflexivity]. apply addScaledVector_0. ring.
  - destruct p as [x y z]. unfold Vector3.lerp. cbn [vx vy vz]. f_equal; ring.
  - apply addScaledVector_0. ring.
Qed.

Lemma map_id_on {A : Type} (f : A -> A) (l : list A) :
  (forall a, f a = a) -> map f l = l.
Proof.
  intros Hf. induction l as [|a l IH]; cbn; [reflexivity|].
  now rewrite Hf, IH.
Qed.

(** C5, as the code has it. A call of [sculptMesh] with a brush radius
    that is zero or negative, or with a brush strength equal to zero, or
    with the Sculpt tool and no normal, leaves every vertex position as it
    was; [sculptMesh] is a total function and raises nothing in these
    cases. *)
Theorem sculptMesh_noop
    (computeVertexNormals : option (list nat) -> list Vector3 -> list Vector3)
    (b : Brush) (last : Vector2) (st : EditableScene) (point : Vector3)
    (normal : option Vector3) :
  brushSize b <= 0 \/ brushStrength b = 0
  \/ (activeTool b = SCULPT /\ normal = None) ->
  scenePositions (sculptMesh computeVertexNormals b last st point normal)
  = scenePositions st.
Proof.
  intros Hcase. rewrite sculptMesh_positions. apply map_id_on. intros p.
  destruct Hcase as [Hr | [Hs | [Ht Hn]]].
  - apply sculptVertex_outside.
    pose proof (distanceTo_nonneg p (localPointOf st point)). lra.
  - unfold sculptVertex. destruct (Rlt_dec _ _); [|reflexivity].
    now apply toolEffect_strength_0.
  - unfold sculptVertex. destruct (Rlt_dec _ _); [|reflexivity].
    unfold toolEffect. now rewrite Ht, Hn.
Qed.

Lemma sculptMesh_noop_witness :
  scenePositions
    (sculptMesh Example.computeVertexNormals (mkBrush 2 0 SMOOTH) (mkVector2 0 0)
       Example.scene0 Vector3.zero None)
  = scenePositions Example.scene0.
Proof.
  apply sculptMesh_noop. right. left. reflexivity.
Defined.

(** C5 as stated fails: a negative strength is not a no-op. The Smooth
    tool with strength -100 and radius 2 at the origin moves the vertex
    (1, 0, 0) of the example scene to (1.5, 0, 0). *)
Lemma negative_strength_moves :
  brushStrength (mkBrush 2 (-100) SMOOTH) <= 0
  /\ scenePositions
       (sculptMesh Example.computeVertexNormals (mkBrush 2 (-100) SMOOTH)
          (mkVector2 0 0) Example.scene0 Vector3.zero None) !! 1%nat
     = Some (mkVector3 1.5 0 0)
  /\ scenePositions
       (sculptMesh Example.computeVertexNormals (mkBrush 2 (-100) SMOOTH)
          (mkVector2 0 0) Example.scene0 Vector3.zero None)
     <> scenePositions Example.scene0.
Proof.
  assert (Hmoved :
    scenePositions
      (sculptMesh Example.computeVertexNormals (mkBrush 2 (-100) SMOOTH)
         (mkVector2 0 0) Example.scene0 Vector3.zero None) !! 1%nat
    = Some (mkVector3 1.5 0 0)).
  { rewrite sculptMesh_lookup. cbn [scenePositions sceneGeometry Example.scene0
      meshRef Example.mesh0 geometry position Example.triangle lookup
      list_lookup option_map].
    rewrite example_local.
    rewrite (sculptVertex_inside _ _ _ _ _ _ _ 1 example_dist1)
      by (cbn [brushSize]; lra).
    unfold toolEffect, Vector3.lerp, Vector3.zero.
    cbn [activeTool brushStrength brushSize vx vy vz].
    f_equal. f_equal; lra. }
  split; [cbn [brushStrength]; lra|]. split; [exact Hmoved|].
  intros Heq. rewrite Heq in Hmoved. cbn in Hmoved.
  injection Hmoved as Hx. lra.
Qed.

(** ** Smooth *)

(** C4 as stated fails: the factor is not clamped. With strength 400 and
    radius 2 at the origin, the vertex (1, 0, 0) has factor 2 and lands
    at (-1, 0, 0), on the far side of the contact point. *)
Lemma smooth_overshoots :
  0 < brushStrength (mkBrush 2 400 SMOOTH)
  /\ scenePositions
       (sculptMesh Example.computeVertexNormals (mkBrush 2 400 SMOOTH)
          (mkVector2 0 0) Example.scene0 Vector3.zero None) !! 1%nat
     = Some (mkVector3 (-1) 0 0)
  /\ ~ notPast (mkVector3 1 0 0) (localPointOf Example.scene0 Vector3.zero)
         (mkVector3 (-1) 0 0).
Proof.
  split; [cbn [brushStrength]; lra|]. split.
  - rewrite sculptMesh_lookup. cbn [scenePositions sceneGeometry Example.scene0
      meshRef Example.mesh0 geometry position Example.triangle lookup
      list_lookup option_map].
    rewrite example_local.
    rewrite (sculptVertex_inside _ _ _ _ _ _ _ 1 example_dist1)
      by (cbn [brushSize]; lra).
    unfold toolEffect, Vector3.lerp, Vector3.zero.
    cbn [activeTool brushStrength brushSize vx vy vz].
    f_equal. f_equal; lra.
  - rewrite example_local. intros [t [Ht Heq]].
    unfold Vector3.lerp, Vector3.zero in Heq. cbn [vx vy vz] in Heq.
    injection Heq as Hx _ _. lra.
Qed.

Lemma lerp_past (p c : Vector3) (factor : R) :
  1 < factor -> p <> c -> ~ notPast p c (Vector3.lerp p c factor).
Proof.
  intros Hf Hne [t [Ht Heq]]. apply Hne.
  destruct p as [px py pz], c as [cx cy cz].
  unfold Vector3.lerp in Heq. cbn [vx vy vz] in Heq.
  injection Heq as Hx Hy Hz.
  assert (Hft : factor - t <> 0) by lra.
  assert (Hcx : (cx - px) * (factor - t) = 0) by lra.
  assert (Hcy : (cy - py) * (factor - t) = 0) by lra.
  assert (Hcz : (cz - pz) * (factor - t) = 0) by lra.
  apply Rmult_integral in Hcx, Hcy, Hcz.
  destruct Hcx as [Hcx|Hcx]; [|contradiction].
  destruct Hcy as [Hcy|Hcy]; [|contradiction].
  destruct Hcz as [Hcz|Hcz]; [|contradiction].
  f_equal; lra.
Qed.

(** C4, as the code has it. With the Smooth tool and for every strength,
    [sculptMesh] replaces each vertex within the brush radius by the
    interpolation between the vertex and the local contact point: each
    coordinate [x] becomes [x + (c.x - x) * factor] with
    [factor = brushStrength * falloff * 0.01], used as computed, without
    a clamp. For a strength in (0, 100] the factor lies in (0, 1] and the
    vertex does not pass the contact point; whenever the factor exceeds 1
    a vertex away from the contact point lands beyond it. *)
Theorem smooth_lerp
    (computeVertexNormals : option (list nat) -> list Vector3 -> list Vector3)
    (b : Brush) (last : Vector2) (st : EditableScene) (point : Vector3)
    (normal : option Vector3) (i : nat) (p : Vector3) :
  activeTool b = SMOOTH ->
  scenePositions st !! i = Some p ->
  Vector3.distanceTo p (localPointOf st point) < brushSize b ->
  let c := localPointOf st point in
  let falloff := 1 - Vector3.distanceTo p c / brushSize b in
  let factor := brushStrength b * falloff * 0.01 in
  let q := mkVector3 (vx p + (vx c - vx p) * factor)
                     (vy p + (vy c - vy p) * factor)
                     (vz p + (vz c - vz p) * factor) in
  scenePositions (sculptMesh computeVertexNormals b last st point normal) !! i
  = Some q
  /\ (0 < brushStrength b <= 100 -> 0 < factor <= 1 /\ notPast p c q)
  /\ (1 < factor -> p <> c -> ~ notPast p c q).
Proof.
  intros Htool Hp Hnear c falloff factor q.
  split; [|split].
  - rewrite sculptMesh_lookup, Hp. cbn [option_map].
    rewrite (sculptVertex_inside _ _ _ _ _ _ _ _ eq_refl) by exact Hnear.
    unfold toolEffect. now rewrite Htool.
  - intros Hs.
    assert (Hfactor : 0 < factor <= 1).
    { pose proof (distanceTo_nonneg p c) as Hd. fold c in Hnear.
      assert (Hr : 0 < brushSize b) by lra.
      assert (Hq : 0 <= Vector3.distanceTo p c / brushSize b < 1).
      { split.
        - apply Rmult_le_pos; [exact Hd|]. left. now apply Rinv_0_lt_compat.
        - apply (Rmult_lt_reg_r (brushSize b)); [exact Hr|].
          unfold Rdiv. rewrite Rmult_assoc, Rinv_l by lra. lra. }
      unfold factor, falloff. nra. }
    split; [exact Hfactor|].
    exists factor. split; [lra|reflexivity].
  - intros Hf Hne. exact (lerp_past p c factor Hf Hne).
Qed.

Lemma smooth_lerp_witness :
  (scenePositions
     (sculptMesh Example.computeVertexNormals (mkBrush 2 5 SMOOTH) (mkVector2 0 0)
        Example.scene0 Vector3.zero None) !! 1%nat
   = Some (mkVector3 0.975 0 0)
   /\ notPast (mkVector3 1 0 0) Vector3.zero (mkVector3 0.975 0 0))
  /\ (scenePositions
        (sculptMesh Example.computeVertexNormals (mkBrush 2 300 SMOOTH)
           (mkVector2 0 0) Example.scene0 Vector3.zero None) !! 1%nat
      = Some (mkVector3 (-0.5) 0 0)
      /\ ~ notPast (mkVector3 1 0 0) Vector3.zero (mkVector3 (-0.5) 0 0)).
Proof.
  split.
  - destruct (smooth_lerp Example.computeVertexNormals (mkBrush 2 5 SMOOTH)
                (mkVector2 0 0) Example.scene0 Vector3.zero None 1
                (mkVector3 1 0 0)) as [Hq [Hin _]].
    + reflexivity.
    + reflexivity.
    + rewrite example_local, example_dist1. cbn [brushSize]. lra.
    + revert Hq Hin. rewrite example_local, example_dist1.
      cbn [brushSize brushStrength vx vy vz Vector3.zero].
      replace (mkVector3 (1 + (0 - 1) * (5 * (1 - 1 / 2) * 0.01))
                 (0 + (0 - 0) * (5 * (1 - 1 / 2) * 0.01))
                 (0 + (0 - 0) * (5 * (1 - 1 / 2) * 0.01)))
        with (mkVector3 0.975 0 0) by (f_equal; lra).
      intros Hq Hin. split; [exact Hq|]. apply Hin. lra.
  - destruct (smooth_lerp Example.computeVertexNormals (mkBrush 2 300 SMOOTH)
                (mkVector2 0 0) Example.scene0 Vector3.zero None 1
                (mkVector3 1 0 0)) as [Hq [_ Hout]].
    + reflexivity.
    + reflexivity.
    + rewrite example_local, example_dist1. cbn [brushSize]. lra.
    + revert Hq Hout. rewrite example_local, example_dist1.
      cbn [brushSize brushStrength vx vy vz Vector3.zero].
      replace (mkVector3 (1 + (0 - 1) * (300 * (1 - 1 / 2) * 0.01))
                 (0 + (0 - 0) * (300 * (1 - 1 / 2) * 0.01))
                 (0 + (0 - 0) * (300 * (1 - 1 / 2) * 0.01)))
        with (mkVector3 (-0.5) 0 0) by (f_equal; lra).
      intros Hq Hout. split; [exact Hq|]. apply Hout; [lra|].
      intros Heq. injection Heq as Hx. lra.
Defined.

(** ** Falloff and displacement magnitude *)

Lemma displacement_addScaledVector (p v : Vector3) (k : R) :
  Vector3.distanceTo (Vector3.addScaledVector p v k) p = Rabs k * Vector3.length v.
Proof.
  unfold Vector3.distanceTo, Vector3.length.
  replace (Vector3.distanceToSquared (Vector3.addScaledVector p v k) p)
    with (Rsqr k * Vector3.lengthSq v).
  - rewrite sqrt_mult; [|apply Rle_0_sqr|apply lengthSq_nonneg].
    now rewrite sqrt_Rsqr_abs.
  - unfold Vector3.distanceToSquared, Vector3.addScaledVector, Vector3.lengthSq, Rsqr.
    cbn [vx vy vz]. ring.
Qed.

Lemma length_sub (c p : Vector3) :
  Vector3.length (Vector3.sub c p) = Vector3.distanceTo p c.
Proof.
  unfold Vector3.length, Vector3.distanceTo. f_equal.
  unfold Vector3.lengthSq, Vector3.distanceToSquared, Vector3.sub.
  cbn [vx vy vz]. ring.
Qed.

Lemma Rabs_damped (s f k : R) : 0 <= f -> 0 <= k -> Rabs (s * f * k) = Rabs s * f * k.
Proof.
  intros Hf Hk. rewrite !Rabs_mult, (Rabs_pos_eq f), (Rabs_pos_eq k); auto.
Qed.

Lemma falloff_bounds (d r : R) : 0 <= d -> d < r -> 0 < 1 - d / r <= 1.
Proof.
  intros Hd Hlt. assert (Hr : 0 < r) by lra.
  assert (Hq : 0 <= d / r < 1).
  { split.
    - apply Rmult_le_pos; [exact Hd|]. left. now apply Rinv_0_lt_compat.
    - apply (Rmult_lt_reg_r r); [exact Hr|].
      unfold Rdiv. rewrite Rmult_assoc, Rinv_l by lra. lra. }
  lra.
Qed.

(** The displacement magnitude of a vertex within the brush, by tool. *)
Lemma displacement_sculpt b c m n mouse last p :
  activeTool b = SCULPT ->
  Vector3.distanceTo p c < brushSize b ->
  Vector3.distanceTo (sculptVertex b c m (Some n) mouse last p) p
  = Rabs (brushStrength b) * (1 - Vector3.distanceTo p c / brushSize b) * 0.01
    * Vector3.length (transformDirection n m).
Proof.
  intros Ht Hlt.
  rewrite (sculptVertex_inside _ _ _ _ _ _ _ _ eq_refl) by exact Hlt.
  unfold toolEffect. rewrite Ht. cbv zeta.
  rewrite displacement_addScaledVector, Rabs_damped; [reflexivity| |lra].
  pose proof (falloff_bounds _ _ (distanceTo_nonneg p c) Hlt). lra.
Qed.

Lemma displacement_toward b c m normal mouse last p :
  activeTool b = SMOOTH \/ activeTool b = PINCH ->
  Vector3.distanceTo p c < brushSize b ->
  Vector3.distanceTo (sculptVertex b c m normal mouse last p) p
  = Rabs (brushStrength b) * (1 - Vector3.distanceTo p c / brushSize b) * 0.01
    * Vector3.distanceTo p c.
Proof.
  intros Ht Hlt.
  rewrite (sculptVertex_inside _ _ _ _ _ _ _ _ eq_refl) by exact Hlt.
  assert (Heff :
    toolEffect b (1 - Vector3.distanceTo p c / brushSize b) c m normal mouse last p
    = Vector3.addScaledVector p (Vector3.sub c p)
        (brushStrength b * (1 - Vector3.distanceTo p c / brushSize b) * 0.01)).
  { unfold toolEffect. destruct Ht as [-> | ->]; reflexivity. }
  rewrite Heff, displacement_addScaledVector, length_sub, Rabs_damped;
    [reflexivity| |lra].
  pose proof (falloff_bounds _ _ (distanceTo_nonneg p c) Hlt). lra.
Qed.

Lemma parabola_decreasing (d1 d2 r : R) :
  0 <= d1 -> d1 < d2 -> d2 < r -> r <= d1 + d2 ->
  (1 - d2 / r) * d2 <= (1 - d1 / r) * d1.
Proof.
  intros H0 H12 H2r Hsum. assert (Hr : 0 < r) by lra.
  replace ((1 - d1 / r) * d1) with ((r - d1) * d1 / r) by (field; lra).
  replace ((1 - d2 / r) * d2) with ((r - d2) * d2 / r) by (field; lra).
  apply Rmult_le_compat_r; [left; now apply Rinv_0_lt_compat|].
  nra.
Qed.

Lemma falloff_decreasing (d1 d2 r : R) :
  0 <= d1 -> d1 < d2 -> d2 < r -> 1 - d2 / r <= 1 - d1 / r.
Proof.
  intros H0 H12 H2r. assert (Hr : 0 < r) by lra.
  apply Rplus_le_compat_l, Ropp_le_contravar.
  apply Rmult_le_compat_r; [left; now apply Rinv_0_lt_compat|lra].
Qed.

Lemma displacement_sculptMesh
    (computeVertexNormals : option (list nat) -> list Vector3 -> list Vector3)
    b last st point normal i p :
  scenePositions st !! i = Some p ->
  displacement (scenePositions st)
    (scenePositions (sculptMesh computeVertexNormals b last st point normal)) i
  = Vector3.distanceTo
      (sculptVertex b (localPointOf st point) (inverseMatrixOf st) normal
         (mouse st) last p) p.
Proof.
  intros Hp. unfold displacement. now rewrite sculptMesh_lookup, Hp.
Qed.

(** C3 as stated fails for Smooth and Pinch, whose displacement is a
    fraction of the offset to the contact point: with the Smooth tool,
    strength 5 and radius 2 at the origin, the vertex at distance 0 does
    not move while the vertex at distance 1 moves by 0.025. *)
Lemma smooth_not_monotone :
  let before := scenePositions Example.scene0 in
  let after :=
    scenePositions
      (sculptMesh Example.computeVertexNormals (mkBrush 2 5 SMOOTH)
         (mkVector2 0 0) Example.scene0 Vector3.zero None) in
  let c := localPointOf Example.scene0 Vector3.zero in
  Vector3.distanceTo (mkVector3 0 0 0) c < Vector3.distanceTo (mkVector3 1 0 0) c
  /\ Vector3.distanceTo (mkVector3 1 0 0) c < brushSize (mkBrush 2 5 SMOOTH)
  /\ displacement before after 0 = 0
  /\ displacement before after 1 = 0.025
  /\ ~ (displacement before after 1 <= displacement before after 0).
Proof.
  cbv zeta. rewrite example_local.
  change (Vector3.distanceTo (mkVector3 0 0 0) Vector3.zero)
    with (Vector3.distanceTo Vector3.zero Vector3.zero).
  rewrite distanceTo_self, example_dist1. cbn [brushSize].
  assert (H0 :
    displacement (scenePositions Example.scene0)
      (scenePositions
         (sculptMesh Example.computeVertexNormals (mkBrush 2 5 SMOOTH)
            (mkVector2 0 0) Example.scene0 Vector3.zero None)) 0 = 0).
  { rewrite (displacement_sculptMesh _ _ _ Example.scene0 _ _ 0%nat (mkVector3 0 0 0) eq_refl).
    rewrite example_local, displacement_toward.
    - change (mkVector3 0 0 0) with Vector3.zero. rewrite distanceTo_self. ring.
    - now left.
    - change (mkVector3 0 0 0) with Vector3.zero. rewrite distanceTo_self.
      cbn [brushSize]. lra. }
  assert (H1 :
    displacement (scenePositions Example.scene0)
      (scenePositions
         (sculptMesh Example.computeVertexNormals (mkBrush 2 5 SMOOTH)
            (mkVector2 0 0) Example.scene0 Vector3.zero None)) 1 = 0.025).
  { rewrite (displacement_sculptMesh _ _ _ Example.scene0 _ _ 1%nat (mkVector3 1 0 0) eq_refl).
    rewrite example_local, displacement_toward.
    - rewrite example_dist1. cbn [brushStrength brushSize].
      rewrite Rabs_pos_eq by lra. lra.
    - now left.
    - rewrite example_dist1. cbn [brushSize]. lra. }
  rewrite H0, H1. repeat split; lra.
Qed.

Lemma parabola_increasing (d1 d2 r : R) :
  0 <= d1 -> d1 < d2 -> d2 < r -> d1 + d2 < r ->
  (1 - d1 / r) * d1 < (1 - d2 / r) * d2.
Proof.
  intros H0 H12 H2r Hsum. assert (Hr : 0 < r) by lra.
  replace ((1 - d1 / r) * d1) with ((r - d1) * d1 / r) by (field; lra).
  replace ((1 - d2 / r) * d2) with ((r - d2) * d2 / r) by (field; lra).
  apply Rmult_lt_compat_r; [now apply Rinv_0_lt_compat|].
  nra.
Qed.

(** C3, as the code has it. For two vertices at distances d1 < d2 <
    radius from the local contact point, one call with the Sculpt tool
    moves the vertex at d1 at least as far as the vertex at d2. With the
    Smooth or the Pinch tool the displacement magnitude of a vertex at
    distance d is |strength| * 0.01 * d * (1 - d / radius); the vertex
    at d1 moves at least as far as the vertex at d2 when
    d1 + d2 >= radius, and strictly less far when d1 + d2 < radius and
    the strength is not 0. A vertex at distance equal to or beyond the
    radius keeps its position: its displacement is exactly zero. *)
Theorem falloff_monotone
    (computeVertexNormals : option (list nat) -> list Vector3 -> list Vector3)
    (b : Brush) (last : Vector2) (st : EditableScene) (point : Vector3)
    (normal : option Vector3) (i j : nat) (p q : Vector3) :
  scenePositions st !! i = Some p ->
  scenePositions st !! j = Some q ->
  Vector3.distanceTo p (localPointOf st point)
    < Vector3.distanceTo q (localPointOf st point) ->
  Vector3.distanceTo q (localPointOf st point) < brushSize b ->
  let d1 := Vector3.distanceTo p (localPointOf st point) in
  let d2 := Vector3.distanceTo q (localPointOf st point) in
  let before := scenePositions st in
  let after := scenePositions (sculptMesh computeVertexNormals b last st point normal) in
  (activeTool b = SCULPT ->
     displacement before after j <= displacement before after i)
  /\ (activeTool b = SMOOTH \/ activeTool b = PINCH ->
        displacement before after i
        = Rabs (brushStrength b) * 0.01 * d1 * (1 - d1 / brushSize b)
        /\ displacement before after j
           = Rabs (brushStrength b) * 0.01 * d2 * (1 - d2 / brushSize b)
        /\ (brushSize b <= d1 + d2 ->
              displacement before after j <= displacement before after i)
        /\ (d1 + d2 < brushSize b -> brushStrength b <> 0 ->
              displacement before after i < displacement before after j))
  /\ (forall (k : nat) (r : Vector3),
        before !! k = Some r ->
        brushSize b <= Vector3.distanceTo r (localPointOf st point) ->
        after !! k = Some r /\ displacement before after k = 0).
Proof.
  intros Hp Hq H12 H2r d1 d2 before after. subst d1 d2 before after.
  set (c := localPointOf st point) in *.
  pose proof (distanceTo_nonneg p c) as Hd1.
  assert (H1r : Vector3.distanceTo p c < brushSize b) by lra.
  pose proof (Rabs_pos (brushStrength b)) as Hs.
  split; [|split].
  - intros Hsc.
    rewrite (displacement_sculptMesh _ _ _ _ _ _ _ _ Hp).
    rewrite (displacement_sculptMesh _ _ _ _ _ _ _ _ Hq). fold c.
    destruct normal as [n|].
    + rewrite !displacement_sculpt by assumption.
      pose proof (falloff_decreasing _ _ _ Hd1 H12 H2r) as Hf.
      assert (HL : 0 <= Vector3.length (transformDirection n (inverseMatrixOf st)))
        by apply sqrt_pos.
      apply Rmult_le_compat_r; [exact HL|].
      apply Rmult_le_compat_r; [lra|].
      apply Rmult_le_compat_l; [exact Hs|exact Hf].
    + rewrite !(sculptVertex_inside _ _ _ _ _ _ _ _ eq_refl) by assumption.
      unfold toolEffect. rewrite Hsc, !distanceTo_self. lra.
  - intros Hto.
    rewrite (displacement_sculptMesh _ _ _ _ _ _ _ _ Hp).
    rewrite (displacement_sculptMesh _ _ _ _ _ _ _ _ Hq). fold c.
    rewrite !displacement_toward by assumption.
    set (s := Rabs (brushStrength b)) in *.
    set (d1 := Vector3.distanceTo p c) in *.
    set (d2 := Vector3.distanceTo q c) in *.
    set (r := brushSize b) in *.
    split; [ring|]. split; [ring|]. split.
    + intros Hsum.
      pose proof (parabola_decreasing _ _ _ Hd1 H12 H2r Hsum) as Hpar.
      assert (Hk : 0 <= s * 0.01) by (apply Rmult_le_pos; lra).
      pose proof (Rmult_le_compat_l _ _ _ Hk Hpar). lra.
    + intros Hsum Hnz.
      pose proof (parabola_increasing _ _ _ Hd1 H12 H2r Hsum) as Hpar.
      assert (Hk : 0 < s * 0.01).
      { apply Rmult_lt_0_compat; [|lra]. unfold s. now apply Rabs_pos_lt. }
      pose proof (Rmult_lt_compat_l _ _ _ Hk Hpar). lra.
  - intros k r Hr Hfar.
    assert (Hk :
      scenePositions (sculptMesh computeVertexNormals b last st point normal) !! k
      = Some r) by (now apply sculptMesh_keeps).
    split; [exact Hk|]. unfold displacement. rewrite Hr, Hk.
    apply distanceTo_self.
Qed.

Lemma example_dist_far :
  Vector3.distanceTo (mkVector3 0 3 0) (localPointOf Example.scene0 Vector3.zero) = 3.
Proof. rewrite example_local. apply example_dist3. Defined.

Lemma example_dist_near :
  Vector3.distanceTo (mkVector3 1 0 0) (localPointOf Example.scene0 Vector3.zero) = 1.
Proof. rewrite example_local. apply example_dist1. Defined.

Lemma falloff_monotone_witness :
  let before := scenePositions Example.scene0 in
  let after :=
    scenePositions
      (sculptMesh Example.computeVertexNormals (mkBrush 3.2 5 SMOOTH)
         (mkVector2 0 0) Example.scene0 Vector3.zero None) in
  displacement before after 1 = 0.034375
  /\ displacement before after 2 = 0.009375
  /\ displacement before after 2 <= displacement before after 1.
Proof.
  cbv zeta.
  destruct (falloff_monotone Example.computeVertexNormals (mkBrush 3.2 5 SMOOTH)
              (mkVector2 0 0) Example.scene0 Vector3.zero None 1 2
              (mkVector3 1 0 0) (mkVector3 0 3 0)) as [_ [Htoward _]].
  - reflexivity.
  - reflexivity.
  - rewrite example_dist_near, example_dist_far. lra.
  - rewrite example_dist_far. cbn [brushSize]. lra.
  - destruct Htoward as [Hnear [Hfar [Hle _]]]; [now left|].
    revert Hnear Hfar Hle. rewrite example_dist_near, example_dist_far.
    cbn [brushSize brushStrength]. rewrite (Rabs_pos_eq 5) by lra.
    intros Hnear Hfar Hle. split; [|split].
    + rewrite Hnear. lra.
    + rewrite Hfar. lra.
    + apply Hle. lra.
Defined.

(** ** What a stroke preserves *)

Section Tracking.

Variable computeVertexNormals : option (list nat) -> list Vector3 -> list Vector3.

Lemma tracks_processLoadedModel st0 loadedObject mainMesh g :
  firstMesh (traverse loadedObject) = Some mainMesh ->
  geometry mainMesh = Some g ->
  tracks g (processLoadedModel computeVertexNormals st0 loadedObject).
Proof.
  intros Hfirst Hg. unfold processLoadedModel. rewrite Hfirst, Hg.
  split; [reflexivity|]. cbn. eexists _, _. repeat split.
Qed.

Lemma tracks_sculptMesh g b last st point normal :
  tracks g st -> tracks g (sculptMesh computeVertexNormals b last st point normal).
Proof.
  intros [Horig (mesh & current & Hm & Hg & Hlen & Hidx)].
  unfold sculptMesh. rewrite Hm, Hg. split; [exact Horig|].
  cbn. eexists _, _. repeat split; cbn.
  - rewrite sculptLoop_map, length_map. exact Hlen.
  - exact Hidx.
Qed.

Lemma tracks_handlePointerMove g r st cx cy rect hits :
  tracks g st -> tracks g (handlePointerMove computeVertexNormals r st cx cy rect hits).
Proof.
  intros Ht. unfold handlePointerMove. cbv zeta.
  assert (Hst : forall bp mo,
    tracks g (mkScene (meshRef st) bp (isModifying st) (lastMousePosition st)
                (originalVertices st) (isLoading st) mo)).
  { intros bp mo. destruct Ht as [Horig Hmesh]. split; assumption. }
  destruct hits as [|hit hits]; [apply Hst|].
  destruct (r_isModifying r); [|apply Hst].
  apply tracks_sculptMesh. apply Hst.
Qed.

Lemma tracks_dispatch g v step :
  tracks g (scene v) -> tracks g (scene (dispatch computeVertexNormals v step)).
Proof.
  intros Ht. destruct step as [b ev]. unfold dispatch.
  destruct (listeners v) as [r0|]; [|exact Ht]. cbn [scene].
  destruct ev as [cx cy rect hits | button | | ].
  - now apply tracks_handlePointerMove.
  - destruct Ht as [Horig Hmesh]. destruct button; split; assumption.
  - destruct Ht as [Horig Hmesh]. split; assumption.
  - destruct Ht as [Horig Hmesh]. split; assumption.
Qed.

Lemma tracks_run g steps v :
  tracks g (scene v) -> tracks g (scene (run computeVertexNormals v steps)).
Proof.
  revert v. induction steps as [|step steps IH]; intros v Ht; [exact Ht|].
  cbn [run fold_left]. apply IH. now apply tracks_dispatch.
Qed.

Lemma typedArraySet_same_length (target source : list Vector3) :
  length target = length source -> typedArraySet target source = Some source.
Proof.
  intros Hlen. unfold typedArraySet.
  destruct (decide (length source <= length target)%nat) as [_|Hn]; [|lia].
  rewrite drop_ge by lia. now rewrite app_nil_r.
Qed.

Lemma resetMesh_tracks g st :
  tracks g st ->
  exists mesh current,
    meshRef st = Some mesh /\ geometry mesh = Some current
    /\ resetMesh computeVertexNormals st
       = Some (with_mesh st
                 (Some (mkMesh
                          (Some (mkGeometry (position g)
                                   (computeVertexNormals (index g) (position g))
                                   (index g)))
                          (matrixWorld mesh)))).
Proof.
  intros [Horig (mesh & current & Hm & Hg & Hlen & Hidx)].
  exists mesh, current. split; [exact Hm|]. split; [exact Hg|].
  unfold resetMesh. rewrite Hm, Horig, Hg.
  rewrite typedArraySet_same_length by exact Hlen.
  unfold recompute. cbn [position index]. now rewrite Hidx.
Qed.

End Tracking.

(** ** Reset *)

(** C7. After a model is loaded and whatever pointer events follow,
    [resetMesh] succeeds and leaves as positions exactly the
    [originalVertices] snapshot taken when the model was loaded, with the
    normals recomputed from them; a second [resetMesh] changes nothing
    more. *)
Theorem reset_idempotent
    (computeVertexNormals : option (list nat) -> list Vector3 -> list Vector3)
    (st0 : EditableScene) (loadedObject : Object3D) (mainMesh : Mesh)
    (g : BufferGeometry) (b : Brush) (steps : list (Brush * PointerEvent)) :
  firstMesh (traverse loadedObject) = Some mainMesh ->
  geometry mainMesh = Some g ->
  let loaded := processLoadedModel computeVertexNormals st0 loadedObject in
  let st := scene (run computeVertexNormals (mount b loaded) steps) in
  exists (st1 : EditableScene) (g1 : BufferGeometry),
    resetMesh computeVertexNormals st = Some st1
    /\ sceneGeometry st1 = Some g1
    /\ position g1 = position g
    /\ originalVertices loaded = Some (position g)
    /\ originalVertices st1 = Some (position g)
    /\ normals g1 = computeVertexNormals (index g1) (position g1)
    /\ resetMesh computeVertexNormals st1 = Some st1.
Proof.
  intros Hfirst Hg loaded st.
  assert (Hloaded : tracks g loaded)
    by (now apply (tracks_processLoadedModel _ _ _ mainMesh)).
  assert (Ht : tracks g st) by (apply tracks_run; exact Hloaded).
  destruct (resetMesh_tracks computeVertexNormals g st Ht)
    as (mesh & current & Hm & Hcur & Hreset).
  eexists _, _. split; [exact Hreset|].
  split; [reflexivity|]. split; [reflexivity|].
  split; [apply Hloaded|]. split; [apply Ht|]. split; [reflexivity|].
  unfold resetMesh. cbn [with_mesh meshRef originalVertices geometry].
  destruct Ht as [Horig _]. rewrite Horig.
  rewrite typedArraySet_same_length by reflexivity.
  reflexivity.
Qed.

Lemma reset_idempotent_witness :
  exists (st1 : EditableScene) (g1 : BufferGeometry),
    resetMesh Example.computeVertexNormals
      (scene (run Example.computeVertexNormals
                (mount (mkBrush 2 5 SMOOTH)
                   (processLoadedModel Example.computeVertexNormals
                      Example.emptyScene Example.triangleModel))
                [(mkBrush 2 5 SMOOTH, pointerdown 0);
                 (mkBrush 2 5 SMOOTH,
                  pointermove 1 1 (mkRect 0 0 2 2)
                    [mkIntersection Vector3.zero None])]))
    = Some st1
    /\ sceneGeometry st1 = Some g1
    /\ position g1 = Example.triangle
    /\ originalVertices
         (processLoadedModel Example.computeVertexNormals Example.emptyScene
            Example.triangleModel) = Some Example.triangle
    /\ originalVertices st1 = Some Example.triangle
    /\ normals g1 = Example.computeVertexNormals (index g1) (position g1)
    /\ resetMesh Example.computeVertexNormals st1 = Some st1.
Proof.
  apply (reset_idempotent Example.computeVertexNormals Example.emptyScene
           Example.triangleModel Example.mesh0
           (mkGeometry Example.triangle [] None)); reflexivity.
Defined.

(** ** Strokes: which render the listeners belong to *)

Section Strokes.

Variable computeVertexNormals : option (list nat) -> list Vector3 -> list Vector3.

Lemma sculptMesh_inverse b last st point normal :
  inverseMatrixOf (sculptMesh computeVertexNormals b last st point normal)
  = inverseMatrixOf st.
Proof.
  unfold sculptMesh, inverseMatrixOf.
  destruct (meshRef st) as [mesh|] eqn:Hm; [|now rewrite Hm].
  destruct (geometry mesh); [reflexivity|now rewrite Hm].
Qed.

Lemma sculptMesh_isModifying b last st point normal :
  isModifying (sculptMesh computeVertexNormals b last st point normal)
  = isModifying st.
Proof.
  unfold sculptMesh. destruct (meshRef st) as [mesh|]; [|reflexivity].
  destruct (geometry mesh); reflexivity.
Qed.

Lemma handlePointerMove_isModifying r st cx cy rect hits :
  isModifying (handlePointerMove computeVertexNormals r st cx cy rect hits)
  = isModifying st.
Proof.
  unfold handlePointerMove. cbv zeta. destruct hits as [|hit hits]; [reflexivity|].
  destruct (r_isModifying r); [|reflexivity].
  now rewrite sculptMesh_isModifying.
Qed.

Lemma handlePointerMove_inverse r st cx cy rect hits :
  inverseMatrixOf (handlePointerMove computeVertexNormals r st cx cy rect hits)
  = inverseMatrixOf st.
Proof.
  unfold handlePointerMove. cbv zeta. destruct hits as [|hit hits]; [reflexivity|].
  destruct (r_isModifying r); [|reflexivity].
  now rewrite sculptMesh_inverse.
Qed.

(** While the button is held, a pointer move sculpts with the values of
    the listeners' render [r]: the cursor delta is taken from
    [r_lastMousePosition r]. *)
Lemma handlePointerMove_positions r st cx cy rect hit hits :
  r_isModifying r = true ->
  scenePositions
    (handlePointerMove computeVertexNormals r st cx cy rect (hit :: hits))
  = map (sculptVertex (r_brush r)
           (applyMatrix4 (point hit) (inverseMatrixOf st)) (inverseMatrixOf st)
           (face_normal hit)
           (mkVector2 (((cx - left rect) / width rect) * 2 - 1)
                      (- ((cy - top rect) / height rect) * 2 + 1))
           (r_lastMousePosition r))
        (scenePositions st).
Proof.
  intros Hmod. unfold handlePointerMove. cbv zeta. rewrite Hmod.
  rewrite sculptMesh_positions. reflexivity.
Qed.

(** A pointer move under unchanged props never replaces the listeners:
    they stay those of the render [r], with its [lastMousePosition],
    whatever [setLastMousePosition] has stored since. *)
Lemma pointermove_keeps_listeners v r cx cy rect hits :
  listeners v = Some r ->
  isModifying (scene v) = r_isModifying r ->
  dispatch computeVertexNormals v (r_brush r, pointermove cx cy rect hits)
  = mkViewer
      (handlePointerMove computeVertexNormals r (scene v) cx cy rect hits)
      (Some r).
Proof.
  intros Hl Hmod. unfold dispatch. rewrite Hl.
  destruct (Brush_eq_dec (r_brush r) (r_brush r)) as [_|Hne]; [|contradiction].
  rewrite handlePointerMove_isModifying, Hmod, Bool.eqb_reflx. reflexivity.
Qed.

(** Pressing the left button registers the listeners of the render that
    follows, whose [lastMousePosition] is the cursor at that moment. *)
Lemma pointerdown_registers v r :
  listeners v = Some r ->
  r_isModifying r = false ->
  dispatch computeVertexNormals v (r_brush r, pointerdown 0)
  = mkViewer (handlePointerDown (scene v) 0)
      (Some (mkRender (r_brush r) true (mouse (scene v)))).
Proof.
  intros Hl Hmod. unfold dispatch. rewrite Hl.
  destruct (Brush_eq_dec (r_brush r) (r_brush r)) as [_|Hne]; [|contradiction].
  rewrite Hmod. reflexivity.
Qed.

End Strokes.

(** ** Loading *)

(** C9 as stated fails: nothing checks the positions or the triangle
    indices. A model whose only mesh has no vertex and a triangle with
    indices 7, 8, 9 passes the uploader's validation and is loaded: it
    becomes the sculpted mesh, with an empty snapshot. *)
Lemma invalid_mesh_is_loaded :
  position Example.badGeometry = []
  /\ index Example.badGeometry = Some [7; 8; 9]%nat
  /\ validateAndProcessModel Example.badModel = onModelLoaded Example.badModel
  /\ sceneGeometry
       (processLoadedModel Example.computeVertexNormals Example.emptyScene
          Example.badModel)
     = Some Example.badGeometry
  /\ originalVertices
       (processLoadedModel Example.computeVertexNormals Example.emptyScene
          Example.badModel)
     = Some [].
Proof. repeat split. Qed.

Lemma validate_accepts (model : Object3D) :
  validateAndProcessModel model = onModelLoaded model
  <-> children_of model <> []
      /\ existsb isValidGeometry (traverse model) = true.
Proof.
  unfold validateAndProcessModel.
  destruct (children_of model) as [|child rest].
  - split; [discriminate|]. intros [Hne _]. contradiction.
  - destruct (existsb isValidGeometry (traverse model)).
    + split; [intros _; split; [discriminate|reflexivity]|reflexivity].
    + split; [discriminate|]. intros [_ Hf]. discriminate.
Qed.

Lemma Object3D_induction (P : Object3D -> Prop) :
  (forall m cs, Forall P cs -> P (Object3D_node m cs)) -> forall o, P o.
Proof.
  intros H. fix IH 1. intros [m cs]. apply H.
  induction cs as [|c cs IHcs]; constructor; [apply IH|exact IHcs].
Qed.

Lemma traverse_ofObject3D (o : Object3D) :
  Loaded.traverse (Loaded.ofObject3D o)
  = map (option_map Loaded.ofMesh) (traverse o).
Proof.
  induction o as [m cs IH] using Object3D_induction.
  cbn [Loaded.ofObject3D Loaded.traverse traverse map]. f_equal.
  induction IH as [|c cs Hc _ IHcs]; [reflexivity|].
  cbn [map concat]. rewrite map_app, Hc. f_equal. exact IHcs.
Qed.

Lemma firstMesh_ofMesh (visited : list (option Mesh)) :
  Loaded.firstMesh (map (option_map Loaded.ofMesh) visited)
  = option_map Loaded.ofMesh (firstMesh visited).
Proof.
  induction visited as [|[m|] rest IH]; [reflexivity|reflexivity|exact IH].
Qed.

Lemma processLoadedModel_ofObject3D
    (computeVertexNormals : option (list nat) -> list Vector3 -> list Vector3)
    (st : EditableScene) (model : Object3D) :
  Loaded.processLoadedModel computeVertexNormals st (Loaded.ofObject3D model)
  = Returns (processLoadedModel computeVertexNormals st model).
Proof.
  unfold Loaded.processLoadedModel, processLoadedModel.
  rewrite traverse_ofObject3D, firstMesh_ofMesh.
  destruct (firstMesh (traverse model)) as [[[g|] mw]|]; reflexivity.
Qed.

(** The first mesh of a traversal is the one that only nodes that are no
    mesh precede. *)
Lemma firstMesh_first (pre post : list (option LoadedMesh)) (mainMesh : LoadedMesh) :
  Forall (fun visited => visited = None) pre ->
  Loaded.firstMesh (pre ++ Some mainMesh :: post) = Some mainMesh.
Proof.
  induction 1 as [|node pre Hnode _ IH]; [reflexivity|].
  subst node. exact IH.
Qed.

(** The Smooth stroke of the samples on the loaded pair model: the vertex
    (1, 0, 0) of the triangle goes to (0.975, 0, 0). *)
Lemma example_loaded_stroke (loaded : EditableScene) :
  Loaded.processLoadedModel Example.computeVertexNormals Example.emptyScene
    Samples.pairModel = Returns loaded ->
  scenePositions
    (scene (run Example.computeVertexNormals (mount Samples.smoothBrush loaded)
              Samples.smoothStroke)) !! 1%nat
  = Some (mkVector3 0.975 0 0).
Proof.
  intros Hload. injection Hload as <-.
  set (cvn := Example.computeVertexNormals).
  set (loaded :=
    mkScene
      (Some (mkMesh (Some (recompute cvn (mkGeometry Example.triangle [] None)))
               Matrix4.identity))
      Vector3.zero false (mkVector2 0 0) (Some Example.triangle) false
      (mkVector2 0 0)).
  set (r0 := render Samples.smoothBrush loaded).
  set (r1 := mkRender Samples.smoothBrush true (mkVector2 0 0)).
  set (st1 := handlePointerDown loaded 0).
  set (hit := mkIntersection Vector3.zero None).
  set (st2 := handlePointerMove cvn r1 st1 1 1 (mkRect 0 0 2 2) [hit]).
  assert (H1 : dispatch cvn (mount Samples.smoothBrush loaded)
                 (Samples.smoothBrush, pointerdown 0)
               = mkViewer st1 (Some r1)).
  { exact (pointerdown_registers cvn (mkViewer loaded (Some r0)) r0
             eq_refl eq_refl). }
  assert (H2 : dispatch cvn (mkViewer st1 (Some r1))
                 (Samples.smoothBrush, pointermove 1 1 (mkRect 0 0 2 2) [hit])
               = mkViewer st2 (Some r1)).
  { exact (pointermove_keeps_listeners cvn (mkViewer st1 (Some r1)) r1 1 1
             (mkRect 0 0 2 2) [hit] eq_refl eq_refl). }
  change (run cvn (mount Samples.smoothBrush loaded) Samples.smoothStroke)
    with (dispatch cvn
            (dispatch cvn (mount Samples.smoothBrush loaded)
               (Samples.smoothBrush, pointerdown 0))
            (Samples.smoothBrush, pointermove 1 1 (mkRect 0 0 2 2) [hit])).
  rewrite H1, H2. cbn [scene]. unfold st2.
  rewrite handlePointerMove_positions by reflexivity.
  assert (Hinv1 : inverseMatrixOf st1 = Matrix4.identity) by exact invert_identity.
  rewrite Hinv1, applyMatrix4_identity, lookup_map.
  change (scenePositions st1 !! 1%nat) with (Some (mkVector3 1 0 0)).
  cbn [option_map point hit]. f_equal.
  rewrite (sculptVertex_inside _ _ _ _ _ _ _ 1 example_dist1)
    by (cbn [brushSize r_brush r1 Samples.smoothBrush]; lra).
  unfold toolEffect, Vector3.lerp, Vector3.zero.
  cbn [activeTool brushStrength brushSize r_brush r1 Samples.smoothBrush vx vy vz].
  f_equal; lra.
Qed.

(** C9, as the code has it. [processLoadedModel] takes as the sculpted
    mesh the first mesh in traversal order: the one that only nodes that
    are no mesh precede, whatever follows it. When that mesh's geometry
    has a position attribute, whatever the array holds (no vertex at
    all, triangle indices out of range), the call returns with the
    normals recomputed and with [originalVertices] a copy of the
    position array that no later pointer event alters. The only
    exception is the TypeError raised when the geometry has no position
    attribute; it leaves the component's state as it was. The uploader's
    validation accepts exactly the models with at least one child and
    one mesh that has a geometry. *)
Theorem processLoadedModel_captures
    (computeVertexNormals : option (list nat) -> list Vector3 -> list Vector3)
    (st0 : EditableScene) (loadedObject : LoadedObject3D)
    (pre post : list (option LoadedMesh)) (mainMesh : LoadedMesh) :
  Loaded.traverse loadedObject = pre ++ Some mainMesh :: post ->
  Forall (fun visited => visited = None) pre ->
  (forall (g : LoadedGeometry) (positions : list Vector3),
     loadedGeometry mainMesh = Some g ->
     attributes_position g = Some positions ->
     exists loaded : EditableScene,
       Loaded.processLoadedModel computeVertexNormals st0 loadedObject
       = Returns loaded
       /\ sceneGeometry loaded
          = Some (mkGeometry positions
                    (computeVertexNormals (loadedIndex g) positions) (loadedIndex g))
       /\ originalVertices loaded = Some positions
       /\ isLoading loaded = false
       /\ forall (b : Brush) (steps : list (Brush * PointerEvent)),
            originalVertices
              (scene (run computeVertexNormals (mount b loaded) steps))
            = Some positions)
  /\ (forall g : LoadedGeometry,
        loadedGeometry mainMesh = Some g ->
        attributes_position g = None ->
        Loaded.processLoadedModel computeVertexNormals st0 loadedObject
        = ThrowsTypeError st0)
  /\ (forall model : Object3D,
        Loaded.processLoadedModel computeVertexNormals st0 (Loaded.ofObject3D model)
        = Returns (processLoadedModel computeVertexNormals st0 model))
  /\ (forall model : Object3D,
        validateAndProcessModel model = onModelLoaded model
        <-> children_of model <> []
            /\ existsb isValidGeometry (traverse model) = true).
Proof.
  intros Htraverse Hpre.
  assert (Hfirst : Loaded.firstMesh (Loaded.traverse loadedObject) = Some mainMesh).
  { rewrite Htraverse. now apply firstMesh_first. }
  split; [|split; [|split]].
  - intros g positions Hg Hpos.
    unfold Loaded.processLoadedModel. rewrite Hfirst, Hg, Hpos.
    eexists. split; [reflexivity|].
    split; [reflexivity|]. split; [reflexivity|]. split; [reflexivity|].
    intros b steps.
    apply (tracks_run computeVertexNormals
             (mkGeometry positions (attributes_normal g) (loadedIndex g)) steps).
    split; [reflexivity|].
    eexists _, _. split; [reflexivity|]. split; [reflexivity|].
    split; reflexivity.
  - intros g Hg Hpos.
    unfold Loaded.processLoadedModel. now rewrite Hfirst, Hg, Hpos.
  - intros model. apply processLoadedModel_ofObject3D.
  - intros model. apply validate_accepts.
Qed.

Lemma processLoadedModel_captures_witness :
  (exists loaded : EditableScene,
     Loaded.processLoadedModel Example.computeVertexNormals Example.emptyScene
       Samples.pairModel = Returns loaded
     /\ scenePositions loaded = Example.triangle
     /\ originalVertices loaded = Some Example.triangle
     /\ scenePositions
          (scene (run Example.computeVertexNormals
                    (mount Samples.smoothBrush loaded) Samples.smoothStroke))
        !! 1%nat = Some (mkVector3 0.975 0 0)
     /\ originalVertices
          (scene (run Example.computeVertexNormals
                    (mount Samples.smoothBrush loaded) Samples.smoothStroke))
        = Some Example.triangle)
  /\ Loaded.processLoadedModel Example.computeVertexNormals Example.emptyScene
       Samples.bareModel = ThrowsTypeError Example.emptyScene.
Proof.
  split.
  2:{ destruct (processLoadedModel_captures Example.computeVertexNormals
                  Example.emptyScene Samples.bareModel [None]
                  [Some Samples.triangleMesh]
                  (mkLoadedMesh (Some (mkLoadedGeometry None [] None))
                     Matrix4.identity))
        as [_ [Hthrows _]].
      - reflexivity.
      - repeat constructor.
      - exact (Hthrows (mkLoadedGeometry None [] None) eq_refl eq_refl). }
  destruct (processLoadedModel_captures Example.computeVertexNormals
              Example.emptyScene Samples.pairModel [None; None]
              [Some Samples.pointMesh] Samples.triangleMesh)
    as [Hloads _].
  - reflexivity.
  - repeat constructor.
  - destruct (Hloads (mkLoadedGeometry (Some Example.triangle) [] None)
                Example.triangle eq_refl eq_refl)
      as (loaded & Hload & Hgeom & Hsnap & _ & Hkeeps).
    exists loaded. split; [exact Hload|].
    split; [unfold scenePositions; rewrite Hgeom; reflexivity|].
    split; [exact Hsnap|].
    split; [exact (example_loaded_stroke loaded Hload)|].
    apply Hkeeps.
Defined.


(** ** Move *)

(** With the Move tool, a vertex within the brush is shifted along the
    local x axis by the cursor's x delta and against the local y axis by
    its y delta, each times [brushStrength * falloff * 0.02]; the normal
    plays no part. The delta is [mouse - lastMousePosition] for the
    [lastMousePosition] of the render that created [sculptMesh]. *)
Lemma move_displacement
    (computeVertexNormals : option (list nat) -> list Vector3 -> list Vector3)
    b last st point normal i p :
  activeTool b = MOVE ->
  scenePositions st !! i = Some p ->
  Vector3.distanceTo p (localPointOf st point) < brushSize b ->
  scenePositions (sculptMesh computeVertexNormals b last st point normal) !! i
  = Some (mkVector3
            (vx p + (x2 (mouse st) - x2 last)
                    * (brushStrength b
                       * (1 - Vector3.distanceTo p (localPointOf st point) / brushSize b)
                       * 0.02))
            (vy p - (y2 (mouse st) - y2 last)
                    * (brushStrength b
                       * (1 - Vector3.distanceTo p (localPointOf st point) / brushSize b)
                       * 0.02))
            (vz p)).
Proof.
  intros Ht Hp Hnear. rewrite sculptMesh_lookup, Hp. cbn [option_map].
  rewrite (sculptVertex_inside _ _ _ _ _ _ _ _ eq_refl) by exact Hnear.
  unfold toolEffect. now rewrite Ht.
Qed.

Lemma example_move_first (mx my : R) (last : Vector2) :
  mx = 0.1 -> my = 0 -> last = mkVector2 0 0 ->
  sculptVertex Example.moveBrush Vector3.zero Matrix4.identity None
    (mkVector2 mx my) last (mkVector3 0 0 0)
  = mkVector3 0.1 0 0.
Proof.
  intros -> -> ->.
  rewrite (sculptVertex_inside _ _ _ _ _ _ _ 0 example_dist0)
    by (cbn [brushSize Example.moveBrush]; lra).
  unfold toolEffect, Example.moveBrush.
  cbn [activeTool brushStrength brushSize vx vy vz x2 y2].
  f_equal; lra.
Qed.

Lemma example_move_second (mx my : R) (last : Vector2) :
  mx = 0.2 -> my = 0 -> last = mkVector2 0 0 ->
  sculptVertex Example.moveBrush (mkVector3 0.1 0 0) Matrix4.identity None
    (mkVector2 mx my) last (mkVector3 0.1 0 0)
  = mkVector3 0.3 0 0.
Proof.
  intros -> -> ->.
  rewrite (sculptVertex_inside _ _ _ _ _ _ _ 0 (distanceTo_self _))
    by (cbn [brushSize Example.moveBrush]; lra).
  unfold toolEffect, Example.moveBrush.
  cbn [activeTool brushStrength brushSize vx vy vz x2 y2].
  f_equal; lra.
Qed.

(** C6 on the code. In the stroke [Example.moveStroke] the cursor samples
    are (0, 0) at button down, then (0.1, 0), then (0.2, 0); the vertex
    under the brush has falloff 1 and move factor 1 at both moves. The
    first move shifts it by the delta 0.1 to x = 0.1 and stores (0.1, 0)
    as [lastMousePosition]. The second move is handled by the same
    listeners, those registered after the button went down, so
    its delta is taken from (0, 0): the vertex is shifted by 0.2, to
    x = 0.3, where the delta since the previous sample gives 0.2. *)
Theorem move_delta_from_button_down :
  let v0 := mount Example.moveBrush Example.scene0 in
  let v2 := run Example.computeVertexNormals v0 (firstn 2 Example.moveStroke) in
  let v3 := run Example.computeVertexNormals v0 Example.moveStroke in
  scenePositions (scene v2) !! 0%nat = Some (mkVector3 0.1 0 0)
  /\ x2 (lastMousePosition (scene v2)) = 0.1
  /\ y2 (lastMousePosition (scene v2)) = 0
  /\ listeners v2 = Some (mkRender Example.moveBrush true (mkVector2 0 0))
  /\ scenePositions (scene v3) !! 0%nat = Some (mkVector3 0.3 0 0)
  /\ scenePositions (scene v3) !! 0%nat <> Some (mkVector3 0.2 0 0).
Proof.
  cbv zeta.
  set (cvn := Example.computeVertexNormals).
  set (r0 := render Example.moveBrush Example.scene0).
  set (r1 := mkRender Example.moveBrush true (mkVector2 0 0)).
  set (st1 := handlePointerDown Example.scene0 0).
  set (hit0 := mkIntersection (mkVector3 0 0 0) None).
  set (hit1 := mkIntersection (mkVector3 0.1 0 0) None).
  set (st2 := handlePointerMove cvn r1 st1 1.1 1 Example.canvas [hit0]).
  set (st3 := handlePointerMove cvn r1 st2 1.2 1 Example.canvas [hit1]).
  assert (H1 : dispatch cvn (mount Example.moveBrush Example.scene0)
                 (Example.moveBrush, pointerdown 0)
               = mkViewer st1 (Some r1)).
  { exact (pointerdown_registers cvn (mkViewer Example.scene0 (Some r0)) r0
             eq_refl eq_refl). }
  assert (H2 : dispatch cvn (mkViewer st1 (Some r1))
                 (Example.moveBrush, pointermove 1.1 1 Example.canvas [hit0])
               = mkViewer st2 (Some r1)).
  { exact (pointermove_keeps_listeners cvn (mkViewer st1 (Some r1)) r1 1.1 1
             Example.canvas [hit0] eq_refl eq_refl). }
  assert (Hmod2 : isModifying st2 = true).
  { unfold st2. now rewrite handlePointerMove_isModifying. }
  assert (H3 : dispatch cvn (mkViewer st2 (Some r1))
                 (Example.moveBrush, pointermove 1.2 1 Example.canvas [hit1])
               = mkViewer st3 (Some r1)).
  { exact (pointermove_keeps_listeners cvn (mkViewer st2 (Some r1)) r1 1.2 1
             Example.canvas [hit1] eq_refl Hmod2). }
  assert (Hv2 : run cvn (mount Example.moveBrush Example.scene0)
                  (firstn 2 Example.moveStroke) = mkViewer st2 (Some r1)).
  { cbn [firstn Example.moveStroke run fold_left]. fold hit0.
    now rewrite H1, H2. }
  assert (Hv3 : run cvn (mount Example.moveBrush Example.scene0)
                  Example.moveStroke = mkViewer st3 (Some r1)).
  { cbn [Example.moveStroke run fold_left]. fold hit0 hit1.
    now rewrite H1, H2, H3. }
  assert (Hinv1 : inverseMatrixOf st1 = Matrix4.identity) by exact invert_identity.
  assert (Hinv2 : inverseMatrixOf st2 = Matrix4.identity).
  { unfold st2. now rewrite handlePointerMove_inverse. }
  assert (Hpos2 : scenePositions st2 !! 0%nat = Some (mkVector3 0.1 0 0)).
  { unfold st2. rewrite handlePointerMove_positions by reflexivity.
    rewrite Hinv1, applyMatrix4_identity. rewrite lookup_map.
    change (scenePositions st1 !! 0%nat) with (Some (mkVector3 0 0 0)).
    cbn [option_map]. f_equal.
    apply example_move_first; cbn [left top width height Example.canvas];
      [lra | lra | reflexivity]. }
  assert (Hpos3 : scenePositions st3 !! 0%nat = Some (mkVector3 0.3 0 0)).
  { unfold st3. rewrite handlePointerMove_positions by reflexivity.
    rewrite Hinv2, applyMatrix4_identity. rewrite lookup_map, Hpos2.
    cbn [option_map]. f_equal.
    apply example_move_second; cbn [left top width height Example.canvas];
      [lra | lra | reflexivity]. }
  rewrite Hv2, Hv3. cbn [scene listeners].
  split; [exact Hpos2|].
  assert (Hlast : lastMousePosition st2
                  = mkVector2 (((1.1 - 0) / 2) * 2 - 1) (- ((1 - 0) / 2) * 2 + 1))
    by reflexivity.
  split; [rewrite Hlast; cbn [x2]; lra|].
  split; [rewrite Hlast; cbn [y2]; lra|].
  split; [reflexivity|]. split; [exact Hpos3|].
  rewrite Hpos3. intros Heq. injection Heq as Hx. lra.
Qed.

(** * Further properties of the sculpting code *)

(** ** What a call of [sculptMesh] leaves alone *)

(** X1. A call of [sculptMesh] never adds or removes a vertex and never
    touches the triangle connectivity, the mesh's world matrix, the
    [originalVertices] snapshot, the stroke flag or the brush cursor. *)
Theorem sculptMesh_frame
    (computeVertexNormals : option (list nat) -> list Vector3 -> list Vector3)
    (b : Brush) (last : Vector2) (st : EditableScene) (point : Vector3)
    (normal : option Vector3) :
  let st' := sculptMesh computeVertexNormals b last st point normal in
  length (scenePositions st') = length (scenePositions st)
  /\ sceneIndex st' = sceneIndex st
  /\ sceneMatrix st' = sceneMatrix st
  /\ originalVertices st' = originalVertices st
  /\ isModifying st' = isModifying st
  /\ brushPosition st' = brushPosition st
  /\ mouse st' = mouse st.
Proof.
  cbv zeta. split; [apply sculptMesh_length|].
  unfold sculptMesh, sceneIndex, sceneMatrix, sceneGeometry.
  destruct (meshRef st) as [mesh|] eqn:Hm; [|rewrite Hm; repeat split].
  destruct (geometry mesh) as [g|] eqn:Hg; [|rewrite Hm, Hg; repeat split].
  cbn. repeat split.
Qed.

(** ** Move *)

(** X2. With the Move tool every vertex keeps its z coordinate, and all
    vertices within the brush are shifted in one direction: by the cursor
    delta's x along x and against its y along y, each scaled by
    [brushStrength * falloff * 0.02]. When the cursor has not moved since
    the stored position, no vertex moves. *)
Theorem move_shift
    (computeVertexNormals : option (list nat) -> list Vector3 -> list Vector3)
    (b : Brush) (last : Vector2) (st : EditableScene) (point : Vector3)
    (normal : option Vector3) (i : nat) (p : Vector3) :
  activeTool b = MOVE ->
  scenePositions st !! i = Some p ->
  exists (q : Vector3) (k : R),
    scenePositions (sculptMesh computeVertexNormals b last st point normal) !! i
    = Some q
    /\ vz q = vz p
    /\ vx q - vx p = (x2 (mouse st) - x2 last) * k
    /\ vy q - vy p = - (y2 (mouse st) - y2 last) * k
    /\ (Vector3.distanceTo p (localPointOf st point) < brushSize b ->
        k = brushStrength b
            * (1 - Vector3.distanceTo p (localPointOf st point) / brushSize b)
            * 0.02)
    /\ (brushSize b <= Vector3.distanceTo p (localPointOf st point) -> k = 0)
    /\ (mouse st = last -> q = p).
Proof.
  intros Ht Hp. rewrite sculptMesh_lookup, Hp. cbn [option_map].
  unfold sculptVertex.
  destruct (Rlt_dec (Vector3.distanceTo p (localPointOf st point)) (brushSize b))
    as [Hin|Hout].
  - eexists _, (brushStrength b
                * (1 - Vector3.distanceTo p (localPointOf st point) / brushSize b)
                * 0.02).
    split; [reflexivity|]. unfold toolEffect. rewrite Ht. cbn [vx vy vz x2 y2].
    split; [reflexivity|]. split; [ring|]. split; [ring|].
    split; [reflexivity|]. split; [intros Hge; lra|].
    intros ->. destruct p as [x y z]. cbn [vx vy vz]. f_equal; ring.
  - exists p, 0. split; [reflexivity|]. split; [reflexivity|].
    split; [ring|]. split; [ring|]. split; [intros Hlt; contradiction|].
    split; reflexivity.
Qed.

Lemma move_shift_witness :
  scenePositions
    (sculptMesh Example.computeVertexNormals Example.moveBrush
       (mkVector2 (-0.1) 0.2) Example.scene0 Vector3.zero None) !! 0%nat
  = Some (mkVector3 0.1 0.2 0).
Proof.
  destruct (move_shift Example.computeVertexNormals Example.moveBrush
              (mkVector2 (-0.1) 0.2) Example.scene0 Vector3.zero None 0
              (mkVector3 0 0 0) eq_refl eq_refl)
    as (q & k & Hq & Hz & Hx & Hy & Hk & _).
  revert Hx Hy Hk. rewrite example_local, example_dist0.
  cbn [Example.scene0 mouse x2 y2 vx vy vz Example.moveBrush brushSize brushStrength].
  intros Hx Hy Hk. rewrite Hq.
  assert (Hk1 : k = 1) by (rewrite Hk; lra). subst k.
  destruct q as [qx qy qz]. cbn [vx vy vz] in Hz, Hx, Hy.
  f_equal; f_equal; lra.
Defined.

(** ** Smooth and Pinch pull toward the contact point *)

Lemma distanceTo_lerp (p c : Vector3) (f : R) :
  Vector3.distanceTo (Vector3.lerp p c f) c = Rabs (1 - f) * Vector3.distanceTo p c.
Proof.
  unfold Vector3.distanceTo.
  replace (Vector3.distanceToSquared (Vector3.lerp p c f) c)
    with (Rsqr (1 - f) * Vector3.distanceToSquared p c).
  - rewrite sqrt_mult; [|apply Rle_0_sqr|apply distanceToSquared_nonneg].
    now rewrite sqrt_Rsqr_abs.
  - unfold Vector3.distanceToSquared, Vector3.lerp, Rsqr. cbn [vx vy vz]. ring.
Qed.

Lemma toolEffect_toward b falloff c m normal mouse last p :
  activeTool b = SMOOTH \/ activeTool b = PINCH ->
  toolEffect b falloff c m normal mouse last p
  = Vector3.lerp p c (brushStrength b * falloff * 0.01).
Proof. intros [Ht|Ht]; unfold toolEffect; rewrite Ht; reflexivity. Qed.

Lemma toward_factor_bounds (s d r : R) :
  0 <= s <= 100 -> 0 <= d -> d < r ->
  0 <= s * (1 - d / r) * 0.01 <= 1.
Proof.
  intros Hs Hd Hlt. pose proof (falloff_bounds d r Hd Hlt) as Hf. nra.
Qed.

Lemma sculptVertex_toward_closer b c m normal mouse last p :
  activeTool b = SMOOTH \/ activeTool b = PINCH ->
  0 <= brushStrength b <= 100 ->
  Vector3.distanceTo (sculptVertex b c m normal mouse last p) c
  <= Vector3.distanceTo p c
  /\ (Vector3.distanceTo p c < brushSize b ->
      Vector3.distanceTo (sculptVertex b c m normal mouse last p) c
      = (1 - brushStrength b * (1 - Vector3.distanceTo p c / brushSize b) * 0.01)
        * Vector3.distanceTo p c).
Proof.
  intros Ht Hs. unfold sculptVertex.
  pose proof (distanceTo_nonneg p c) as Hd.
  destruct (Rlt_dec (Vector3.distanceTo p c) (brushSize b)) as [Hin|Hout].
  - pose proof (toward_factor_bounds _ _ _ Hs Hd Hin) as Hf.
    rewrite toolEffect_toward by exact Ht.
    rewrite distanceTo_lerp, Rabs_pos_eq by lra.
    split; [nra|]. intros _. reflexivity.
  - split; [lra|]. intros Hlt. contradiction.
Qed.

(** X3. With the Smooth or the Pinch tool and a strength between 0 and
    100, one call never takes a vertex farther from the local contact
    point: a vertex within the brush ends at [1 - strength * falloff *
    0.01] times its former distance, any other vertex keeps its
    position. *)
Theorem toward_contact_contracts
    (computeVertexNormals : option (list nat) -> list Vector3 -> list Vector3)
    (b : Brush) (last : Vector2) (st : EditableScene) (point : Vector3)
    (normal : option Vector3) (i : nat) (p : Vector3) :
  activeTool b = SMOOTH \/ activeTool b = PINCH ->
  0 <= brushStrength b <= 100 ->
  scenePositions st !! i = Some p ->
  let c := localPointOf st point in
  exists q : Vector3,
    scenePositions (sculptMesh computeVertexNormals b last st point normal) !! i
    = Some q
    /\ Vector3.distanceTo q c <= Vector3.distanceTo p c
    /\ (Vector3.distanceTo p c < brushSize b ->
        Vector3.distanceTo q c
        = (1 - brushStrength b * (1 - Vector3.distanceTo p c / brushSize b) * 0.01)
          * Vector3.distanceTo p c)
    /\ (brushSize b <= Vector3.distanceTo p c -> q = p).
Proof.
  intros Ht Hs Hp c. rewrite sculptMesh_lookup, Hp. cbn [option_map].
  eexists. split; [reflexivity|].
  destruct (sculptVertex_toward_closer b c (inverseMatrixOf st) normal (mouse st)
              last p Ht Hs) as [Hle Hin].
  split; [exact Hle|]. split; [exact Hin|].
  intros Hout. now apply sculptVertex_outside.
Qed.

Lemma toward_contact_contracts_witness :
  (exists q : Vector3,
     scenePositions
       (sculptMesh Example.computeVertexNormals (mkBrush 2 5 SMOOTH)
          (mkVector2 0 0) Example.scene0 Vector3.zero None) !! 1%nat = Some q
     /\ Vector3.distanceTo q (localPointOf Example.scene0 Vector3.zero) = 0.975)
  /\ scenePositions
       (sculptMesh Example.computeVertexNormals (mkBrush 2 5 SMOOTH)
          (mkVector2 0 0) Example.scene0 Vector3.zero None) !! 2%nat
     = Some (mkVector3 0 3 0).
Proof.
  split.
  - destruct (toward_contact_contracts Example.computeVertexNormals
                (mkBrush 2 5 SMOOTH) (mkVector2 0 0) Example.scene0 Vector3.zero
                None 1 (mkVector3 1 0 0))
      as (q & Hq & _ & Hin & _).
    + now left.
    + cbn [brushStrength]. lra.
    + reflexivity.
    + exists q. split; [exact Hq|]. rewrite Hin.
      * rewrite example_dist_near. cbn [brushSize brushStrength]. lra.
      * rewrite example_dist_near. cbn [brushSize]. lra.
  - destruct (toward_contact_contracts Example.computeVertexNormals
                (mkBrush 2 5 SMOOTH) (mkVector2 0 0) Example.scene0 Vector3.zero
                None 2 (mkVector3 0 3 0))
      as (q & Hq & _ & _ & Hout).
    + now left.
    + cbn [brushStrength]. lra.
    + reflexivity.
    + rewrite Hq. f_equal. apply Hout.
      rewrite example_dist_far. cbn [brushSize]. lra.
Defined.

Lemma localPointOf_sculptMesh
    (computeVertexNormals : option (list nat) -> list Vector3 -> list Vector3)
    b last st point normal point' :
  localPointOf (sculptMesh computeVertexNormals b last st point normal) point'
  = localPointOf st point'.
Proof. unfold localPointOf. now rewrite sculptMesh_inverse. Qed.

(** ** The size of one step *)

Lemma length2_nonneg (dx dy : R) : 0 <= length2 dx dy.
Proof. apply sqrt_pos. Qed.

Lemma transformDirection_length_le_1 (n : Vector3) (m : Matrix4) :
  0 <= Vector3.length (transformDirection n m) <= 1.
Proof.
  split; [apply sqrt_pos|]. unfold transformDirection.
  destruct (normalize_unit_or_zero
              (mkVector3 (e0 m * vx n + e4 m * vy n + e8 m * vz n)
                 (e1 m * vx n + e5 m * vy n + e9 m * vz n)
                 (e2 m * vx n + e6 m * vy n + e10 m * vz n))) as [H1|H0].
  - rewrite H1. lra.
  - rewrite H0. unfold Vector3.length, Vector3.lengthSq, Vector3.zero.
    cbn [vx vy vz]. replace (0 * 0 + 0 * 0 + 0 * 0) with 0 by ring.
    rewrite sqrt_0. lra.
Qed.

Lemma displacement_move b c m normal mouse last p :
  activeTool b = MOVE ->
  Vector3.distanceTo p c < brushSize b ->
  Vector3.distanceTo (sculptVertex b c m normal mouse last p) p
  = Rabs (brushStrength b) * (1 - Vector3.distanceTo p c / brushSize b) * 0.02
    * length2 (x2 mouse - x2 last) (y2 mouse - y2 last).
Proof.
  intros Ht Hlt.
  rewrite (sculptVertex_inside _ _ _ _ _ _ _ _ eq_refl) by exact Hlt.
  unfold toolEffect. rewrite Ht. cbv zeta. cbn [x2 y2].
  set (k := brushStrength b * (1 - Vector3.distanceTo p c / brushSize b) * 0.02).
  set (dx := x2 mouse - x2 last). set (dy := y2 mouse - y2 last).
  unfold Vector3.distanceTo, length2.
  replace (Vector3.distanceToSquared _ p) with (Rsqr k * (dx * dx + dy * dy)).
  - rewrite sqrt_mult; [|apply Rle_0_sqr|].
    + rewrite sqrt_Rsqr_abs. f_equal. unfold k. apply Rabs_damped; [|lra].
      pose proof (falloff_bounds _ _ (distanceTo_nonneg p c) Hlt) as Hf.
      unfold Vector3.distanceTo in Hf. lra.
    + pose proof (Rle_0_sqr dx). pose proof (Rle_0_sqr dy). unfold Rsqr in *. lra.
  - unfold Vector3.distanceToSquared, Rsqr. cbn [vx vy vz]. ring.
Qed.

(** X5. One call moves no vertex by more than a bound fixed by the
    brush: |strength| * 0.01 with Sculpt, |strength| * 0.01 * radius / 4
    with Smooth or Pinch, and |strength| * 0.02 times the length of the
    cursor delta with Move. *)
Theorem step_bounded
    (computeVertexNormals : option (list nat) -> list Vector3 -> list Vector3)
    (b : Brush) (last : Vector2) (st : EditableScene) (point : Vector3)
    (normal : option Vector3) (i : nat) :
  0 < brushSize b ->
  displacement (scenePositions st)
    (scenePositions (sculptMesh computeVertexNormals b last st point normal)) i
  <= stepBound b (length2 (x2 (mouse st) - x2 last) (y2 (mouse st) - y2 last)).
Proof.
  intros Hr.
  pose proof (Rabs_pos (brushStrength b)) as Hs.
  pose proof (length2_nonneg (x2 (mouse st) - x2 last) (y2 (mouse st) - y2 last))
    as Hl.
  assert (Hbound : 0 <= stepBound b (length2 (x2 (mouse st) - x2 last)
                                       (y2 (mouse st) - y2 last))).
  { unfold stepBound. destruct (activeTool b); nra. }
  destruct (scenePositions st !! i) as [p|] eqn:Hp.
  2:{ unfold displacement. now rewrite Hp. }
  rewrite (displacement_sculptMesh _ _ _ _ _ _ _ _ Hp).
  set (c := localPointOf st point).
  destruct (Rlt_dec (Vector3.distanceTo p c) (brushSize b)) as [Hin|Hout].
  2:{ rewrite sculptVertex_outside by lra. now rewrite distanceTo_self. }
  pose proof (distanceTo_nonneg p c) as Hd.
  pose proof (falloff_bounds _ _ Hd Hin) as Hf.
  unfold stepBound. destruct (activeTool b) eqn:Ht.
  - rewrite displacement_move by assumption.
    assert (Hprod : 0 <= Rabs (brushStrength b)
                         * length2 (x2 (mouse st) - x2 last) (y2 (mouse st) - y2 last))
      by (apply Rmult_le_pos; assumption).
    nra.
  - destruct normal as [n|].
    + rewrite displacement_sculpt by assumption.
      pose proof (transformDirection_length_le_1 n (inverseMatrixOf st)) as HN.
      assert (Hprod : Rabs (brushStrength b)
                      * Vector3.length (transformDirection n (inverseMatrixOf st))
                      <= Rabs (brushStrength b)) by nra.
      assert (Hprod0 : 0 <= Rabs (brushStrength b)
                          * Vector3.length (transformDirection n (inverseMatrixOf st)))
        by (apply Rmult_le_pos; lra).
      nra.
    + rewrite (sculptVertex_inside _ _ _ _ _ _ _ _ eq_refl) by exact Hin.
      unfold toolEffect. rewrite Ht, distanceTo_self. nra.
  - rewrite displacement_toward by (auto || assumption).
    assert (Hpar : (1 - Vector3.distanceTo p c / brushSize b)
                   * Vector3.distanceTo p c <= brushSize b / 4).
    { replace ((1 - Vector3.distanceTo p c / brushSize b) * Vector3.distanceTo p c)
        with ((brushSize b - Vector3.distanceTo p c) * Vector3.distanceTo p c
              / brushSize b) by (field; lra).
      apply (Rmult_le_reg_r (brushSize b)); [exact Hr|].
      unfold Rdiv at 1. rewrite Rmult_assoc, Rinv_l by lra.
      pose proof (Rle_0_sqr (brushSize b - 2 * Vector3.distanceTo p c)) as Hsq.
      unfold Rsqr in Hsq. nra. }
    nra.
  - rewrite displacement_toward by (auto || assumption).
    assert (Hpar : (1 - Vector3.distanceTo p c / brushSize b)
                   * Vector3.distanceTo p c <= brushSize b / 4).
    { replace ((1 - Vector3.distanceTo p c / brushSize b) * Vector3.distanceTo p c)
        with ((brushSize b - Vector3.distanceTo p c) * Vector3.distanceTo p c
              / brushSize b) by (field; lra).
      apply (Rmult_le_reg_r (brushSize b)); [exact Hr|].
      unfold Rdiv at 1. rewrite Rmult_assoc, Rinv_l by lra.
      pose proof (Rle_0_sqr (brushSize b - 2 * Vector3.distanceTo p c)) as Hsq.
      unfold Rsqr in Hsq. nra. }
    nra.
Qed.

Lemma step_bounded_witness :
  displacement (scenePositions Example.scene0)
    (scenePositions
       (sculptMesh Example.computeVertexNormals (mkBrush 2 5 SCULPT)
          (mkVector2 0 0) Example.scene0 Vector3.zero (Some (mkVector3 0 0 1)))) 1
  <= stepBound (mkBrush 2 5 SCULPT)
       (length2 (x2 (mouse Example.scene0) - 0) (y2 (mouse Example.scene0) - 0)).
Proof.
  apply (step_bounded Example.computeVertexNormals (mkBrush 2 5 SCULPT)
           (mkVector2 0 0) Example.scene0 Vector3.zero (Some (mkVector3 0 0 1)) 1).
  cbn [brushSize]. lra.
Defined.

(** ** Each vertex on its own *)

(** X6. The in-place loop treats every vertex on its own: the new
    position of a vertex depends on its old position and the call's
    arguments only, not on its index nor on any other vertex of the
    attribute. *)
Theorem sculptLoop_vertexwise
    (b : Brush) (localPoint : Vector3) (inverseMatrix : Matrix4)
    (normal : option Vector3) (mouse last : Vector2)
    (posAttr posAttr' : list Vector3) (i j : nat) :
  posAttr !! i = posAttr' !! j ->
  sculptLoop b localPoint inverseMatrix normal mouse last posAttr !! i
  = sculptLoop b localPoint inverseMatrix normal mouse last posAttr' !! j.
Proof.
  intros Heq. rewrite !sculptLoop_map, !lookup_map. now rewrite Heq.
Qed.

Lemma sculptLoop_vertexwise_witness :
  sculptLoop (mkBrush 2 5 SMOOTH) Vector3.zero Matrix4.identity None
    (mkVector2 0 0) (mkVector2 0 0) Example.triangle !! 1%nat
  = sculptLoop (mkBrush 2 5 SMOOTH) Vector3.zero Matrix4.identity None
      (mkVector2 0 0) (mkVector2 0 0) [mkVector3 1 0 0] !! 0%nat.
Proof.
  apply sculptLoop_vertexwise. reflexivity.
Defined.

(** ** The local contact point *)

Lemma distance_under_scale (s : R) (t p point : Vector3) :
  0 < s ->
  Vector3.distanceTo p (applyMatrix4 point (Matrix4.invert (scaleTranslation s t)))
  = Vector3.distanceTo (applyMatrix4 p (scaleTranslation s t)) point / s.
Proof.
  intros Hs. rewrite invert_scaleTranslation by lra.
  unfold Vector3.distanceTo.
  replace (Vector3.distanceToSquared p
             (applyMatrix4 point
                (scaleTranslation (/ s)
                   (mkVector3 (- vx t / s) (- vy t / s) (- vz t / s)))))
    with (Vector3.distanceToSquared (applyMatrix4 p (scaleTranslation s t)) point
          * Rsqr (/ s)).
  - rewrite sqrt_mult; [|apply distanceToSquared_nonneg|apply Rle_0_sqr].
    rewrite sqrt_Rsqr; [reflexivity|].
    left. now apply Rinv_0_lt_compat.
  - unfold Vector3.distanceToSquared, applyMatrix4, scaleTranslation, Rsqr.
    cbn [e0 e1 e2 e3 e4 e5 e6 e7 e8 e9 e10 e11 e12 e13 e14 e15 vx vy vz].
    field. lra.
Qed.

(** X8. The brush radius is measured in the mesh's local units. For an
    unrotated mesh with uniform scale [s], a vertex's local distance to
    the contact point is its world distance divided by [s]; so the
    vertices a call can move are those whose world position lies within
    [s * brushSize] of the hit, and every other vertex is left alone. *)
Theorem brush_radius_in_world
    (computeVertexNormals : option (list nat) -> list Vector3 -> list Vector3)
    (b : Brush) (last : Vector2) (st : EditableScene) (mesh : Mesh)
    (point : Vector3) (normal : option Vector3) (s : R) (t : Vector3)
    (i : nat) (p : Vector3) :
  meshRef st = Some mesh ->
  matrixWorld mesh = scaleTranslation s t ->
  0 < s ->
  scenePositions st !! i = Some p ->
  Vector3.distanceTo p (localPointOf st point)
  = Vector3.distanceTo (applyMatrix4 p (matrixWorld mesh)) point / s
  /\ (s * brushSize b <= Vector3.distanceTo (applyMatrix4 p (matrixWorld mesh)) point ->
      scenePositions (sculptMesh computeVertexNormals b last st point normal) !! i
      = Some p).
Proof.
  intros Hm Hmat Hs Hp.
  assert (Hdist : Vector3.distanceTo p (localPointOf st point)
                  = Vector3.distanceTo (applyMatrix4 p (matrixWorld mesh)) point / s).
  { unfold localPointOf, inverseMatrixOf. rewrite Hm, Hmat.
    now apply distance_under_scale. }
  split; [exact Hdist|]. intros Hfar.
  apply sculptMesh_keeps; [exact Hp|]. rewrite Hdist.
  apply (Rmult_le_reg_r s); [exact Hs|].
  unfold Rdiv. rewrite Rmult_assoc, Rinv_l by lra. lra.
Qed.

Lemma brush_radius_in_world_witness :
  Vector3.distanceTo (mkVector3 0 3 0)
    (localPointOf Samples.scaledScene (mkVector3 1 0 0))
  = Vector3.distanceTo
      (applyMatrix4 (mkVector3 0 3 0) (matrixWorld Samples.scaledMesh))
      (mkVector3 1 0 0) / 2
  /\ Vector3.distanceTo
       (applyMatrix4 (mkVector3 0 3 0) (matrixWorld Samples.scaledMesh))
       (mkVector3 1 0 0) = 6
  /\ scenePositions
       (sculptMesh Example.computeVertexNormals (mkBrush 2.5 5 SMOOTH)
          (mkVector2 0 0) Samples.scaledScene (mkVector3 1 0 0) None) !! 2%nat
     = Some (mkVector3 0 3 0).
Proof.
  assert (Hworld :
    Vector3.distanceTo
      (applyMatrix4 (mkVector3 0 3 0) (matrixWorld Samples.scaledMesh))
      (mkVector3 1 0 0) = 6).
  { apply distanceTo_eq; [lra|].
    unfold Vector3.distanceToSquared, applyMatrix4, Samples.scaledMesh,
      scaleTranslation.
    cbn [matrixWorld e0 e1 e2 e3 e4 e5 e6 e7 e8 e9 e10 e11 e12 e13 e14 e15
         vx vy vz].
    field. }
  destruct (brush_radius_in_world Example.computeVertexNormals
              (mkBrush 2.5 5 SMOOTH) (mkVector2 0 0) Samples.scaledScene
              Samples.scaledMesh (mkVector3 1 0 0) None 2 (mkVector3 1 0 0) 2
              (mkVector3 0 3 0)) as [Hdist Hkeep].
  - reflexivity.
  - reflexivity.
  - lra.
  - reflexivity.
  - split; [exact Hdist|]. split; [exact Hworld|].
    apply Hkeep. rewrite Hworld. cbn [brushSize]. lra.
Defined.

(** ** Pointer sessions *)

Section Sessions.

Variable computeVertexNormals : option (list nat) -> list Vector3 -> list Vector3.

Lemma synced_mount b st : synced (mount b st).
Proof.
  intros r. unfold mount. cbn [listeners scene].
  destruct (meshRef st); [|discriminate]. intros [= <-]. reflexivity.
Qed.

Lemma synced_dispatch v step :
  synced v -> synced (dispatch computeVertexNormals v step).
Proof.
  intros Hs. destruct step as [b ev]. unfold dispatch.
  destruct (listeners v) as [r0|] eqn:Hl; [|exact Hs].
  set (r := if Brush_eq_dec b (r_brush r0) then r0 else render b (scene v)).
  intros r'. cbn [listeners scene].
  destruct (Bool.eqb _ (r_isModifying r)) eqn:Heq.
  - intros [= <-]. symmetry. now apply Bool.eqb_prop.
  - intros [= <-]. reflexivity.
Qed.

Lemma synced_run steps v :
  synced v -> synced (run computeVertexNormals v steps).
Proof.
  revert v. induction steps as [|step steps IH]; intros v Hs; [exact Hs|].
  cbn [run fold_left]. apply IH. now apply synced_dispatch.
Qed.

Lemma handlePointerMove_idle r st cx cy rect hits :
  r_isModifying r = false ->
  meshRef (handlePointerMove computeVertexNormals r st cx cy rect hits) = meshRef st
  /\ originalVertices (handlePointerMove computeVertexNormals r st cx cy rect hits)
     = originalVertices st
  /\ lastMousePosition (handlePointerMove computeVertexNormals r st cx cy rect hits)
     = lastMousePosition st.
Proof.
  intros Hr. unfold handlePointerMove. cbv zeta. rewrite Hr.
  destruct hits; repeat split.
Qed.

Lemma idle_dispatch v step :
  synced v ->
  isModifying (scene v) = false ->
  notLeftPress step ->
  meshRef (scene (dispatch computeVertexNormals v step)) = meshRef (scene v)
  /\ originalVertices (scene (dispatch computeVertexNormals v step))
     = originalVertices (scene v)
  /\ lastMousePosition (scene (dispatch computeVertexNormals v step))
     = lastMousePosition (scene v)
  /\ isModifying (scene (dispatch computeVertexNormals v step)) = false.
Proof.
  intros Hs Hidle Hstep. destruct step as [b ev]. unfold notLeftPress in Hstep.
  cbn [snd] in Hstep. unfold dispatch.
  destruct (listeners v) as [r0|] eqn:Hl; [|repeat split; exact Hidle].
  set (r := if Brush_eq_dec b (r_brush r0) then r0 else render b (scene v)).
  assert (Hr : r_isModifying r = false).
  { unfold r. destruct (Brush_eq_dec b (r_brush r0)).
    - rewrite (Hs r0 Hl). exact Hidle.
    - exact Hidle. }
  cbn [scene]. destruct ev as [cx cy rect hits | button | | ].
  - destruct (handlePointerMove_idle r (scene v) cx cy rect hits Hr)
      as (Hm & Ho & Hlast).
    repeat split; try assumption.
    now rewrite handlePointerMove_isModifying.
  - destruct button as [|button]; [contradiction|].
    repeat split; exact Hidle.
  - repeat split.
  - repeat split.
Qed.

End Sessions.

(** X9. While the left button is not held, nothing sculpts: from any
    state a mounted scene can reach with the stroke flag off, every
    sequence of pointer events without a press of the left button (moves
    over the mesh, presses of other buttons, releases, leaves, under any
    props) leaves the mesh with its positions and normals, the snapshot
    and the stored cursor position exactly as they were. *)
Theorem idle_never_sculpts
    (computeVertexNormals : option (list nat) -> list Vector3 -> list Vector3)
    (b : Brush) (st : EditableScene) (before steps : list (Brush * PointerEvent)) :
  let v := run computeVertexNormals (mount b st) before in
  isModifying (scene v) = false ->
  Forall notLeftPress steps ->
  meshRef (scene (run computeVertexNormals v steps)) = meshRef (scene v)
  /\ originalVertices (scene (run computeVertexNormals v steps))
     = originalVertices (scene v)
  /\ lastMousePosition (scene (run computeVertexNormals v steps))
     = lastMousePosition (scene v)
  /\ isModifying (scene (run computeVertexNormals v steps)) = false.
Proof.
  intros v Hidle Hsteps.
  assert (Hs : synced v) by (apply synced_run, synced_mount).
  clearbody v. revert v Hidle Hs.
  induction Hsteps as [|step steps Hstep _ IH]; intros v Hidle Hs.
  - repeat split. exact Hidle.
  - cbn [run fold_left].
    destruct (idle_dispatch computeVertexNormals v step Hs Hidle Hstep)
      as (Hm & Ho & Hl & Hi).
    destruct (IH (dispatch computeVertexNormals v step) Hi
                (synced_dispatch computeVertexNormals v step Hs))
      as (Hm' & Ho' & Hl' & Hi').
    fold (run computeVertexNormals (dispatch computeVertexNormals v step) steps).
    repeat split; congruence.
Qed.

Lemma idle_never_sculpts_witness :
  meshRef
    (scene
       (run Example.computeVertexNormals
          (run Example.computeVertexNormals
             (mount (mkBrush 2 5 SMOOTH) Example.scene0) [])
          [(mkBrush 2 5 SMOOTH,
            pointermove 1 1 Example.canvas [mkIntersection Vector3.zero None]);
           (mkBrush 2 5 SMOOTH, pointerdown 2);
           (mkBrush 2 5 SMOOTH,
            pointermove 1.5 1 Example.canvas [mkIntersection Vector3.zero None])]))
  = meshRef
      (scene
         (run Example.computeVertexNormals
            (mount (mkBrush 2 5 SMOOTH) Example.scene0) [])).
Proof.
  apply (idle_never_sculpts Example.computeVertexNormals (mkBrush 2 5 SMOOTH)
           Example.scene0 []).
  - reflexivity.
  - repeat constructor; unfold notLeftPress; cbn [snd]; discriminate.
Defined.

Lemma press_registers
    (computeVertexNormals : option (list nat) -> list Vector3 -> list Vector3)
    v b :
  synced v ->
  listeners v <> None ->
  isModifying (scene v) = false ->
  listeners (dispatch computeVertexNormals v (b, pointerdown 0))
  = Some (mkRender b true (mouse (scene v)))
  /\ isModifying (scene (dispatch computeVertexNormals v (b, pointerdown 0))) = true.
Proof.
  intros Hs Hl Hidle. unfold dispatch.
  destruct (listeners v) as [r0|] eqn:Hl0; [|contradiction].
  set (r := if Brush_eq_dec b (r_brush r0) then r0 else render b (scene v)).
  assert (Hr : r_isModifying r = false).
  { unfold r. destruct (Brush_eq_dec b (r_brush r0)).
    - rewrite (Hs r0 Hl0). exact Hidle.
    - exact Hidle. }
  cbn [handlePointerDown scene listeners isModifying]. rewrite Hr.
  split; reflexivity.
Qed.

Lemma moves_keep_listeners
    (computeVertexNormals : option (list nat) -> list Vector3 -> list Vector3)
    r moves v :
  listeners v = Some r ->
  isModifying (scene v) = r_isModifying r ->
  Forall (isMoveWith (r_brush r)) moves ->
  listeners (run computeVertexNormals v moves) = Some r
  /\ isModifying (scene (run computeVertexNormals v moves)) = r_isModifying r.
Proof.
  intros Hl Hm Hmoves. revert v Hl Hm.
  induction Hmoves as [|step moves Hstep _ IH]; intros v Hl Hm.
  - split; assumption.
  - cbn [run fold_left].
    destruct step as [b ev]. destruct Hstep as [Hb (cx & cy & rect & hits & Hev)].
    cbn [fst snd] in Hb, Hev. subst b ev.
    rewrite (pointermove_keeps_listeners computeVertexNormals v r cx cy rect hits Hl Hm).
    apply IH.
    + reflexivity.
    + cbn [scene]. now rewrite handlePointerMove_isModifying.
Qed.

(** X10. Throughout a stroke, under unchanged props, the pointer
    listeners stay those registered after the press of the button: the
    [lastMousePosition] they see is the cursor at the moment of the press,
    however many moves have stored a newer one. So every move of the
    stroke sculpts with its cursor delta measured from the press. *)
Theorem stroke_keeps_press_cursor
    (computeVertexNormals : option (list nat) -> list Vector3 -> list Vector3)
    (b0 : Brush) (st : EditableScene) (before : list (Brush * PointerEvent))
    (b : Brush) (moves : list (Brush * PointerEvent))
    (cx cy : R) (rect : DOMRect) (hit : Intersection) (hits : list Intersection) :
  let v := run computeVertexNormals (mount b0 st) before in
  listeners v <> None ->
  isModifying (scene v) = false ->
  Forall (isMoveWith b) moves ->
  let w := run computeVertexNormals
             (dispatch computeVertexNormals v (b, pointerdown 0)) moves in
  listeners w = Some (mkRender b true (mouse (scene v)))
  /\ scenePositions
       (scene (dispatch computeVertexNormals w
                 (b, pointermove cx cy rect (hit :: hits))))
     = map (sculptVertex b
              (applyMatrix4 (point hit) (inverseMatrixOf (scene w)))
              (inverseMatrixOf (scene w)) (face_normal hit)
              (mkVector2 (((cx - left rect) / width rect) * 2 - 1)
                         (- ((cy - top rect) / height rect) * 2 + 1))
              (mouse (scene v)))
           (scenePositions (scene w)).
Proof.
  intros v Hl Hidle Hmoves w.
  assert (Hs : synced v) by (apply synced_run, synced_mount).
  destruct (press_registers computeVertexNormals v b Hs Hl Hidle) as [Hreg Hmod].
  set (r := mkRender b true (mouse (scene v))) in *.
  destruct (moves_keep_listeners computeVertexNormals r moves
              (dispatch computeVertexNormals v (b, pointerdown 0)) Hreg Hmod Hmoves)
    as [Hlw Hmw].
  fold w in Hlw, Hmw. split; [exact Hlw|].
  pose proof (pointermove_keeps_listeners computeVertexNormals w r cx cy rect
                (hit :: hits) Hlw Hmw) as Hmove.
  change (r_brush r) with b in Hmove. rewrite Hmove.
  cbn [scene]. now rewrite handlePointerMove_positions.
Qed.

Lemma stroke_keeps_press_cursor_witness :
  listeners
    (run Example.computeVertexNormals
       (dispatch Example.computeVertexNormals
          (run Example.computeVertexNormals
             (mount Example.moveBrush Example.scene0) [])
          (Example.moveBrush, pointerdown 0))
       [(Example.moveBrush,
         pointermove 1.1 1 Example.canvas [mkIntersection (mkVector3 0 0 0) None])])
  = Some (mkRender Example.moveBrush true (mkVector2 0 0)).
Proof.
  apply (stroke_keeps_press_cursor Example.computeVertexNormals Example.moveBrush
           Example.scene0 [] Example.moveBrush
           [(Example.moveBrush,
             pointermove 1.1 1 Example.canvas
               [mkIntersection (mkVector3 0 0 0) None])]
           0 0 Example.canvas (mkIntersection Vector3.zero None) []).
  - discriminate.
  - reflexivity.
  - repeat constructor. cbn [snd]. eexists _, _, _, _. reflexivity.
Defined.

(** ** The cursor *)

Lemma sculptMesh_cursor
    (computeVertexNormals : option (list nat) -> list Vector3 -> list Vector3)
    b last st point normal :
  mouse (sculptMesh computeVertexNormals b last st point normal) = mouse st
  /\ brushPosition (sculptMesh computeVertexNormals b last st point normal)
     = brushPosition st.
Proof.
  unfold sculptMesh. destruct (meshRef st) as [mesh|]; [|split; reflexivity].
  destruct (geometry mesh); split; reflexivity.
Qed.

(** X11. A pointer move stores the pointer in normalised device
    coordinates: for a pointer inside the canvas rectangle both
    coordinates lie in [-1, 1], with the left edge at x = -1 and the top
    edge at y = +1. The brush cursor goes to the first ray-cast hit, and
    stays where it was when the ray misses the mesh. *)
Theorem pointer_move_cursor
    (computeVertexNormals : option (list nat) -> list Vector3 -> list Vector3)
    (r : Render) (st : EditableScene) (cx cy : R) (rect : DOMRect)
    (hits : list Intersection) :
  0 < width rect -> 0 < height rect ->
  left rect <= cx <= left rect + width rect ->
  top rect <= cy <= top rect + height rect ->
  let st' := handlePointerMove computeVertexNormals r st cx cy rect hits in
  -1 <= x2 (mouse st') <= 1
  /\ -1 <= y2 (mouse st') <= 1
  /\ (cx = left rect -> x2 (mouse st') = -1)
  /\ (cy = top rect -> y2 (mouse st') = 1)
  /\ brushPosition st'
     = match hits with
       | [] => brushPosition st
       | hit :: _ => point hit
       end.
Proof.
  intros Hw Hh Hx Hy st'.
  assert (Hmouse : mouse st'
                   = mkVector2 (((cx - left rect) / width rect) * 2 - 1)
                               (- ((cy - top rect) / height rect) * 2 + 1)).
  { unfold st', handlePointerMove. cbv zeta.
    destruct hits as [|hit hits]; [reflexivity|].
    destruct (r_isModifying r); [|reflexivity].
    match goal with
    | |- mouse (sculptMesh ?c ?b ?l ?s ?p ?n) = _ =>
        destruct (sculptMesh_cursor c b l s p n) as [-> _]
    end. reflexivity. }
  assert (Hbrush : brushPosition st'
                   = match hits with [] => brushPosition st | hit :: _ => point hit end).
  { unfold st', handlePointerMove. cbv zeta.
    destruct hits as [|hit hits]; [reflexivity|].
    destruct (r_isModifying r); [|reflexivity].
    match goal with
    | |- brushPosition (sculptMesh ?c ?b ?l ?s ?p ?n) = _ =>
        destruct (sculptMesh_cursor c b l s p n) as [_ ->]
    end. reflexivity. }
  rewrite Hmouse. cbn [x2 y2].
  assert (Hqx : 0 <= (cx - left rect) / width rect <= 1).
  { split.
    - apply Rmult_le_pos; [lra|]. left. now apply Rinv_0_lt_compat.
    - apply (Rmult_le_reg_r (width rect)); [exact Hw|].
      unfold Rdiv. rewrite Rmult_assoc, Rinv_l by lra. lra. }
  assert (Hqy : 0 <= (cy - top rect) / height rect <= 1).
  { split.
    - apply Rmult_le_pos; [lra|]. left. now apply Rinv_0_lt_compat.
    - apply (Rmult_le_reg_r (height rect)); [exact Hh|].
      unfold Rdiv. rewrite Rmult_assoc, Rinv_l by lra. lra. }
  split; [lra|]. split; [lra|]. split; [|split; [|exact Hbrush]].
  - intros ->. unfold Rdiv. rewrite Rminus_diag. lra.
  - intros ->. unfold Rdiv. rewrite Rminus_diag. lra.
Qed.

Lemma pointer_move_cursor_witness :
  -1 <= x2 (mouse (handlePointerMove Example.computeVertexNormals
                     (mkRender Example.moveBrush false (mkVector2 0 0))
                     Example.scene0 1.5 0.5 Example.canvas [])) <= 1.
Proof.
  apply (pointer_move_cursor Example.computeVertexNormals
           (mkRender Example.moveBrush false (mkVector2 0 0)) Example.scene0
           1.5 0.5 Example.canvas []);
    cbn [left top width height Example.canvas]; lra.
Defined.

(** ** File extensions *)

Lemma append_empty (s : String.string) : String.append EmptyString s = s.
Proof. reflexivity. Qed.

Lemma append_String (c : Ascii.ascii) (s1 s2 : String.string) :
  String.append (String c s1) s2 = String c (String.append s1 s2).
Proof. reflexivity. Qed.

Lemma split_nonempty (sep : Ascii.ascii) (s : String.string) : split sep s <> [].
Proof.
  destruct s as [|c rest]; cbn [split]; [discriminate|].
  destruct (Ascii.eqb c sep); [discriminate|].
  destruct (split sep rest); discriminate.
Qed.

Lemma join_split (sep : Ascii.ascii) (s : String.string) :
  join sep (split sep s) = s.
Proof.
  induction s as [|c rest IH]; [reflexivity|]. cbn [split].
  pose proof (split_nonempty sep rest) as Hne.
  destruct (Ascii.eqb c sep) eqn:Hc.
  - apply Ascii.eqb_eq in Hc. subst c.
    destruct (split sep rest) as [|seg segs]; [contradiction|].
    change (join sep (EmptyString :: seg :: segs))
      with (String.append EmptyString (String sep (join sep (seg :: segs)))).
    now rewrite append_empty, IH.
  - destruct (split sep rest) as [|seg segs]; [contradiction|].
    destruct segs as [|seg' segs].
    + cbn [join] in *. now rewrite IH.
    + change (join sep (String c seg :: seg' :: segs))
        with (String.append (String c seg) (String sep (join sep (seg' :: segs)))).
      change (join sep (seg :: seg' :: segs))
        with (String.append seg (String sep (join sep (seg' :: segs)))) in IH.
      now rewrite append_String, IH.
Qed.

Lemma split_segments (sep : Ascii.ascii) (s : String.string) :
  Forall (fun seg => contains sep seg = false) (split sep s).
Proof.
  induction s as [|c rest IH]; [repeat constructor|]. cbn [split].
  destruct (Ascii.eqb c sep) eqn:Hc.
  - constructor; [reflexivity|exact IH].
  - destruct (split sep rest) as [|seg segs]; [repeat constructor; cbn; now rewrite Hc|].
    inversion IH as [|? ? Hseg Hsegs]; subst.
    constructor; [|exact Hsegs]. cbn [contains]. now rewrite Hc, Hseg.
Qed.

Lemma pop_join (sep : Ascii.ascii) (l : list String.string) (ext : String.string) :
  pop l = Some ext ->
  join sep l = ext
  \/ exists stem : String.string, join sep l = String.append stem (String sep ext).
Proof.
  induction l as [|x rest IH]; [discriminate|].
  destruct rest as [|y rest].
  - cbn. intros [= ->]. now left.
  - intros Hpop. change (pop (x :: y :: rest)) with (pop (y :: rest)) in Hpop.
    right. change (join sep (x :: y :: rest))
      with (String.append x (String sep (join sep (y :: rest)))).
    destruct (IH Hpop) as [Heq | [stem Heq]]; rewrite Heq.
    + now exists x.
    + exists (String.append x (String sep stem)).
      clear. induction x as [|c x IHx]; [reflexivity|].
      now rewrite !append_String, IHx.
Qed.

Lemma pop_forall (P : String.string -> Prop) (l : list String.string) (ext : String.string) :
  Forall P l -> pop l = Some ext -> P ext.
Proof.
  induction 1 as [|x rest Hx Hrest IH]; [discriminate|].
  destruct rest as [|y rest]; [intros [= <-]; exact Hx|].
  intros Hpop. exact (IH Hpop).
Qed.

(** The last piece of a name split at its dots: it has no dot, and the
    name is that piece alone or ends with a dot followed by it. *)
Lemma pop_split_spec (name ext : String.string) :
  pop (split "."%char name) = Some ext ->
  contains "."%char ext = false
  /\ (name = ext
      \/ exists stem : String.string,
           name = String.append stem (String "."%char ext)).
Proof.
  intros Hpop. split.
  - exact (pop_forall _ _ _ (split_segments "."%char name) Hpop).
  - destruct (pop_join "."%char _ _ Hpop) as [Heq | [stem Heq]];
      rewrite join_split in Heq; [now left|right; now exists stem].
Qed.

Lemma split_without_sep (sep : Ascii.ascii) (s : String.string) :
  contains sep s = false -> split sep s = [s].
Proof.
  induction s as [|c rest IH]; [reflexivity|]. cbn [contains split].
  destruct (Ascii.eqb c sep); [discriminate|]. cbn [orb].
  intros Hrest. now rewrite (IH Hrest).
Qed.

Lemma split_append (sep : Ascii.ascii) (stem ext : String.string) :
  split sep (String.append stem (String sep ext)) = split sep stem ++ split sep ext.
Proof.
  induction stem as [|c stem IH].
  - rewrite append_empty. cbn [split]. now rewrite Ascii.eqb_refl.
  - rewrite append_String. cbn [split].
    rewrite IH. destruct (Ascii.eqb c sep); [reflexivity|].
    pose proof (split_nonempty sep stem) as Hne.
    destruct (split sep stem) as [|seg segs]; [contradiction|reflexivity].
Qed.

Lemma pop_app (l1 l2 : list String.string) :
  l2 <> [] -> pop (l1 ++ l2) = pop l2.
Proof.
  intros Hne. induction l1 as [|x l1 IH]; [reflexivity|].
  cbn [app]. destruct (l1 ++ l2) as [|y rest] eqn:Happ.
  - destruct l1; [cbn in Happ; contradiction|discriminate].
  - exact IH.
Qed.

Lemma pop_split_last (name ext : String.string) :
  contains "."%char ext = false ->
  (name = ext
   \/ exists stem : String.string,
        name = String.append stem (String "."%char ext)) ->
  pop (split "."%char name) = Some ext.
Proof.
  intros Hno [-> | [stem ->]].
  - now rewrite split_without_sep.
  - rewrite split_append, pop_app, split_without_sep by
      (try rewrite split_without_sep by exact Hno; try exact Hno; discriminate).
    reflexivity.
Qed.

Lemma toLowerCase_keeps_dot (s : String.string) :
  contains "."%char s = true -> contains "."%char (toLowerCase s) = true.
Proof.
  induction s as [|c rest IH]; [discriminate|]. cbn [contains toLowerCase].
  destruct (Ascii.eqb c "."%char) eqn:Hc.
  - apply Ascii.eqb_eq in Hc. subst c. reflexivity.
  - cbn [orb]. intros Hrest. rewrite (IH Hrest). apply Bool.orb_true_r.
Qed.

Lemma lower_obj_no_dot (ext : String.string) :
  toLowerCase ext = "obj"%string -> contains "."%char ext = false.
Proof.
  intros Hlow. destruct (contains "."%char ext) eqn:Hc; [|reflexivity].
  apply toLowerCase_keeps_dot in Hc. rewrite Hlow in Hc. discriminate.
Qed.

Lemma toLowerCase_empty (s : String.string) :
  toLowerCase s = EmptyString <-> s = EmptyString.
Proof. destruct s; cbn; split; congruence. Qed.

Lemma pop_some (l : list String.string) :
  l <> [] -> exists x : String.string, pop l = Some x.
Proof.
  induction l as [|x rest IH]; [contradiction|]. intros _.
  destruct rest as [|y rest]; [now exists x|].
  apply IH. discriminate.
Qed.

Lemma validateFile_cases (name : String.string) :
  exists ext : String.string,
    pop (split "."%char name) = Some ext
    /\ validateFile name
       = if String.eqb (toLowerCase ext) EmptyString then Some InvalidFile
         else if String.eqb (toLowerCase ext) "obj"%string then None
              else Some (UnsupportedFormat (toLowerCase ext)).
Proof.
  destruct (pop_some _ (split_nonempty "."%char name)) as [ext Hpop].
  exists ext. split; [exact Hpop|].
  unfold validateFile, fileExtension. rewrite Hpop. cbn [option_map].
  destruct (String.eqb (toLowerCase ext) EmptyString); [reflexivity|].
  unfold supportedExtensions, SUPPORTED_FORMATS. cbn [map snd concat app existsb].
  change (String.eqb (String "."%char (toLowerCase ext)) ".obj"%string)
    with (String.eqb (toLowerCase ext) "obj"%string).
  destruct (String.eqb (toLowerCase ext) "obj"%string); reflexivity.
Qed.

(** X12. The uploader accepts a file exactly when the text after the
    last dot of its name, or the whole name when it has no dot, is "obj"
    in any letter case. *)
Theorem validateFile_accepts (name : String.string) :
  validateFile name = None
  <-> exists ext : String.string,
        toLowerCase ext = "obj"%string
        /\ (name = ext
            \/ exists stem : String.string,
                 name = String.append stem (String "."%char ext)).
Proof.
  destruct (validateFile_cases name) as (ext & Hpop & Hval). split.
  - intros Hnone. rewrite Hnone in Hval. exists ext.
    destruct (String.eqb (toLowerCase ext) EmptyString); [discriminate|].
    destruct (String.eqb (toLowerCase ext) "obj"%string) eqn:Hobj; [|discriminate].
    apply String.eqb_eq in Hobj. split; [exact Hobj|].
    apply (pop_split_spec name ext Hpop).
  - intros (ext' & Hlow & Hshape).
    pose proof (pop_split_last name ext' (lower_obj_no_dot ext' Hlow) Hshape) as Hpop'.
    rewrite Hpop in Hpop'. injection Hpop' as ->.
    rewrite Hval, Hlow. reflexivity.
Qed.

(** X13. The uploader answers "Invalid file" exactly for the empty name
    and for a name that ends with a dot; every other rejected name gets
    "Unsupported file format" with the lower-cased text after the last
    dot, which is not "obj". *)
Theorem validateFile_rejects (name : String.string) :
  (validateFile name = Some InvalidFile
   <-> name = EmptyString
       \/ exists stem : String.string,
            name = String.append stem (String "."%char EmptyString))
  /\ (forall extension : String.string,
        validateFile name = Some (UnsupportedFormat extension) ->
        fileExtension name = Some extension
        /\ extension <> EmptyString
        /\ extension <> "obj"%string).
Proof.
  destruct (validateFile_cases name) as (ext & Hpop & Hval). split; [split|].
  - intros Hinv. rewrite Hinv in Hval.
    destruct (String.eqb (toLowerCase ext) EmptyString) eqn:Hempty.
    + apply String.eqb_eq in Hempty.
      apply (proj1 (toLowerCase_empty ext)) in Hempty. subst ext.
      destruct (pop_split_spec name EmptyString Hpop) as [_ Hshape]. exact Hshape.
    + destruct (String.eqb (toLowerCase ext) "obj"%string); discriminate.
  - intros Hshape.
    pose proof (pop_split_last name EmptyString eq_refl Hshape) as Hpop'.
    rewrite Hpop in Hpop'. injection Hpop' as Hext.
    rewrite Hval, Hext. reflexivity.
  - intros extension Hun. rewrite Hun in Hval.
    destruct (String.eqb (toLowerCase ext) EmptyString) eqn:Hempty; [discriminate|].
    destruct (String.eqb (toLowerCase ext) "obj"%string) eqn:Hobj; [discriminate|].
    injection Hval as ->.
    split; [unfold fileExtension; now rewrite Hpop|].
    split; [now apply String.eqb_neq|now apply String.eqb_neq].
Qed.

(** X14. The scene's effect and the uploader agree on what an OBJ file
    is: a URL is given to the OBJ loader exactly when the uploader would
    accept it as a file name; every other URL goes to the GLTF loader. *)
Theorem loaderFor_agrees (modelUrl : String.string) :
  (loaderFor modelUrl = OBJLoader <-> validateFile modelUrl = None)
  /\ (loaderFor modelUrl = GLTFLoader <-> validateFile modelUrl <> None).
Proof.
  destruct (validateFile_cases modelUrl) as (ext & Hpop & Hval).
  assert (Hloader : loaderFor modelUrl
                    = if String.eqb (toLowerCase ext) "obj"%string
                      then OBJLoader else GLTFLoader).
  { unfold loaderFor, fileExtension. now rewrite Hpop. }
  rewrite Hloader, Hval.
  destruct (String.eqb (toLowerCase ext) "obj"%string) eqn:Hobj.
  - apply String.eqb_eq in Hobj. rewrite Hobj. cbn.
    split; split; try reflexivity; try discriminate. intros H. now contradiction H.
  - destruct (String.eqb (toLowerCase ext) EmptyString);
      split; split; try reflexivity; try discriminate.
Qed.

Example validateFile_upper_case : validateFile "Nose.Scan.OBJ"%string = None.
Proof. reflexivity. Qed.

Example validateFile_no_dot : validateFile "obj"%string = None.
Proof. reflexivity. Qed.

Example validateFile_trailing_dot : validateFile "model."%string = Some InvalidFile.
Proof. reflexivity. Qed.

Example validateFile_gltf :
  validateFile "head.gltf"%string = Some (UnsupportedFormat "gltf"%string).
Proof. reflexivity. Qed.

Example loaderFor_blob_url :
  loaderFor "blob:http://localhost:3000/0b7c2d1e-obj"%string = GLTFLoader.
Proof. reflexivity. Qed.

(** ** Loading and its failure *)

Lemma run_without_listeners
    (computeVertexNormals : option (list nat) -> list Vector3 -> list Vector3)
    steps v :
  listeners v = None -> run computeVertexNormals v steps = v.
Proof.
  intros Hl. induction steps as [|[b ev] steps IH]; [reflexivity|].
  cbn [run fold_left]. unfold dispatch at 2. rewrite Hl. exact IH.
Qed.

(** X15. After a load that fails, or that yields an object without any
    mesh, the component's state no longer refers to the mesh it had:
    [meshRef] is null (and so is the snapshot, if there was a mesh) and
    [isLoading] is false; from then on no pointer event changes the
    component's state and [resetMesh] does nothing. A missing model URL,
    on the contrary, leaves the state as it is. This is a statement about
    the component's state only: what the engine's scene graph still holds
    is outside it. *)
Theorem failed_load_discards
    (computeVertexNormals : option (list nat) -> list Vector3 -> list Vector3)
    (url : String.string) (outcome : LoadOutcome) (st : EditableScene)
    (b : Brush) (steps : list (Brush * PointerEvent)) :
  url <> EmptyString ->
  outcome = loadFailed
  \/ (exists loadedObject : Object3D,
        outcome = loadSucceeded loadedObject
        /\ firstMesh (traverse loadedObject) = None) ->
  let st' := modelUrlEffect computeVertexNormals (Some url) outcome st in
  meshRef st' = None
  /\ isLoading st' = false
  /\ (meshRef st <> None -> originalVertices st' = None)
  /\ scene (run computeVertexNormals (mount b st') steps) = st'
  /\ resetMesh computeVertexNormals st' = Some st'
  /\ modelUrlEffect computeVertexNormals None outcome st = st.
Proof.
  intros Hurl Hout st'.
  assert (Hurl' : String.eqb url EmptyString = false) by now apply String.eqb_neq.
  assert (Hshape : st' = mkScene None (brushPosition st) (isModifying st)
                           (lastMousePosition st)
                           (match meshRef st with
                            | Some _ => None
                            | None => originalVertices st
                            end) false (mouse st)).
  { unfold st', modelUrlEffect. rewrite Hurl'.
    destruct Hout as [-> | (loadedObject & -> & Hnone)].
    - unfold beginLoad. destruct (meshRef st); reflexivity.
    - unfold processLoadedModel. rewrite Hnone.
      unfold beginLoad. destruct (meshRef st); reflexivity. }
  assert (Hm : meshRef st' = None) by now rewrite Hshape.
  split; [exact Hm|]. split; [now rewrite Hshape|]. split.
  { intros Hmesh. rewrite Hshape. cbn [originalVertices].
    destruct (meshRef st); [reflexivity|contradiction]. }
  split.
  { rewrite run_without_listeners; [reflexivity|].
    unfold mount. now rewrite Hm. }
  split; [|reflexivity].
  unfold resetMesh. now rewrite Hm.
Qed.

Lemma failed_load_discards_witness :
  let st' := modelUrlEffect Example.computeVertexNormals (Some "scan.glb"%string)
               loadFailed Example.scene0 in
  meshRef st' = None
  /\ isLoading st' = false
  /\ originalVertices st' = None
  /\ scene (run Example.computeVertexNormals (mount Samples.smoothBrush st')
              Samples.smoothStroke) = st'
  /\ resetMesh Example.computeVertexNormals st' = Some st'.
Proof.
  cbv zeta.
  destruct (failed_load_discards Example.computeVertexNormals "scan.glb"%string
              loadFailed Example.scene0 Samples.smoothBrush Samples.smoothStroke)
    as (Hmesh & Hloading & Hsnap & Hrun & Hreset & _).
  - discriminate.
  - now left.
  - split; [exact Hmesh|]. split; [exact Hloading|].
    split; [apply Hsnap; discriminate|]. split; [exact Hrun|exact Hreset].
Defined.

(** ** Where a loaded model ends up *)

Lemma isEmpty_ordered (box : Box3) : boxOrdered box -> Box3.isEmpty box = false.
Proof.
  intros (Hx & Hy & Hz). unfold Box3.isEmpty.
  destruct (Rlt_dec _ _); [lra|]. destruct (Rlt_dec _ _); [lra|].
  destruct (Rlt_dec _ _); [lra|reflexivity].
Qed.

Lemma maxDimension_scaled (s x y z : R) :
  0 <= s ->
  maxDimension (mkVector3 (s * x) (s * y) (s * z)) = s * maxDimension (mkVector3 x y z).
Proof.
  intros Hs. unfold maxDimension. cbn [vx vy vz].
  now rewrite !RmaxRmult.
Qed.

Lemma scaled_box (s : R) (t : Vector3) (box : Box3) :
  0 < s -> boxOrdered box ->
  let image := placeBox (place (mkPlacement t (mkVector3 s s s))) box in
  boxOrdered image
  /\ Box3.getSize image
     = mkVector3 (s * vx (Box3.getSize box)) (s * vy (Box3.getSize box))
                 (s * vz (Box3.getSize box))
  /\ Box3.getCenter image
     = mkVector3 (vx t + s * vx (Box3.getCenter box))
                 (vy t + s * vy (Box3.getCenter box))
                 (vz t + s * vz (Box3.getCenter box)).
Proof.
  intros Hs Hord image.
  assert (Himage : boxOrdered image).
  { destruct Hord as (Hx & Hy & Hz). unfold image, placeBox, place, boxOrdered.
    cbn [boxMin boxMax vx vy vz placePosition placeScale]. repeat split; nra. }
  split; [exact Himage|].
  unfold Box3.getSize, Box3.getCenter.
  rewrite (isEmpty_ordered box Hord), (isEmpty_ordered image Himage).
  unfold image, placeBox, place, Vector3.sub, Vector3.multiplyScalar.
  cbn [boxMin boxMax vx vy vz placePosition placeScale].
  split; f_equal; lra.
Qed.

(** X16. The scene's [processLoadedModel] (and the uploader's
    [validateAndProcessModel], which computes the same placement) scales
    a freshly loaded model so that its largest extent is exactly 2, but
    does not centre it: the centre c of its bounding box ends at
    (2 / maxDimension - 1) * c, which is the origin only when the model
    was already centred or already had largest extent 2. *)
Theorem centerAndScale_result (box : Box3) :
  boxOrdered box ->
  0 < maxDimension (Box3.getSize box) ->
  let placed := centerAndScale box unplaced in
  let image := placeBox (place placed) box in
  let s := 2 / maxDimension (Box3.getSize box) in
  uploaderCenterAndScale box unplaced = placed
  /\ maxDimension (Box3.getSize image) = 2
  /\ Box3.getCenter image = Vector3.multiplyScalar (Box3.getCenter box) (s - 1)
  /\ (Box3.getCenter image = Vector3.zero
      <-> Box3.getCenter box = Vector3.zero
          \/ maxDimension (Box3.getSize box) = 2).
Proof.
  intros Hord Hmax placed image s.
  assert (Hs : 0 < s) by (unfold s; apply Rdiv_lt_0_compat; lra).
  assert (Hplaced : placed
                    = mkPlacement (Vector3.sub Vector3.zero (Box3.getCenter box))
                        (mkVector3 s s s)) by reflexivity.
  destruct (scaled_box s (Vector3.sub Vector3.zero (Box3.getCenter box)) box Hs Hord)
    as (_ & Hsize & Hcenter).
  fold (placeBox (place placed) box) in Hsize, Hcenter.
  assert (Hc : Box3.getCenter image
               = Vector3.multiplyScalar (Box3.getCenter box) (s - 1)).
  { unfold image. rewrite Hplaced, Hcenter.
    unfold Vector3.multiplyScalar, Vector3.sub, Vector3.zero. cbn [vx vy vz].
    f_equal; ring. }
  split.
  { unfold uploaderCenterAndScale, placed, centerAndScale, unplaced,
      Vector3.multiplyScalar. cbn [placePosition placeScale vx vy vz].
    fold s. f_equal. f_equal; ring. }
  split.
  { unfold image. rewrite Hplaced, Hsize.
    rewrite maxDimension_scaled by lra.
    replace (mkVector3 (vx (Box3.getSize box)) (vy (Box3.getSize box))
               (vz (Box3.getSize box))) with (Box3.getSize box)
      by (now destruct (Box3.getSize box)).
    unfold s. field. lra. }
  split; [exact Hc|].
  rewrite Hc. destruct (Box3.getCenter box) as [x y z].
  unfold Vector3.multiplyScalar, Vector3.zero. cbn [vx vy vz]. split.
  - intros [= Hx Hy Hz].
    destruct (Req_dec_T s 1) as [Hs1|Hs1].
    + right. unfold s in Hs1.
      apply (Rmult_eq_compat_r (maxDimension (Box3.getSize box))) in Hs1.
      unfold Rdiv in Hs1. rewrite Rmult_assoc, Rinv_l in Hs1 by lra. lra.
    + left. assert (Hne : s - 1 <> 0) by lra.
      f_equal; [apply (Rmult_eq_reg_r (s - 1)) | apply (Rmult_eq_reg_r (s - 1))
               | apply (Rmult_eq_reg_r (s - 1))]; try exact Hne; lra.
  - intros [[= -> -> ->] | H2].
    + f_equal; ring.
    + assert (Hs1 : s = 1) by (unfold s; rewrite H2; field).
      rewrite Hs1. f_equal; ring.
Qed.

Lemma centerAndScale_result_witness :
  maxDimension
    (Box3.getSize
       (placeBox
          (place (centerAndScale (mkBox3 (mkVector3 100 0 0) (mkVector3 104 1 1))
                    unplaced))
          (mkBox3 (mkVector3 100 0 0) (mkVector3 104 1 1))))
  = 2.
Proof.
  apply (centerAndScale_result (mkBox3 (mkVector3 100 0 0) (mkVector3 104 1 1))).
  - unfold boxOrdered. cbn [boxMin boxMax vx vy vz]. lra.
  - unfold Box3.getSize.
    rewrite isEmpty_ordered
      by (unfold boxOrdered; cbn [boxMin boxMax vx vy vz]; lra).
    unfold maxDimension, Vector3.sub. cbn [boxMin boxMax vx vy vz].
    apply Rlt_le_trans with (Rmax (104 - 100) (1 - 0)); [|apply Rmax_l].
    apply Rlt_le_trans with (104 - 100); [lra|apply Rmax_l].
Defined.

Lemma maxDimension_size (s : R) (box : Box3) :
  0 < maxDimension (Box3.getSize box) ->
  0 <= s ->
  maxDimension
    (mkVector3 (s * vx (Box3.getSize box)) (s * vy (Box3.getSize box))
       (s * vz (Box3.getSize box)))
  = s * maxDimension (Box3.getSize box).
Proof.
  intros _ Hs. rewrite maxDimension_scaled by exact Hs.
  now destruct (Box3.getSize box).
Qed.

(** X17. The model viewer's effect, which moves the clone by minus the
    centre of its bounding box and scales the group that holds it, puts a
    freshly loaded model, in a group not yet scaled, exactly at the
    origin with largest extent 2. *)
Theorem cloneAndGroup_result (box : Box3) :
  boxOrdered box ->
  0 < maxDimension (Box3.getSize box) ->
  let placed := cloneAndGroup box unplaced unplaced in
  let image :=
    placeBox (fun p => place (snd placed) (place (fst placed) p)) box in
  Box3.getCenter image = Vector3.zero
  /\ maxDimension (Box3.getSize image) = 2.
Proof.
  intros Hord Hmax placed image.
  set (s := 2 / maxDimension (Box3.getSize box)).
  assert (Hs : 0 < s) by (unfold s; apply Rdiv_lt_0_compat; lra).
  set (c := Box3.getCenter box).
  set (t := mkVector3 (- (s * vx c)) (- (s * vy c)) (- (s * vz c))).
  assert (Himage : image = placeBox (place (mkPlacement t (mkVector3 s s s))) box).
  { unfold image, placed, cloneAndGroup, placeBox, place, unplaced, t.
    cbn [fst snd placePosition placeScale vx vy vz Vector3.zero].
    fold c s. f_equal; f_equal; ring. }
  destruct (scaled_box s t box Hs Hord) as (_ & Hsize & Hcenter).
  rewrite Himage. split.
  - rewrite Hcenter. fold c. unfold t, Vector3.zero. cbn [vx vy vz].
    f_equal; ring.
  - rewrite Hsize, maxDimension_size by (assumption || lra).
    unfold s. field. lra.
Qed.

Lemma cloneAndGroup_result_witness :
  Box3.getCenter
    (placeBox
       (fun p =>
          place (snd (cloneAndGroup (mkBox3 (mkVector3 100 0 0) (mkVector3 104 1 1))
                        unplaced unplaced))
            (place (fst (cloneAndGroup
                           (mkBox3 (mkVector3 100 0 0) (mkVector3 104 1 1))
                           unplaced unplaced)) p))
       (mkBox3 (mkVector3 100 0 0) (mkVector3 104 1 1)))
  = Vector3.zero.
Proof.
  apply (cloneAndGroup_result (mkBox3 (mkVector3 100 0 0) (mkVector3 104 1 1))).
  - unfold boxOrdered. cbn [boxMin boxMax vx vy vz]. lra.
  - unfold Box3.getSize.
    rewrite isEmpty_ordered
      by (unfold boxOrdered; cbn [boxMin boxMax vx vy vz]; lra).
    unfold maxDimension, Vector3.sub. cbn [boxMin boxMax vx vy vz].
    apply Rlt_le_trans with (Rmax (104 - 100) (1 - 0)); [|apply Rmax_l].
    apply Rlt_le_trans with (104 - 100); [lra|apply Rmax_l].
Defined.

(** X18. The second viewer's [processLoadedModel] scales a freshly
    loaded model to largest extent 1.5 and lowers it so that its bounding
    box is centred in height; along x and z the centre c of the box is
    left at 1.5 / maxDimension times c. *)
Theorem scaleAndLowerBy_result (box : Box3) :
  boxOrdered box ->
  0 < maxDimension (Box3.getSize box) ->
  let placed := scaleAndLowerBy box unplaced in
  let image := placeBox (place placed) box in
  let s := 1.5 / maxDimension (Box3.getSize box) in
  maxDimension (Box3.getSize image) = 1.5
  /\ vy (Box3.getCenter image) = 0
  /\ vx (Box3.getCenter image) = s * vx (Box3.getCenter box)
  /\ vz (Box3.getCenter image) = s * vz (Box3.getCenter box).
Proof.
  intros Hord Hmax placed image s.
  assert (Hs : 0 < s) by (unfold s; apply Rdiv_lt_0_compat; lra).
  destruct (scaled_box s (mkVector3 0 (0 - vy (Box3.getCenter box) * s) 0) box
              Hs Hord) as (_ & Hsize & Hcenter).
  assert (Himage : image
                   = placeBox
                       (place (mkPlacement
                                 (mkVector3 0 (0 - vy (Box3.getCenter box) * s) 0)
                                 (mkVector3 s s s))) box) by reflexivity.
  rewrite Himage, Hsize, Hcenter. cbn [vx vy vz].
  split; [|split; [ring|split; ring]].
  rewrite maxDimension_size by (assumption || lra).
  unfold s. field. lra.
Qed.

Lemma scaleAndLowerBy_result_witness :
  maxDimension
    (Box3.getSize
       (placeBox
          (place (scaleAndLowerBy (mkBox3 (mkVector3 100 0 0) (mkVector3 104 1 1))
                    unplaced))
          (mkBox3 (mkVector3 100 0 0) (mkVector3 104 1 1))))
  = 1.5.
Proof.
  apply (scaleAndLowerBy_result (mkBox3 (mkVector3 100 0 0) (mkVector3 104 1 1))).
  - unfold boxOrdered. cbn [boxMin boxMax vx vy vz]. lra.
  - unfold Box3.getSize.
    rewrite isEmpty_ordered
      by (unfold boxOrdered; cbn [boxMin boxMax vx vy vz]; lra).
    unfold maxDimension, Vector3.sub. cbn [boxMin boxMax vx vy vz].
    apply Rlt_le_trans with (Rmax (104 - 100) (1 - 0)); [|apply Rmax_l].
    apply Rlt_le_trans with (104 - 100); [lra|apply Rmax_l].
Defined.

(** ** The second editor's page *)

(** X19. On the second editor's page the sculptable model is never
    rendered: every way of choosing a model sets [isLoading], the model
    component is rendered only while [isLoading] is false, and only that
    component can clear [isLoading]. After any sequence of user actions,
    a page with a model URL is still loading and shows the placeholder. *)
Theorem model_never_rendered (page : NosePage) :
  pageReachable page ->
  rendersModel (editor page) = false
  /\ modelMounted page = false
  /\ (forall url : String.string,
        fileUrl (editor page) = Some url -> editorIsLoading (editor page) = true).
Proof.
  intros Hreach.
  assert (Hinv : modelMounted page = false
                 /\ (forall url, fileUrl (editor page) = Some url ->
                                 editorIsLoading (editor page) = true)).
  { induction Hreach as [|page page' _ [Hm Hl] Hstep].
    - split; [reflexivity|]. intros url. discriminate.
    - destruct Hstep as [a page | page Hmounted]; [|congruence].
      assert (Hl' : forall url, fileUrl (userAction a (editor page)) = Some url ->
                                editorIsLoading (userAction a (editor page)) = true).
      { destruct a as [[url0|] | | t | x | x | | ]; cbn; intros url Hurl;
          try reflexivity; try discriminate; eauto. }
      split; [|exact Hl'].
      cbn [modelMounted editor]. rewrite Hm. cbn [orb].
      unfold rendersModel.
      destruct (fileUrl (userAction a (editor page))) as [url|];
        [|reflexivity].
      rewrite (Hl' url eq_refl). apply Bool.andb_false_r. }
  destruct Hinv as [Hm Hl]. split; [|split; assumption].
  unfold rendersModel. destruct (fileUrl (editor page)) as [url|];
    [|reflexivity].
  rewrite (Hl url eq_refl). apply Bool.andb_false_r.
Qed.

Lemma model_never_rendered_witness :
  rendersModel
    (editor
       (mkNosePage (userAction loadDefault noseEditorInitial)
          (modelMounted nosePageInitial
           || rendersModel (userAction loadDefault noseEditorInitial))))
  = false.
Proof.
  apply model_never_rendered.
  apply (reach_step nosePageInitial); [apply reach_initial|].
  apply (step_user loadDefault nosePageInitial).
Defined.

(** ** The second viewer: load, sculpt, reset *)

Section SecondViewerFacts.

Variable computeVertexNormals : option (list nat) -> list Vector3 -> list Vector3.

Lemma storeMeshes_spec nodesIn :
  forall i snap pointer nodes0 snap' pointer',
    storeMeshes computeVertexNormals i nodesIn snap pointer
    = Some (nodes0, snap', pointer') ->
    (forall j, (j < i)%nat -> snap' !! j = snap !! j)
    /\ (forall k node0, nodes0 !! k = Some node0 ->
                        loadedNode computeVertexNormals snap' (i + k) node0).
Proof.
  induction nodesIn as [|node rest IH]; intros i snap pointer nodes0 snap' pointer' Hstore.
  - cbn in Hstore. injection Hstore as <- <- <-.
    split; [reflexivity|]. intros k node0 Hk. destruct k; discriminate.
  - cbn [storeMeshes] in Hstore. destruct node as [mesh|].
    + destruct (geometry mesh) as [g|] eqn:Hg; [|discriminate].
      destruct (storeMeshes computeVertexNormals (S i) rest
                  (<[i:=position (recompute computeVertexNormals g)]> snap) (Some i))
        as [[[ns s'] p']|] eqn:Hrec; [|discriminate].
      injection Hstore as <- <- <-.
      destruct (IH _ _ _ _ _ _ Hrec) as [Hkeys Hnodes].
      split.
      * intros j Hj. rewrite Hkeys by lia. apply lookup_insert_ne. lia.
      * intros [|k] node0 Hk.
        -- injection Hk as <-. cbn [loadedNode geometry].
           eexists. split; [reflexivity|]. split; [reflexivity|].
           rewrite Nat.add_0_r, Hkeys by lia. apply lookup_insert_eq.
        -- replace (i + S k)%nat with (S i + k)%nat by lia.
           apply Hnodes. exact Hk.
    + destruct (storeMeshes computeVertexNormals (S i) rest snap pointer)
        as [[[ns s'] p']|] eqn:Hrec; [|discriminate].
      injection Hstore as <- <- <-.
      destruct (IH _ _ _ _ _ _ Hrec) as [Hkeys Hnodes].
      split.
      * intros j Hj. apply Hkeys. lia.
      * intros [|k] node0 Hk.
        -- injection Hk as <-. exact I.
        -- replace (i + S k)%nat with (S i + k)%nat by lia.
           apply Hnodes. exact Hk.
Qed.

Lemma sameShape_loaded snap i node :
  loadedNode computeVertexNormals snap i node -> sameShape node node.
Proof.
  destruct node as [m0|]; [|exact (fun _ => I)].
  intros (g0 & Hg0 & _). cbn. split; [reflexivity|].
  exists g0, g0. repeat split; assumption.
Qed.

Lemma resetNodes_restores snap nodes0 nodes :
  Forall2 sameShape nodes0 nodes ->
  forall i,
    (forall k node0, nodes0 !! k = Some node0 ->
                     loadedNode computeVertexNormals snap (i + k) node0) ->
    resetNodes computeVertexNormals i nodes snap = Some nodes0.
Proof.
  induction 1 as [|node0 node rest0 rest Hshape _ IH]; intros i Hloaded;
    [reflexivity|].
  assert (Hrest : resetNodes computeVertexNormals (S i) rest snap = Some rest0).
  { apply IH. intros k n0 Hk.
    replace (S i + k)%nat with (i + S k)%nat by lia. now apply Hloaded. }
  pose proof (Hloaded 0%nat node0 eq_refl) as H0. rewrite Nat.add_0_r in H0.
  cbn [resetNodes]. destruct node0 as [m0|], node as [m|]; try contradiction.
  - destruct Hshape as (Hmat & g0' & g & Hg0' & Hg & Hidx & Hlen).
    destruct H0 as (g0 & Hg0 & Hnormals & Hsnap).
    rewrite Hg0 in Hg0'. injection Hg0' as <-.
    rewrite Hsnap, Hg, typedArraySet_same_length, Hrest by exact Hlen.
    f_equal. f_equal. f_equal.
    destruct m0 as [geo0 mat0]. cbn [geometry matrixWorld] in *. subst geo0.
    rewrite Hmat. f_equal. f_equal.
    unfold recompute. cbn [position index]. rewrite Hidx, <- Hnormals.
    now destruct g0.
  - now rewrite Hrest.
Qed.

Lemma sculptMeshOf_shape nodes0 st call :
  (exists nodes, loadedScene st = Some nodes /\ Forall2 sameShape nodes0 nodes) ->
  (exists nodes, loadedScene (sculptMeshOf computeVertexNormals st call) = Some nodes
                 /\ Forall2 sameShape nodes0 nodes)
  /\ snapshots (sculptMeshOf computeVertexNormals st call) = snapshots st
  /\ pointerMesh (sculptMeshOf computeVertexNormals st call) = pointerMesh st.
Proof.
  intros (nodes & Hnodes & Hshape). unfold sculptMeshOf. rewrite Hnodes.
  destruct (nodes !! callMesh call) as [[mesh|]|] eqn:Hlook;
    try (split; [exists nodes; split; assumption|split; reflexivity]).
  destruct (geometry mesh) as [g|] eqn:Hg;
    [|split; [exists nodes; split; assumption|split; reflexivity]].
  split; [|split; reflexivity].
  eexists. split; [reflexivity|].
  destruct (Forall2_lookup_r _ _ _ _ _ Hshape Hlook) as (node0 & Hlook0 & Hnode).
  rewrite <- (list_insert_id nodes0 (callMesh call) node0 Hlook0).
  apply Forall2_insert; [exact Hshape|].
  destruct node0 as [m0|]; [|contradiction].
  destruct Hnode as (Hmat & g0 & g' & Hg0 & Hg' & Hidx & Hlen).
  rewrite Hg in Hg'. injection Hg' as <-.
  split; [exact Hmat|]. exists g0. eexists. split; [exact Hg0|].
  split; [reflexivity|]. split; [exact Hidx|].
  cbn. now rewrite sculptLoop_map, length_map.
Qed.

End SecondViewerFacts.

(** X20. In the second viewer, after a scene has been loaded into a
    freshly mounted model and whatever calls of [sculptMesh] follow, on
    whichever meshes, [resetModel] succeeds and puts every mesh of the
    scene back exactly as the load left it: positions, normals,
    connectivity and world matrix. A reset right after the load, or after
    a reset, changes nothing. *)
Theorem resetModel_restores
    (computeVertexNormals : option (list nat) -> list Vector3 -> list Vector3)
    (scene : Object3D) (st0 : SculptableModel) (calls : list SculptCall) :
  processLoadedScene computeVertexNormals sculptableInitial scene = Some st0 ->
  resetModel computeVertexNormals
    (fold_left (sculptMeshOf computeVertexNormals) calls st0) = Some st0
  /\ resetModel computeVertexNormals st0 = Some st0.
Proof.
  intros Hload. unfold processLoadedScene in Hload.
  destruct (storeMeshes computeVertexNormals 0 (traverse scene)
              (snapshots sculptableInitial) (pointerMesh sculptableInitial))
    as [[[nodes0 snap0] pointer0]|] eqn:Hstore; [|discriminate].
  injection Hload as <-.
  destruct (storeMeshes_spec computeVertexNormals _ _ _ _ _ _ _ Hstore)
    as [_ Hloaded].
  assert (Hself : Forall2 sameShape nodes0 nodes0).
  { apply Forall2_same_length_lookup. split; [reflexivity|].
    intros k n n' Hn Hn'. rewrite Hn in Hn'. injection Hn' as <-.
    exact (sameShape_loaded computeVertexNormals snap0 _ n (Hloaded k n Hn)). }
  assert (Hinv : forall calls st,
    (exists nodes, loadedScene st = Some nodes /\ Forall2 sameShape nodes0 nodes) ->
    snapshots st = snap0 -> pointerMesh st = pointer0 ->
    resetModel computeVertexNormals
      (fold_left (sculptMeshOf computeVertexNormals) calls st)
    = Some (mkSculptable (Some nodes0) snap0 pointer0)).
  { clear calls. induction calls as [|call calls IH]; intros st Hnodes Hsnap Hptr.
    - cbn [fold_left]. destruct Hnodes as (nodes & Hnodes & Hshape).
      unfold resetModel. rewrite Hnodes, Hsnap, Hptr.
      now rewrite (resetNodes_restores computeVertexNormals snap0 nodes0 nodes
                     Hshape 0 Hloaded).
    - cbn [fold_left].
      destruct (sculptMeshOf_shape computeVertexNormals nodes0 st call Hnodes)
        as (Hnodes' & Hsnap' & Hptr').
      apply IH; [exact Hnodes'|congruence|congruence]. }
  split.
  - apply Hinv; [|reflexivity|reflexivity]. exists nodes0. now split.
  - apply (Hinv []); [|reflexivity|reflexivity]. exists nodes0. now split.
Qed.

Lemma resetModel_restores_witness :
  exists st0 : SculptableModel,
    processLoadedScene Example.computeVertexNormals sculptableInitial
      Example.triangleModel = Some st0
    /\ resetModel Example.computeVertexNormals
         (fold_left (sculptMeshOf Example.computeVertexNormals)
            [mkSculptCall (mkBrush 2 5 SMOOTH) (mkVector2 0 0) (mkVector2 0 0) 1
               Vector3.zero None] st0)
       = Some st0.
Proof.
  eexists. split; [reflexivity|].
  apply (resetModel_restores Example.computeVertexNormals Example.triangleModel).
  reflexivity.
Defined.

Lemma storeMeshes_pointer
    (computeVertexNormals : option (list nat) -> list Vector3 -> list Vector3)
    nodesIn :
  forall i snap pointer nodes0 snap' pointer',
    storeMeshes computeVertexNormals i nodesIn snap pointer
    = Some (nodes0, snap', pointer') ->
    (pointer' = pointer /\ forall k m, nodesIn !! k <> Some (Some m))
    \/ (exists k m,
          pointer' = Some (i + k)%nat
          /\ nodesIn !! k = Some (Some m)
          /\ forall k' m', (k < k')%nat -> nodesIn !! k' <> Some (Some m')).
Proof.
  induction nodesIn as [|node rest IH]; intros i snap pointer nodes0 snap' pointer' Hstore.
  - cbn in Hstore. injection Hstore as <- <- <-. left.
    split; [reflexivity|]. intros [|k] m; discriminate.
  - cbn [storeMeshes] in Hstore. destruct node as [mesh|].
    + destruct (geometry mesh) as [g|]; [|discriminate].
      destruct (storeMeshes computeVertexNormals (S i) rest _ (Some i))
        as [[[ns s'] p']|] eqn:Hrec; [|discriminate].
      injection Hstore as <- <- <-. right.
      destruct (IH _ _ _ _ _ _ Hrec) as [[-> Hnone] | (k & m & -> & Hk & Hlater)].
      * exists 0%nat, mesh. split; [f_equal; lia|]. split; [reflexivity|].
        intros [|k'] m' Hlt; [lia|]. apply Hnone.
      * exists (S k), m. split; [f_equal; lia|]. split; [exact Hk|].
        intros [|k'] m' Hlt; [lia|]. apply Hlater. lia.
    + destruct (storeMeshes computeVertexNormals (S i) rest snap pointer)
        as [[[ns s'] p']|] eqn:Hrec; [|discriminate].
      injection Hstore as <- <- <-.
      destruct (IH _ _ _ _ _ _ Hrec) as [[-> Hnone] | (k & m & -> & Hk & Hlater)].
      * left. split; [reflexivity|]. intros [|k] m; [discriminate|apply Hnone].
      * right. exists (S k), m. split; [f_equal; lia|]. split; [exact Hk|].
        intros [|k'] m' Hlt; [lia|]. apply Hlater. lia.
Qed.

Lemma storeMeshes_nodes
    (computeVertexNormals : option (list nat) -> list Vector3 -> list Vector3)
    nodesIn :
  forall i snap pointer nodes0 snap' pointer',
    storeMeshes computeVertexNormals i nodesIn snap pointer
    = Some (nodes0, snap', pointer') ->
    forall k m,
      nodesIn !! k = Some (Some m) ->
      exists g,
        geometry m = Some g
        /\ nodes0 !! k
           = Some (Some (mkMesh (Some (recompute computeVertexNormals g))
                           (matrixWorld m))).
Proof.
  induction nodesIn as [|node rest IH]; intros i snap pointer nodes0 snap' pointer' Hstore.
  - intros [|k] m; discriminate.
  - cbn [storeMeshes] in Hstore. destruct node as [mesh|].
    + destruct (geometry mesh) as [g|] eqn:Hg; [|discriminate].
      destruct (storeMeshes computeVertexNormals (S i) rest _ (Some i))
        as [[[ns s'] p']|] eqn:Hrec; [|discriminate].
      injection Hstore as <- <- <-.
      intros [|k] m Hk.
      * injection Hk as <-. exists g. now split.
      * exact (IH _ _ _ _ _ _ Hrec k m Hk).
    + destruct (storeMeshes computeVertexNormals (S i) rest snap pointer)
        as [[[ns s'] p']|] eqn:Hrec; [|discriminate].
      injection Hstore as <- <- <-.
      intros [|k] m Hk; [discriminate|].
      exact (IH _ _ _ _ _ _ Hrec k m Hk).
Qed.

(** X21. The second viewer's load stores a snapshot for every mesh of
    the scene, equal to that mesh's positions, and recomputes its
    normals; the pointer mesh, the one pointer rays are cast against, is
    the last mesh in traversal order (none when the scene has no mesh). *)
Theorem processLoadedScene_result
    (computeVertexNormals : option (list nat) -> list Vector3 -> list Vector3)
    (scene : Object3D) (st0 : SculptableModel) :
  processLoadedScene computeVertexNormals sculptableInitial scene = Some st0 ->
  exists nodes0 : list (option Mesh),
    loadedScene st0 = Some nodes0
    /\ (forall k m,
          traverse scene !! k = Some (Some m) ->
          exists g,
            geometry m = Some g
            /\ nodes0 !! k
               = Some (Some (mkMesh
                               (Some (mkGeometry (position g)
                                        (computeVertexNormals (index g) (position g))
                                        (index g)))
                               (matrixWorld m)))
            /\ snapshots st0 !! k = Some (position g))
    /\ (forall k, pointerMesh st0 = Some k ->
          (exists m, traverse scene !! k = Some (Some m))
          /\ forall k' m', (k < k')%nat -> traverse scene !! k' <> Some (Some m'))
    /\ (pointerMesh st0 = None ->
          forall k m, traverse scene !! k <> Some (Some m)).
Proof.
  intros Hload. unfold processLoadedScene in Hload.
  destruct (storeMeshes computeVertexNormals 0 (traverse scene)
              (snapshots sculptableInitial) (pointerMesh sculptableInitial))
    as [[[nodes0 snap0] pointer0]|] eqn:Hstore; [|discriminate].
  injection Hload as <-. exists nodes0. split; [reflexivity|].
  destruct (storeMeshes_spec computeVertexNormals _ _ _ _ _ _ _ Hstore)
    as [_ Hloaded].
  pose proof (storeMeshes_nodes computeVertexNormals _ _ _ _ _ _ _ Hstore) as Hnodes.
  pose proof (storeMeshes_pointer computeVertexNormals _ _ _ _ _ _ _ Hstore) as Hptr.
  cbn [snapshots pointerMesh]. split; [|split].
  - intros k m Hk. destruct (Hnodes k m Hk) as (g & Hg & Hk0).
    exists g. split; [exact Hg|]. split; [exact Hk0|].
    destruct (Hloaded k _ Hk0) as (g0 & Hg0 & _ & Hsnap).
    cbn [geometry] in Hg0. injection Hg0 as <-. exact Hsnap.
  - intros k Hk.
    destruct Hptr as [[Hsame _] | (k0 & m & Hp & Hk0 & Hlater)].
    + rewrite Hsame in Hk. discriminate.
    + rewrite Hp in Hk. injection Hk as <-. cbn [Nat.add].
      split; [now exists m|exact Hlater].
  - intros Hnone.
    destruct Hptr as [[_ Hno] | (k0 & m & Hp & _)]; [exact Hno|].
    rewrite Hp in Hnone. discriminate.
Qed.

Lemma processLoadedScene_result_witness :
  exists (st0 : SculptableModel) (nodes0 : list (option Mesh)),
    processLoadedScene Example.computeVertexNormals sculptableInitial
      Example.triangleModel = Some st0
    /\ loadedScene st0 = Some nodes0
    /\ pointerMesh st0 = Some 1%nat.
Proof.
  eexists. 
  destruct (processLoadedScene_result Example.computeVertexNormals
              Example.triangleModel _ eq_refl) as (nodes0 & Hnodes & _).
  exists nodes0. split; [reflexivity|]. split; [exact Hnodes|reflexivity].
Defined.

(** ** The brush is radially symmetric *)

(** X22. Two vertices at the same distance from the local contact point
    are treated alike by one call: with Sculpt or Move they are shifted
    by the same vector, with Smooth or Pinch each goes the same fraction
    of its way to the contact point. *)
Theorem brush_radially_symmetric
    (computeVertexNormals : option (list nat) -> list Vector3 -> list Vector3)
    (b : Brush) (last : Vector2) (st : EditableScene) (point : Vector3)
    (normal : option Vector3) (i j : nat) (p q : Vector3) :
  scenePositions st !! i = Some p ->
  scenePositions st !! j = Some q ->
  Vector3.distanceTo p (localPointOf st point)
  = Vector3.distanceTo q (localPointOf st point) ->
  exists p' q' : Vector3,
    scenePositions (sculptMesh computeVertexNormals b last st point normal) !! i
    = Some p'
    /\ scenePositions (sculptMesh computeVertexNormals b last st point normal) !! j
       = Some q'
    /\ (activeTool b = SCULPT \/ activeTool b = MOVE ->
        Vector3.sub p' p = Vector3.sub q' q)
    /\ (activeTool b = SMOOTH \/ activeTool b = PINCH ->
        exists f : R,
          p' = Vector3.lerp p (localPointOf st point) f
          /\ q' = Vector3.lerp q (localPointOf st point) f).
Proof.
  intros Hp Hq Hdist. rewrite !sculptMesh_lookup, Hp, Hq. cbn [option_map].
  eexists _, _. split; [reflexivity|]. split; [reflexivity|].
  unfold sculptVertex. rewrite Hdist.
  destruct (Rlt_dec (Vector3.distanceTo q (localPointOf st point)) (brushSize b))
    as [Hin|Hout].
  - split.
    + intros [Ht|Ht]; unfold toolEffect; rewrite Ht.
      * destruct normal as [n|].
        -- unfold Vector3.sub, Vector3.addScaledVector. cbn [vx vy vz].
           f_equal; ring.
        -- unfold Vector3.sub. f_equal; ring.
      * unfold Vector3.sub. cbn [vx vy vz x2 y2]. f_equal; ring.
    + intros Ht. rewrite !toolEffect_toward by exact Ht. eexists. now split.
  - split.
    + intros _. unfold Vector3.sub. f_equal; ring.
    + intros _. exists 0. unfold Vector3.lerp.
      destruct p as [px py pz], q as [qx qy qz]. cbn [vx vy vz].
      split; f_equal; ring.
Qed.

Lemma transformDirection_z_identity :
  transformDirection (mkVector3 0 0 1) Matrix4.identity = mkVector3 0 0 1.
Proof.
  destruct (transformDirection_coords (mkVector3 0 0 1) Matrix4.identity)
    as [Hnz _].
  revert Hnz.
  cbn [Matrix4.identity e0 e1 e2 e4 e5 e6 e8 e9 e10 vx vy vz].
  replace (1 * 0 + 0 * 0 + 0 * 1) with 0 by ring.
  replace (0 * 0 + 1 * 0 + 0 * 1) with 0 by ring.
  replace (0 * 0 + 0 * 0 + 1 * 1) with 1 by ring.
  replace (0 * 0 + 0 * 0 + 1 * 1) with 1 by ring.
  rewrite sqrt_1. intros Hnz.
  destruct Hnz as [Hdir _]; [lra|]. rewrite Hdir. f_equal; lra.
Qed.

Lemma twin_local : localPointOf Samples.twinScene Vector3.zero = Vector3.zero.
Proof.
  unfold localPointOf.
  change (inverseMatrixOf Samples.twinScene) with (Matrix4.invert Matrix4.identity).
  rewrite invert_identity. apply applyMatrix4_identity.
Defined.

Lemma twin_dist : Vector3.distanceTo (mkVector3 0 1 0) Vector3.zero = 1.
Proof.
  apply distanceTo_eq; [lra|].
  unfold Vector3.distanceToSquared, Vector3.zero. cbn [vx vy vz]. ring.
Defined.

(** The Sculpt brush of radius 2 and strength 5 at the origin, with normal
    (0, 0, 1), lifts the first vertex of the twin triangle by 0.025. *)
Lemma twin_sculpt :
  scenePositions
    (sculptMesh Example.computeVertexNormals (mkBrush 2 5 SCULPT)
       (mkVector2 0 0) Samples.twinScene Vector3.zero (Some (mkVector3 0 0 1)))
    !! 0%nat = Some (mkVector3 1 0 0.025).
Proof.
  rewrite sculptMesh_lookup.
  change (scenePositions Samples.twinScene !! 0%nat) with (Some (mkVector3 1 0 0)).
  cbn [option_map]. f_equal. rewrite twin_local.
  rewrite (sculptVertex_inside _ _ _ _ _ _ _ 1 example_dist1)
    by (cbn [brushSize]; lra).
  unfold toolEffect. cbn [activeTool].
  change (inverseMatrixOf Samples.twinScene) with (Matrix4.invert Matrix4.identity).
  rewrite invert_identity, transformDirection_z_identity.
  unfold Vector3.addScaledVector. cbn [brushStrength brushSize vx vy vz].
  f_equal; lra.
Qed.

Lemma brush_radially_symmetric_witness :
  exists p' q' : Vector3,
    scenePositions
      (sculptMesh Example.computeVertexNormals (mkBrush 2 5 SCULPT)
         (mkVector2 0 0) Samples.twinScene Vector3.zero (Some (mkVector3 0 0 1)))
      !! 0%nat = Some p'
    /\ scenePositions
         (sculptMesh Example.computeVertexNormals (mkBrush 2 5 SCULPT)
            (mkVector2 0 0) Samples.twinScene Vector3.zero (Some (mkVector3 0 0 1)))
         !! 1%nat = Some q'
    /\ Vector3.sub p' (mkVector3 1 0 0) = Vector3.sub q' (mkVector3 0 1 0)
    /\ p' = mkVector3 1 0 0.025.
Proof.
  destruct (brush_radially_symmetric Example.computeVertexNormals
              (mkBrush 2 5 SCULPT) (mkVector2 0 0) Samples.twinScene Vector3.zero
              (Some (mkVector3 0 0 1)) 0 1 (mkVector3 1 0 0) (mkVector3 0 1 0))
    as (p' & q' & Hp & Hq & Hshift & _).
  - reflexivity.
  - reflexivity.
  - rewrite twin_local, example_dist1, twin_dist. reflexivity.
  - exists p', q'. split; [exact Hp|]. split; [exact Hq|].
    split; [apply Hshift; now left|].
    pose proof twin_sculpt as Hlift. rewrite Hp in Hlift.
    now injection Hlift.
Defined.
